(** * TaskFlow: the state-and-persistence layer and the page

    A shallow embedding of [StorageManager] (storage.js), of
    [AppController] (js/app.js) and of the methods of [UIManager] (js/ui.js)
    that compute something, and the properties of the specification that
    concern them.

    Layout:
    - JavaScript values as the code handles them (JSON data), objects as
      property lists in insertion order;
    - the host: [localStorage] with its failure modes, [JSON], string
      comparison, dates and texts as interfaces;
    - [StorageManager], method by method, in a small state-and-exception
      monad over the store and the two shared default objects;
    - [sortTasks], and the stable sort it relies on;
    - the page: the controller's state, the values of the form controls,
      and what is asked of the DOM, as a list of calls in the order they
      are made; [UIManager] and the handlers of [AppController] in a monad
      over the three;
    - a reference host (an executable JSON codec among others) that
      implements the interfaces, on which every statement can be evaluated;
    - each method as a function of what the store holds;
    - the properties of the specification;
    - further properties: the store over the life of a page, lookups, the
      shared defaults and corrupt slots, the sorted view, the labels, and
      the handlers of the page;
    - concrete sessions that exercise all of them. *)

From Stdlib Require Import ZArith NArith List String Ascii Bool Lia.
From Stdlib Require Import DecimalString DecimalZ DecimalFacts.
From Stdlib Require Import Sorting.Sorted Sorting.Permutation.
From stdpp Require Import base option list gmap strings.

Import ListNotations.
Local Open Scope string_scope.
Local Open Scope list_scope.
Local Open Scope Z_scope.

(** ** JavaScript values

    Everything the storage layer handles is JSON data: it comes out of
    [JSON.parse] or out of a form.  Numbers are the integers (the layer only
    produces [Date.now()]); [undefined] is never stored, a missing property
    reads as [None].  An object is its list of own properties in the order
    [JSON.stringify] follows: insertion order, after the keys that are array
    indices, if it has any. *)

#[local] Unset Elimination Schemes.
Inductive JSValue : Type :=
| JNull
| JBool (b : bool)
| JNum (n : Z)
| JStr (s : string)
| JArr (items : list JSValue)
| JObj (props : list (string * JSValue)).

#[local] Set Elimination Schemes.

Abbreviation JSObject := (list (string * JSValue)).

Section JSValue_ind.
Variable P : JSValue -> Prop.
Hypothesis Hnull : P JNull.
Hypothesis Hbool : forall b, P (JBool b).
Hypothesis Hnum : forall n, P (JNum n).
Hypothesis Hstr : forall s, P (JStr s).
Hypothesis Harr : forall xs, Forall P xs -> P (JArr xs).
Hypothesis Hobj : forall ps, Forall (fun p => P (snd p)) ps -> P (JObj ps).

Fixpoint JSValue_nested_ind (v : JSValue) : P v :=
  match v with
  | JNull => Hnull
  | JBool b => Hbool b
  | JNum n => Hnum n
  | JStr s => Hstr s
  | JArr xs =>
      Harr xs ((fix go (l : list JSValue) : Forall P l :=
                  match l with
                  | [] => @List.Forall_nil _ P
                  | x :: l' => @List.Forall_cons _ P x l' (JSValue_nested_ind x) (go l')
                  end) xs)
  | JObj ps =>
      Hobj ps ((fix go (l : JSObject) : Forall (fun p => P (snd p)) l :=
                  match l with
                  | [] => @List.Forall_nil _ _
                  | p :: l' =>
                      @List.Forall_cons _ _ p l' (JSValue_nested_ind (snd p)) (go l')
                  end) ps)
  end.
End JSValue_ind.

(** Decidable equality, for [decide] and for concrete evaluation. *)
Fixpoint JSValue_eqb (a b : JSValue) : bool :=
  match a, b with
  | JNull, JNull => true
  | JBool x, JBool y => Bool.eqb x y
  | JNum x, JNum y => Z.eqb x y
  | JStr x, JStr y => String.eqb x y
  | JArr xs, JArr ys =>
      (fix go (l1 l2 : list JSValue) : bool :=
         match l1, l2 with
         | [], [] => true
         | x :: l1', y :: l2' => JSValue_eqb x y && go l1' l2'
         | _, _ => false
         end) xs ys
  | JObj ps, JObj qs =>
      (fix go (l1 l2 : JSObject) : bool :=
         match l1, l2 with
         | [], [] => true
         | (k1, x) :: l1', (k2, y) :: l2' =>
             String.eqb k1 k2 && JSValue_eqb x y && go l1' l2'
         | _, _ => false
         end) ps qs
  | _, _ => false
  end.

Lemma JSValue_eqb_eq (a b : JSValue) : JSValue_eqb a b = true <-> a = b.
Proof.
  revert b. induction a as [| x | x | x | xs IH | ps IH] using JSValue_nested_ind;
    intros [| y | y | y | ys | qs]; simpl; try (split; congruence).
  - rewrite Bool.eqb_true_iff. split; congruence.
  - rewrite Z.eqb_eq. split; congruence.
  - rewrite String.eqb_eq. split; congruence.
  - revert ys. induction IH as [| x xs Hx _ IHxs]; intros [| y ys];
      try (split; congruence).
    rewrite andb_true_iff, Hx, IHxs. split.
    + intros [-> [= ->]]. reflexivity.
    + intros [= -> ->]. auto.
  - revert qs. induction IH as [| [k x] ps Hx _ IHps]; intros [| [k' y] qs];
      try (split; congruence).
    rewrite !andb_true_iff, String.eqb_eq. simpl in Hx. rewrite Hx, IHps. split.
    + intros [[-> ->] [= ->]]. reflexivity.
    + intros [= -> -> ->]. auto.
Qed.

#[global] Instance JSValue_eq_dec : EqDecision JSValue.
Proof.
  intros a b. destruct (JSValue_eqb a b) eqn:E.
  - left. apply JSValue_eqb_eq, E.
  - right. intros Heq. apply JSValue_eqb_eq in Heq. congruence.
Defined.

(** *** Property access

    [o[k]], [o[k] = v] and [{...a, ...b}] on property lists.  Assignment to
    an existing property keeps its position; a new property goes last.
    [obj_set] is the assignment under the names the code itself writes
    ([id], [completed], [theme], ...); what the engine does under other
    names (an array index is enumerated first, [__proto__] is an inherited
    accessor) is in [obj_put], further down, the assignment under a name
    the caller chooses. *)

Fixpoint obj_get (k : string) (o : JSObject) : option JSValue :=
  match o with
  | [] => None
  | (k', v) :: o' => if String.eqb k k' then Some v else obj_get k o'
  end.

Fixpoint obj_set (k : string) (v : JSValue) (o : JSObject) : JSObject :=
  match o with
  | [] => [(k, v)]
  | (k', v') :: o' =>
      if String.eqb k k' then (k', v) :: o' else (k', v') :: obj_set k v o'
  end.

(** [{...a, ...b}]: a fresh object that receives the properties of [a], then
    those of [b].  A key that [b] adds is listed after those of [a]; the
    engine lists an added key that is an array index before the other keys,
    which shows in the order of the keys of the stored text and in nothing
    that is read by key.  What is stated about a merged object is stated key
    by key. *)
Definition obj_assign (target src : JSObject) : JSObject :=
  fold_left (fun acc p => obj_set (fst p) (snd p) acc) src target.

Definition obj_spread (a b : JSObject) : JSObject :=
  obj_assign (obj_assign [] a) b.

(** A value is well formed when no object in it lists a property twice: what
    every JavaScript object satisfies. *)
Fixpoint wf_value (v : JSValue) : bool :=
  match v with
  | JArr xs => forallb wf_value xs
  | JObj ps =>
      bool_decide (NoDup (map fst ps)) && forallb (fun p => wf_value (snd p)) ps
  | _ => true
  end.

Definition wf_obj (o : JSObject) : bool := wf_value (JObj o).

(** *** Conversions the code relies on *)

(** [ToBoolean], as in [!x] and [x ? a : b]; [None] is [undefined]. *)
Definition truthy (v : option JSValue) : bool :=
  match v with
  | None | Some JNull => false
  | Some (JBool b) => b
  | Some (JNum n) => negb (n =? 0)
  | Some (JStr s) => negb (String.eqb s "")
  | Some (JArr _) | Some (JObj _) => true
  end.

(** [x === y].  Two objects (or arrays) taken from different places of a
    parsed document are different references, hence never identical. *)
Definition strict_eq (x y : option JSValue) : bool :=
  match x, y with
  | None, None => true
  | Some JNull, Some JNull => true
  | Some (JBool a), Some (JBool b) => Bool.eqb a b
  | Some (JNum a), Some (JNum b) => a =? b
  | Some (JStr a), Some (JStr b) => String.eqb a b
  | _, _ => false
  end.

(** [ToString] on JSON data, as used by [ToPropertyKey] and by
    [Array.prototype.join]; [None] is [undefined]. *)
Definition Z_toString (n : Z) : string :=
  NilZero.string_of_int (Z.to_int n).

Fixpoint toString (v : JSValue) : string :=
  match v with
  | JNull => "null"
  | JBool true => "true"
  | JBool false => "false"
  | JNum n => Z_toString n
  | JStr s => s
  | JArr xs =>
      (fix join (l : list JSValue) : string :=
         match l with
         | [] => ""
         | [x] => match x with JNull => "" | _ => toString x end
         | x :: l' =>
             (match x with JNull => "" | _ => toString x end) +:+ "," +:+ join l'
         end) xs
  | JObj _ => "[object Object]"
  end.

Definition toString_opt (v : option JSValue) : string :=
  match v with
  | None => "undefined"
  | Some v => toString v
  end.

(** [ToString] and [ToPrimitive] can throw.  On JSON data they throw a
    [TypeError] exactly when they reach an object that has an own property
    [toString]: it is not callable, and what the inherited [valueOf]
    returns is not primitive.  An array converts its elements, [null]
    excepted; an object without such a property is [[object Object]]. *)
Fixpoint converts (v : JSValue) : bool :=
  match v with
  | JArr xs => forallb converts xs
  | JObj o =>
      (fix absent (ps : JSObject) : bool :=
         match ps with
         | [] => true
         | (k, _) :: ps' => negb (String.eqb k "toString") && absent ps'
         end) o
  | _ => true
  end.

Definition converts_opt (v : option JSValue) : bool :=
  match v with
  | None => true
  | Some v => converts v
  end.

(** ** The host

    What the browser provides and the repository only calls.  Each interface
    lists the operations together with the facts about them that the
    properties below rely on; a reference implementation of all three is
    given further down. *)

(** [JSON.stringify(v)], [JSON.stringify(v, null, 2)] and [JSON.parse(s)]
    ([None] when it throws a [SyntaxError]). *)
Class JSONHost := {
  JSON_stringify : JSValue -> string;
  JSON_stringify_indent : JSValue -> string;
  JSON_parse : string -> option JSValue;
  JSON_parse_stringify : forall v,
      wf_value v = true -> JSON_parse (JSON_stringify v) = Some v;
  JSON_parse_stringify_indent : forall v,
      wf_value v = true -> JSON_parse (JSON_stringify_indent v) = Some v;
  JSON_parse_wf : forall s v, JSON_parse s = Some v -> wf_value v = true;
  JSON_parse_empty : JSON_parse "" = None
}.

(** [String.prototype.toLowerCase] and [String.prototype.localeCompare]; the
    latter is a consistent comparison (ECMA-402). *)
Class StringHost := {
  toLowerCase : string -> string;
  localeCompare : string -> string -> Z;
  localeCompare_antisym : forall a b,
      Z.sgn (localeCompare b a) = - Z.sgn (localeCompare a b);
  localeCompare_trans : forall a b c,
      localeCompare a b <= 0 -> localeCompare b c <= 0 -> localeCompare a c <= 0
}.

(** [Date.parse] ([None] is [NaN]) and [Date.prototype.toISOString] on a time
    value in milliseconds. *)
Class DateHost := {
  Date_parse : string -> option Z;
  toISOString : Z -> string
}.

(** *** localStorage

    A string-to-string store.  Access may be denied altogether (every call
    throws a [SecurityError]); otherwise the store has a capacity, counted in
    characters of keys and values, and [setItem] throws a
    [QuotaExceededError] when the result would exceed it. *)

Inductive Access := Denied | Quota (capacity : N).

Record LocalStorage := {
  items : gmap string string;
  access : Access
}.

Definition usage (m : gmap string string) : N :=
  map_fold (fun k v acc =>
              (acc + N.of_nat (String.length k) + N.of_nat (String.length v))%N)
           0%N m.

Inductive Exn :=
| SecurityError
| QuotaExceededError
| SyntaxError
| TypeError
| Error (message : string).

Inductive Outcome (A : Type) :=
| Ret (a : A)
| Throw (e : Exn).
Arguments Ret {A} a.
Arguments Throw {A} e.

(** *** The world

    Besides the store, the script owns two objects that it hands out by
    reference: the constants [DEFAULT_CATEGORIES] and [DEFAULT_SETTINGS].
    [getCategories] and [getSettings] return these very objects when the slot
    is missing or unreadable, so a caller that modifies the result modifies
    the default. *)

Record World := {
  storage : LocalStorage;
  DEFAULT_CATEGORIES : JSValue;
  DEFAULT_SETTINGS : JSValue
}.

Definition with_storage (st : LocalStorage) (w : World) : World :=
  {| storage := st;
     DEFAULT_CATEGORIES := DEFAULT_CATEGORIES w;
     DEFAULT_SETTINGS := DEFAULT_SETTINGS w |}.

Definition with_DEFAULT_CATEGORIES (v : JSValue) (w : World) : World :=
  {| storage := storage w;
     DEFAULT_CATEGORIES := v;
     DEFAULT_SETTINGS := DEFAULT_SETTINGS w |}.

Definition with_DEFAULT_SETTINGS (v : JSValue) (w : World) : World :=
  {| storage := storage w;
     DEFAULT_CATEGORIES := DEFAULT_CATEGORIES w;
     DEFAULT_SETTINGS := v |}.

(** Computations: a state-and-exception monad over the world.  The state
    survives a throw, as in JavaScript. *)
Definition JS (A : Type) : Type := World -> Outcome A * World.

Definition ret {A} (a : A) : JS A := fun w => (Ret a, w).
Definition throw {A} (e : Exn) : JS A := fun w => (Throw e, w).
Definition bind {A B} (m : JS A) (k : A -> JS B) : JS B :=
  fun w => match m w with
           | (Ret a, w') => k a w'
           | (Throw e, w') => (Throw e, w')
           end.
Definition try_catch {A} (body : JS A) (handler : Exn -> JS A) : JS A :=
  fun w => match body w with
           | (Ret a, w') => (Ret a, w')
           | (Throw e, w') => handler e w'
           end.
Definition lift {A} (o : Outcome A) : JS A := fun w => (o, w).

Notation "x <- m ;; k" := (bind m (fun x => k))
  (at level 100, m at next level, right associativity).
Notation "m ;;; k" := (bind m (fun _ => k))
  (at level 100, right associativity).

Definition localStorage_getItem (k : string) : JS (option string) :=
  fun w => match access (storage w) with
           | Denied => (Throw SecurityError, w)
           | Quota _ => (Ret (items (storage w) !! k), w)
           end.

Definition localStorage_setItem (k v : string) : JS unit :=
  fun w => match access (storage w) with
           | Denied => (Throw SecurityError, w)
           | Quota cap =>
               let m := <[k := v]> (items (storage w)) in
               if (usage m <=? cap)%N
               then (Ret tt, with_storage {| items := m; access := Quota cap |} w)
               else (Throw QuotaExceededError, w)
           end.

Definition localStorage_removeItem (k : string) : JS unit :=
  fun w => match access (storage w) with
           | Denied => (Throw SecurityError, w)
           | Quota cap =>
               (Ret tt,
                with_storage {| items := delete k (items (storage w));
                                access := Quota cap |} w)
           end.

(** *** Property access on arbitrary values

    [v.k] and [v.k = x] for the ordinary property names the code uses.  On
    [null] both throw a [TypeError]; a primitive or an array has no such
    property, and an assignment to it leaves nothing that [JSON.stringify]
    would show (the script is not in strict mode). *)

Definition prop (k : string) (v : JSValue) : Outcome (option JSValue) :=
  match v with
  | JNull => Throw TypeError
  | JObj o => Ret (obj_get k o)
  | _ => Ret None
  end.

Definition assign (k : string) (x : JSValue) (v : JSValue) : Outcome JSValue :=
  match v with
  | JNull => Throw TypeError
  | JObj o => Ret (JObj (obj_set k x o))
  | _ => Ret v
  end.

(** *** Assignment under a computed name

    [v[key] = x] for a name the caller chooses, as in [updateSetting].  An
    own property keeps its place and takes the value.  Otherwise, on an
    ordinary object: under [__proto__] the inherited setter runs and no
    property is stored (with an object or [null] as value it replaces the
    prototype, which JSON data does not record; the own properties, and so
    what [JSON.stringify] writes, are as before); a new array index, the
    canonical decimal form of a number below [2^32 - 1], is enumerated with
    the other indices, in ascending order and before every other name; any
    other new name goes last.  On [null] the assignment throws.  On a
    primitive it stores nothing (no strict mode); on an array a name other
    than an index or [length] adds a property that [JSON.stringify] does not
    show.  An index or [length] of an array changes its elements, which is
    not modelled: the settings record is an object wherever a statement
    depends on what was stored. *)
Definition array_index (k : string) : option N :=
  match NilZero.uint_of_string k with
  | Some u =>
      let n := N.of_uint u in
      if String.eqb (NilZero.string_of_uint (N.to_uint n)) k
         && (n <? 4294967295)%N
      then Some n else None
  | None => None
  end.

Fixpoint insert_index (n : N) (k : string) (x : JSValue) (o : JSObject)
  : JSObject :=
  match o with
  | [] => [(k, x)]
  | (k', v) :: o' =>
      match array_index k' with
      | Some m =>
          if (m <? n)%N then (k', v) :: insert_index n k x o'
          else (k, x) :: o
      | None => (k, x) :: o
      end
  end.

Definition obj_put (k : string) (x : JSValue) (o : JSObject) : JSObject :=
  match obj_get k o with
  | Some _ => obj_set k x o
  | None =>
      if String.eqb k "__proto__" then o
      else match array_index k with
           | Some n => insert_index n k x o
           | None => obj_set k x o
           end
  end.

Definition assign_key (key : string) (x : JSValue) (v : JSValue)
  : Outcome JSValue :=
  match v with
  | JNull => Throw TypeError
  | JObj o => Ret (JObj (obj_put key x o))
  | _ => Ret v
  end.

Definition obind {A B} (o : Outcome A) (k : A -> Outcome B) : Outcome B :=
  match o with
  | Ret a => k a
  | Throw e => Throw e
  end.

(** [ToString(v)], as a setter of the DOM, a template literal or [new Date]
    applies it. *)
Definition ToString (v : option JSValue) : Outcome string :=
  if converts_opt v then Ret (toString_opt v) else Throw TypeError.

(** *** Array methods

    Each throws a [TypeError] when the receiver is not an array (the method
    is then [undefined]), and propagates what the callback throws. *)

Fixpoint find_from (p : JSValue -> Outcome bool) (i : nat) (l : list JSValue)
  : Outcome (option (nat * JSValue)) :=
  match l with
  | [] => Ret None
  | x :: l' =>
      obind (p x) (fun b => if b then Ret (Some (i, x)) else find_from p (S i) l')
  end.

Fixpoint filter_list (p : JSValue -> Outcome bool) (l : list JSValue)
  : Outcome (list JSValue) :=
  match l with
  | [] => Ret []
  | x :: l' =>
      obind (p x) (fun b =>
      obind (filter_list p l') (fun r => Ret (if b then x :: r else r)))
  end.

Fixpoint some_list (p : JSValue -> Outcome bool) (l : list JSValue)
  : Outcome bool :=
  match l with
  | [] => Ret false
  | x :: l' => obind (p x) (fun b => if b then Ret true else some_list p l')
  end.

(** [arr.find(p)]; the index comes along because the result is the element
    itself, not a copy: what is assigned to it shows in the array. *)
Definition Array_find (p : JSValue -> Outcome bool) (arr : JSValue)
  : Outcome (option (nat * JSValue)) :=
  match arr with
  | JArr xs => find_from p 0%nat xs
  | _ => Throw TypeError
  end.

(** [arr.findIndex(p)]; [None] is [-1]. *)
Definition Array_findIndex (p : JSValue -> Outcome bool) (arr : JSValue)
  : Outcome (option nat) :=
  obind (Array_find p arr) (fun r => Ret (fst <$> r)).

Definition Array_filter (p : JSValue -> Outcome bool) (arr : JSValue)
  : Outcome JSValue :=
  match arr with
  | JArr xs => obind (filter_list p xs) (fun r => Ret (JArr r))
  | _ => Throw TypeError
  end.

Definition Array_some (p : JSValue -> Outcome bool) (arr : JSValue)
  : Outcome bool :=
  match arr with
  | JArr xs => some_list p xs
  | _ => Throw TypeError
  end.

Definition Array_push (arr x : JSValue) : Outcome JSValue :=
  match arr with
  | JArr xs => Ret (JArr (xs ++ [x]))
  | _ => Throw TypeError
  end.

(** [arr.length] of a value on which an array method has just succeeded. *)
Definition Array_length (arr : JSValue) : nat :=
  match arr with
  | JArr xs => length xs
  | _ => 0%nat
  end.

(** [arr[i] = x] for an index in range. *)
Definition Array_set (i : nat) (x : JSValue) (arr : JSValue) : JSValue :=
  match arr with
  | JArr xs => JArr (<[i := x]> xs)
  | _ => arr
  end.

(** [arr[i]]; [None] is [undefined]. *)
Definition Array_get (i : nat) (arr : JSValue) : option JSValue :=
  match arr with
  | JArr xs => xs !! i
  | _ => None
  end.

(** [{...v}] of an element that was found by its [id], hence an object. *)
Definition own_props (v : option JSValue) : JSObject :=
  match v with
  | Some (JObj o) => o
  | _ => []
  end.

(** ** storage.js *)

Definition STORAGE_KEYS_TASKS : string := "taskflow_tasks".
Definition STORAGE_KEYS_CATEGORIES : string := "taskflow_categories".
Definition STORAGE_KEYS_SETTINGS : string := "taskflow_settings".

Definition category (id name color : string) : JSValue :=
  JObj [("id", JStr id); ("name", JStr name); ("color", JStr color)].

Definition DEFAULT_CATEGORIES_literal : JSValue :=
  JArr [ category "cat_1" "Work" "#3b82f6";
         category "cat_2" "Personal" "#8b5cf6";
         category "cat_3" "Shopping" "#ec4899";
         category "cat_4" "Health" "#10b981" ].

Definition DEFAULT_SETTINGS_literal : JSValue :=
  JObj [ ("theme", JStr "light");
         ("sortBy", JStr "date");
         ("filterCategory", JStr "all");
         ("filterStatus", JStr "all") ].

(** The world when the script is loaded, before [initialize] runs. *)
Definition script_loaded (st : LocalStorage) : World :=
  {| storage := st;
     DEFAULT_CATEGORIES := DEFAULT_CATEGORIES_literal;
     DEFAULT_SETTINGS := DEFAULT_SETTINGS_literal |}.

(** A reference to a value some method returned: a value of its own (fresh
    from [JSON.parse]) or one of the two shared defaults. *)
Inductive Ref :=
| Fresh (v : JSValue)
| DefaultCategoriesRef
| DefaultSettingsRef.

Definition deref (r : Ref) : JS JSValue :=
  fun w => (Ret match r with
                | Fresh v => v
                | DefaultCategoriesRef => DEFAULT_CATEGORIES w
                | DefaultSettingsRef => DEFAULT_SETTINGS w
                end, w).

(** The object behind [r] now holds [v] (after a [push] or an assignment). *)
Definition mutate (r : Ref) (v : JSValue) : JS unit :=
  fun w => (Ret tt, match r with
                    | Fresh _ => w
                    | DefaultCategoriesRef => with_DEFAULT_CATEGORIES v w
                    | DefaultSettingsRef => with_DEFAULT_SETTINGS v w
                    end).

(** [s ? a : b] on what [getItem] returned: [null] and [""] are falsy. *)
Definition text_truthy (s : option string) : bool :=
  match s with
  | None => false
  | Some s => negb (String.eqb s "")
  end.

Module StorageManager.
Section Methods.
Context `{JH : JSONHost} `{SH : StringHost} `{DH : DateHost}.

(** [JSON.parse(s)] as a computation. *)
Definition parse (s : string) : JS JSValue :=
  match JSON_parse s with
  | Some v => ret v
  | None => throw SyntaxError
  end.

Definition isLocalStorageAvailable : JS bool :=
  try_catch
    (let test := "__localStorage_test__" in
     localStorage_setItem test test ;;;
     localStorage_removeItem test ;;;
     ret true)
    (fun _ => ret false).

Definition saveTasks (tasks : JSValue) : JS bool :=
  try_catch
    (localStorage_setItem STORAGE_KEYS_TASKS (JSON_stringify tasks) ;;;
     ret true)
    (fun _ => ret false).

Definition saveCategories (categories : JSValue) : JS bool :=
  try_catch
    (localStorage_setItem STORAGE_KEYS_CATEGORIES (JSON_stringify categories) ;;;
     ret true)
    (fun _ => ret false).

Definition saveSettings (settings : JSValue) : JS bool :=
  try_catch
    (localStorage_setItem STORAGE_KEYS_SETTINGS (JSON_stringify settings) ;;;
     ret true)
    (fun _ => ret false).

Definition initialize : JS unit :=
  available <- isLocalStorageAvailable ;;
  if negb available then ret tt
  else
    try_catch
      (t <- localStorage_getItem STORAGE_KEYS_TASKS ;;
       (if negb (text_truthy t) then saveTasks (JArr []) else ret true) ;;;
       c <- localStorage_getItem STORAGE_KEYS_CATEGORIES ;;
       (if negb (text_truthy c)
        then d <- deref DefaultCategoriesRef ;; saveCategories d
        else ret true) ;;;
       s <- localStorage_getItem STORAGE_KEYS_SETTINGS ;;
       (if negb (text_truthy s)
        then d <- deref DefaultSettingsRef ;; saveSettings d
        else ret true) ;;;
       ret tt)
      (fun _ => ret tt).

Definition getTasks : JS JSValue :=
  try_catch
    (tasks <- localStorage_getItem STORAGE_KEYS_TASKS ;;
     match tasks with
     | Some s => if text_truthy tasks then parse s else ret (JArr [])
     | None => ret (JArr [])
     end)
    (fun _ => ret (JArr [])).

(** [t => t.id === taskId] *)
Definition has_id (taskId : string) (t : JSValue) : Outcome bool :=
  obind (prop "id" t) (fun i => Ret (strict_eq i (Some (JStr taskId)))).

(** [addTask(task)].  [now] is what [Date.now()] returns, [suffix] is
    [Math.random().toString(36).substr(2, 9)] and [stamp] the time value of
    [new Date()]. *)
Definition addTask (now : Z) (suffix : string) (stamp : Z) (task : JSObject)
  : JS bool :=
  try_catch
    (tasks <- getTasks ;;
     let task := obj_set "id"
                   (JStr ("task_" +:+ Z_toString now +:+ "_" +:+ suffix)) task in
     let task := obj_set "createdAt" (JStr (toISOString stamp)) task in
     let task := obj_set "completed" (JBool false) task in
     let task := obj_set "completedAt" JNull task in
     tasks <- lift (Array_push tasks (JObj task)) ;;
     saveTasks tasks)
    (fun _ => ret false).

Definition updateTask (taskId : string) (updates : JSObject) : JS bool :=
  try_catch
    (tasks <- getTasks ;;
     taskIndex <- lift (Array_findIndex (has_id taskId) tasks) ;;
     match taskIndex with
     | None => ret false
     | Some i =>
         saveTasks
           (Array_set i
              (JObj (obj_spread (own_props (Array_get i tasks)) updates)) tasks)
     end)
    (fun _ => ret false).

Definition deleteTask (taskId : string) : JS bool :=
  try_catch
    (tasks <- getTasks ;;
     filteredTasks <- lift (Array_filter
                              (fun t => obind (has_id taskId t)
                                          (fun b => Ret (negb b))) tasks) ;;
     if Nat.eqb (Array_length filteredTasks) (Array_length tasks)
     then ret false
     else saveTasks filteredTasks)
    (fun _ => ret false).

(** [toggleTaskComplete(taskId)]; [stamp] is the time value of [new Date()],
    read when the task becomes completed. *)
Definition toggleTaskComplete (stamp : Z) (taskId : string) : JS bool :=
  try_catch
    (tasks <- getTasks ;;
     found <- lift (Array_find (has_id taskId) tasks) ;;
     match found with
     | None => ret false
     | Some (i, task) =>
         if negb (truthy (Some task)) then ret false
         else
           c <- lift (prop "completed" task) ;;
           task <- lift (assign "completed" (JBool (negb (truthy c))) task) ;;
           c <- lift (prop "completed" task) ;;
           task <- lift (assign "completedAt"
                           (if truthy c then JStr (toISOString stamp) else JNull)
                           task) ;;
           saveTasks (Array_set i task tasks)
     end)
    (fun _ => ret false).

Definition clearCompletedTasks : JS bool :=
  try_catch
    (tasks <- getTasks ;;
     activeTasks <- lift (Array_filter
                            (fun t => obind (prop "completed" t)
                                        (fun c => Ret (negb (truthy c)))) tasks) ;;
     saveTasks activeTasks)
    (fun _ => ret false).

(** [getTaskById(taskId)]: the task, or [null]. *)
Definition getTaskById (taskId : string) : JS JSValue :=
  try_catch
    (tasks <- getTasks ;;
     found <- lift (Array_find (has_id taskId) tasks) ;;
     match found with
     | Some (_, t) => ret (if truthy (Some t) then t else JNull)
     | None => ret JNull
     end)
    (fun _ => ret JNull).

Definition getCategories : JS Ref :=
  try_catch
    (categories <- localStorage_getItem STORAGE_KEYS_CATEGORIES ;;
     match categories with
     | Some s =>
         if text_truthy categories then v <- parse s ;; ret (Fresh v)
         else ret DefaultCategoriesRef
     | None => ret DefaultCategoriesRef
     end)
    (fun _ => ret DefaultCategoriesRef).

(** [x.toLowerCase()] of a property value: a [TypeError] unless a string. *)
Definition lowered (v : option JSValue) : Outcome string :=
  match v with
  | Some (JStr s) => Ret (toLowerCase s)
  | _ => Throw TypeError
  end.

(** [c => c.name.toLowerCase() === category.name.toLowerCase()] *)
Definition same_name (category : JSObject) (c : JSValue) : Outcome bool :=
  obind (prop "name" c) (fun n =>
  obind (lowered n) (fun a =>
  obind (lowered (obj_get "name" category)) (fun b =>
  Ret (String.eqb a b)))).

(** [addCategory(category)]; [now] is what [Date.now()] returns. *)
Definition addCategory (now : Z) (category : JSObject) : JS bool :=
  try_catch
    (r <- getCategories ;;
     categories <- deref r ;;
     duplicate <- lift (Array_some (same_name category) categories) ;;
     if duplicate then ret false
     else
       let category := obj_set "id" (JStr ("cat_" +:+ Z_toString now)) category in
       categories <- lift (Array_push categories (JObj category)) ;;
       mutate r categories ;;;
       saveCategories categories)
    (fun _ => ret false).

(** [getCategoryById(categoryId)]: the category, or [null]. *)
Definition getCategoryById (categoryId : string) : JS JSValue :=
  try_catch
    (r <- getCategories ;;
     categories <- deref r ;;
     found <- lift (Array_find (has_id categoryId) categories) ;;
     match found with
     | Some (_, c) => ret (if truthy (Some c) then c else JNull)
     | None => ret JNull
     end)
    (fun _ => ret JNull).

(** [getCategoryById(categoryId)] for an argument of any type, as
    [createTaskCard] calls it with [task.category]. *)
Definition getCategoryBy (categoryId : option JSValue) : JS JSValue :=
  try_catch
    (r <- getCategories ;;
     categories <- deref r ;;
     found <- lift (Array_find
                      (fun c => obind (prop "id" c)
                                      (fun i => Ret (strict_eq i categoryId)))
                      categories) ;;
     match found with
     | Some (_, c) => ret (if truthy (Some c) then c else JNull)
     | None => ret JNull
     end)
    (fun _ => ret JNull).

Definition getSettings : JS Ref :=
  try_catch
    (settings <- localStorage_getItem STORAGE_KEYS_SETTINGS ;;
     match settings with
     | Some s =>
         if text_truthy settings then v <- parse s ;; ret (Fresh v)
         else ret DefaultSettingsRef
     | None => ret DefaultSettingsRef
     end)
    (fun _ => ret DefaultSettingsRef).

Definition updateSetting (key : string) (value : JSValue) : JS bool :=
  try_catch
    (r <- getSettings ;;
     settings <- deref r ;;
     settings <- lift (assign_key key value settings) ;;
     mutate r settings ;;;
     saveSettings settings)
    (fun _ => ret false).

(** [exportData()]: the document, or [null] ([None]) on error; [stamp] is
    the time value of [new Date()]. *)
Definition exportData (stamp : Z) : JS (option string) :=
  try_catch
    (tasks <- getTasks ;;
     categories <- (r <- getCategories ;; deref r) ;;
     settings <- (r <- getSettings ;; deref r) ;;
     let data := JObj [ ("tasks", tasks);
                        ("categories", categories);
                        ("settings", settings);
                        ("exportDate", JStr (toISOString stamp));
                        ("version", JStr "1.0") ] in
     ret (Some (JSON_stringify_indent data)))
    (fun _ => ret None).

(** [save(data.k)] for a property that was just seen to be truthy. *)
Definition save_prop (save : JSValue -> JS bool) (v : option JSValue)
  : JS bool :=
  match v with
  | Some v => save v
  | None => ret false
  end.

Definition importData (jsonData : string) : JS bool :=
  try_catch
    (data <- parse jsonData ;;
     tasks <- lift (prop "tasks" data) ;;
     invalid <- (if negb (truthy tasks) then ret true
                 else categories <- lift (prop "categories" data) ;;
                      ret (negb (truthy categories))) ;;
     if (invalid : bool) then throw (Error "Invalid data format")
     else
       save_prop saveTasks tasks ;;;
       categories <- lift (prop "categories" data) ;;
       save_prop saveCategories categories ;;;
       settings <- lift (prop "settings" data) ;;
       (if truthy settings then save_prop saveSettings settings
        else ret true) ;;;
       ret true)
    (fun _ => ret false).

Definition clearAllData : JS bool :=
  try_catch
    (localStorage_removeItem STORAGE_KEYS_TASKS ;;;
     localStorage_removeItem STORAGE_KEYS_CATEGORIES ;;;
     localStorage_removeItem STORAGE_KEYS_SETTINGS ;;;
     initialize ;;;
     ret true)
    (fun _ => ret false).

(** The three collections as a caller sees them. *)
Definition listTasks : JS JSValue := getTasks.
Definition listCategories : JS JSValue := r <- getCategories ;; deref r.
Definition listSettings : JS JSValue := r <- getSettings ;; deref r.

End Methods.
End StorageManager.

(** ** js/app.js: sorting *)

Module AppController.
Section Sort.
Context `{SH : StringHost} `{DH : DateHost}.

(** The time value of [new Date(v)]; [None] is an invalid date.  An array
    or an object is first converted to a string. *)
Definition Date_of (v : option JSValue) : option Z :=
  match v with
  | None => None
  | Some JNull => Some 0
  | Some (JBool b) => Some (if b then 1 else 0)
  | Some (JNum n) => if Z.abs n <=? 8640000000000000 then Some n else None
  | Some (JStr s) => Date_parse s
  | Some v => Date_parse (toString v)
  end.

(** [priorityOrder[p]] as a number; [None] is [NaN] (the property is
    missing, or inherited and not a number). *)
Definition priorityOrder (p : option JSValue) : option Z :=
  let k := toString_opt p in
  if String.eqb k "high" then Some 0
  else if String.eqb k "medium" then Some 1
  else if String.eqb k "low" then Some 2
  else None.

(** [x - y] on numbers that may be [NaN]. *)
Definition minus (x y : option Z) : option Z :=
  match x, y with
  | Some a, Some b => Some (a - b)
  | _, _ => None
  end.

(** The comparison function that [sortTasks] hands to [sort].  [new Date],
    the property name in [priorityOrder[...]] and the argument of
    [localeCompare] convert what they are given to a string, which can
    throw; a [title] that is not a string has no [localeCompare]. *)
Definition compareTasks (sortBy : string) (a b : JSValue)
  : Outcome (option Z) :=
  obind (prop "completed" a) (fun ca =>
  obind (prop "completed" b) (fun cb =>
  if negb (strict_eq ca cb) then Ret (Some (if truthy ca then 1 else -1))
  else if String.eqb sortBy "date" then
    obind (prop "dueDate" a) (fun da =>
    obind (ToString da) (fun _ =>
    obind (prop "dueDate" b) (fun db =>
    obind (ToString db) (fun _ =>
    Ret (minus (Date_of da) (Date_of db))))))
  else if String.eqb sortBy "priority" then
    obind (prop "priority" a) (fun pa =>
    obind (ToString pa) (fun _ =>
    obind (prop "priority" b) (fun pb =>
    obind (ToString pb) (fun _ =>
    Ret (minus (priorityOrder pa) (priorityOrder pb))))))
  else if String.eqb sortBy "alphabetical" then
    obind (prop "title" a) (fun ta =>
    match ta with
    | Some (JStr s) =>
        obind (prop "title" b) (fun tb =>
        obind (ToString tb) (fun that =>
        Ret (Some (localeCompare s that))))
    | _ => Throw TypeError
    end)
  else Ret (Some 0))).

(** [Array.prototype.sort(comparefn)].  The sort is stable, a [NaN] from
    [comparefn] counts as [0], and what [comparefn] throws propagates.  For
    a [comparefn] that is consistent and does not throw, as [compareTasks]
    is on tasks of the data model, the result does not depend on the
    algorithm; the model inserts each element into the sorted rest.  For
    any other [comparefn] the language leaves the order to the engine, and
    which pairs are compared, hence whether a throw is met, as well: there
    the model only tells that the result, if there is one, is a
    rearrangement, and what is stated about the order is stated for tasks
    of the data model. *)
Definition nan_to_zero (c : option Z) : Z :=
  match c with
  | Some z => z
  | None => 0
  end.

Fixpoint insert (comparefn : JSValue -> JSValue -> Outcome (option Z))
    (x : JSValue) (l : list JSValue) : Outcome (list JSValue) :=
  match l with
  | [] => Ret [x]
  | y :: l' =>
      obind (comparefn x y) (fun c =>
      if 0 <? nan_to_zero c
      then obind (insert comparefn x l') (fun r => Ret (y :: r))
      else Ret (x :: y :: l'))
  end.

Fixpoint Array_sort (comparefn : JSValue -> JSValue -> Outcome (option Z))
    (l : list JSValue) : Outcome (list JSValue) :=
  match l with
  | [] => Ret []
  | x :: l' => obind (Array_sort comparefn l') (insert comparefn x)
  end.

Definition sortTasks (tasks : list JSValue) (sortBy : string)
  : Outcome (list JSValue) :=
  let sorted := tasks in
  Array_sort (compareTasks sortBy) sorted.

End Sort.
End AppController.

(** ** The page

    The rest of js/app.js and js/ui.js runs in a page: [AppController]
    keeps a state object, reads the form controls, calls [StorageManager]
    and calls [UIManager], whose methods write to the DOM.  The DOM itself is
    not modelled.  What a handler reads from it, the value of a form
    control, is an input of the handler; what reaches it is recorded call
    by call, in the order of the calls. *)

(** [String.prototype.trim], [String.prototype.includes], the iteration of a
    string ([[...s]], one string per code point),
    [Date.prototype.toLocaleDateString('en-US', ...)] on a time value
    ([None] is an invalid date), and whether [document.querySelector]
    accepts a selector: it throws a [SyntaxError] on one it cannot parse. *)
Class TextHost := {
  trim : string -> string;
  includes : string -> string -> bool;
  chars : string -> list string;
  toLocaleDateString : option Z -> string;
  valid_selector : string -> bool
}.

Module Page.

(** The functions that app.js hands to [showConfirmModal]. *)
Inductive Callback :=
| ConfirmDeleteTask (taskId : string)
| ConfirmClearCompleted.

(** An element built by [createTaskCard]. *)
Inductive Element :=
| TaskCard (task : JSValue).

(** A write to the DOM: a call of a [UIManager] method that only touches
    the DOM, or one of the writes of a method that does more. *)
Inductive Call :=
| showEmptyState
| clearTasksContainer
| appendChild (card : Element)
| animateNumber (elementId : string) (newValue : Z)
| resetCategoryOptions
| appendCategoryOption (select : string) (value text : option JSValue)
| showTaskModal (task : JSValue)
| hideTaskModal
| hideCategoryModal
| showConfirmModal (title message : string) (onConfirm : Callback)
| hideConfirmModal
| applyTheme (theme : option JSValue)
| showNotification (message type : string)
| removeTaskCard (taskId : string)
| initParticles
| setValue (elementId value : string)
| download (filename content : string).

(** [AppController.state].  [getCategories] and [getSettings] may return
    one of the shared defaults, so these two fields hold references. *)
Record State := {
  currentTasks : JSValue;
  currentCategories : Ref;
  settings : Ref;
  editingTaskId : JSValue
}.

(** The state the script starts with. *)
Definition initial_state : State :=
  {| currentTasks := JArr [];
     currentCategories := Fresh (JArr []);
     settings := Fresh (JObj []);
     editingTaskId := JNull |}.

(** The values of the form controls that the handlers read. *)
Record Controls := {
  searchInput : string;
  categoryFilter : string;
  statusFilter : string;
  sortSelect : string;
  taskForm_dataset_taskId : option string;
  taskTitle : string;
  taskDescription : string;
  taskCategory : string;
  taskPriority : string;
  taskDueDate : string;
  categoryName : string;
  categoryColor : string
}.

Record Session := {
  world : World;
  state : State;
  calls : list Call
}.

(** Computations of the page: the session is threaded, and survives a
    throw. *)
Definition UI (A : Type) : Type := Session -> Outcome A * Session.

Definition ui_ret {A} (a : A) : UI A := fun s => (Ret a, s).
Definition ui_bind {A B} (m : UI A) (k : A -> UI B) : UI B :=
  fun s => match m s with
           | (Ret a, s') => k a s'
           | (Throw e, s') => (Throw e, s')
           end.

(** A [StorageManager] method, run on the world of the session. *)
Definition run {A} (m : JS A) : UI A :=
  fun s => let (r, w) := m (world s) in
           (r, {| world := w; state := state s; calls := calls s |}).

Definition outcome {A} (o : Outcome A) : UI A := fun s => (o, s).

Definition call (c : Call) : UI unit :=
  fun s => (Ret tt, {| world := world s; state := state s;
                       calls := calls s ++ [c] |}).

Definition get_state : UI State := fun s => (Ret (state s), s).

Definition set_state (st : State) : UI unit :=
  fun s => (Ret tt, {| world := world s; state := st; calls := calls s |}).

(** [l.forEach(f)] *)
Fixpoint forEach {A} (f : A -> UI unit) (l : list A) : UI unit :=
  match l with
  | [] => ui_ret tt
  | x :: l' => ui_bind (f x) (fun _ => forEach f l')
  end.

End Page.

Declare Scope ui_scope.
Delimit Scope ui_scope with ui.
Notation "x <- m ;; k" := (Page.ui_bind m (fun x => k))
  (at level 100, m at next level, right associativity) : ui_scope.
Notation "m ;;; k" := (Page.ui_bind m (fun _ => k))
  (at level 100, right associativity) : ui_scope.

(** ** js/ui.js *)

Module UIManager.
Import Page.
Section Methods.
Context `{JH : JSONHost} `{SH : StringHost} `{DH : DateHost} `{TH : TextHost}.
Local Open Scope ui_scope.

(** [a ? a.k : d] on the category found. *)
Definition of_category (k d : string) (category : JSValue)
  : Outcome (option JSValue) :=
  if truthy (Some category) then prop k category else Ret (Some (JStr d)).

(** [createTaskCard(task)].  The card is built from the task, from the
    category that [getCategoryById] finds for it and from the clock; the
    model keeps the task it is built from and not the markup.  What can
    throw is kept: reading [task.completed] when the task is [null], and the
    conversion to a string of each value that goes into an attribute, a
    property name, a [Date] or the markup ([getRelativeTime] starts with
    [new Date(task.createdAt)]).  Nothing in it writes to the store. *)
Definition createTaskCard (task : JSValue) : UI Element :=
  outcome (prop "completed" task) ;;;
  id <- outcome (prop "id" task) ;;
  outcome (ToString id) ;;;
  priority <- outcome (prop "priority" task) ;;
  outcome (ToString priority) ;;;
  categoryId <- outcome (prop "category" task) ;;
  category <- run (StorageManager.getCategoryBy categoryId) ;;
  categoryColor <- outcome (of_category "color" "#6b7280" category) ;;
  dueDate <- outcome (prop "dueDate" task) ;;
  outcome (ToString dueDate) ;;;
  title <- outcome (prop "title" task) ;;
  outcome (ToString title) ;;;
  outcome (ToString categoryColor) ;;;
  categoryName <- outcome (of_category "name" "Uncategorized" category) ;;
  outcome (ToString categoryName) ;;;
  description <- outcome (prop "description" task) ;;
  outcome (if truthy description then ToString description else Ret "") ;;;
  createdAt <- outcome (prop "createdAt" task) ;;
  outcome (ToString createdAt) ;;;
  ui_ret (TaskCard task).

(** [renderTasks(tasks)], for the array it is handed. *)
Definition renderTasks (tasks : list JSValue) : UI unit :=
  if Nat.eqb (length tasks) 0 then call showEmptyState
  else
    call clearTasksContainer ;;;
    forEach (fun task =>
               taskCard <- createTaskCard task ;;
               call (appendChild taskCard)) tasks.

(** [t => t.completed] *)
Definition is_completed (t : JSValue) : Outcome bool :=
  obind (prop "completed" t) (fun c => Ret (truthy c)).

(** [updateStats(tasks)].  Of a value that is not an array, [null] has no
    [length] and the others have no [filter]: a [TypeError] before anything
    is shown. *)
Definition updateStats (tasks : JSValue) : UI unit :=
  match tasks with
  | JArr ts =>
      let total := Z.of_nat (length ts) in
      done <- outcome (filter_list is_completed ts) ;;
      let completed := Z.of_nat (length done) in
      let pending := total - completed in
      call (animateNumber "totalTasks" total) ;;;
      call (animateNumber "completedTasks" completed) ;;;
      call (animateNumber "pendingTasks" pending)
  | _ => outcome (Throw TypeError)
  end.

(** [populateCategories(categories)]: the two selects are reset, then each
    category adds an option to the task form and one to the filter; its
    [id] and its [name] are converted to strings for the option. *)
Definition populateCategories (categories : JSValue) : UI unit :=
  call resetCategoryOptions ;;;
  match categories with
  | JArr cs =>
      forEach (fun category =>
                 id <- outcome (prop "id" category) ;;
                 outcome (ToString id) ;;;
                 name <- outcome (prop "name" category) ;;
                 outcome (ToString name) ;;;
                 call (appendCategoryOption "taskCategory" id name) ;;;
                 call (appendCategoryOption "categoryFilter" id name)) cs
  | _ => outcome (Throw TypeError)
  end.

(** [getRelativeTime(dateString)]; [now] is the time value of [new Date()].
    [new Date(dateString)] converts an object or an array to a string
    first, which can throw.  With an invalid date every difference is [NaN]
    and every comparison fails. *)
Definition getRelativeTime (now : Z) (dateString : option JSValue)
  : Outcome string :=
  obind (ToString dateString) (fun _ =>
  let date := AppController.Date_of dateString in
  Ret match AppController.minus (Some now) date with
      | None => toLocaleDateString date
      | Some diffMs =>
          let diffMins := diffMs / 60000 in
          let diffHours := diffMs / 3600000 in
          let diffDays := diffMs / 86400000 in
          if diffMins <? 1 then "just now"
          else if diffMins <? 60 then Z_toString diffMins +:+ " min ago"
          else if diffHours <? 24
               then Z_toString diffHours +:+ " hour"
                    +:+ (if 1 <? diffHours then "s" else "") +:+ " ago"
          else if diffDays <? 30
               then Z_toString diffDays +:+ " day"
                    +:+ (if 1 <? diffDays then "s" else "") +:+ " ago"
          else toLocaleDateString date
      end).

(** [showTaskModal(task)] for a task to edit: the form is reset, then five
    of its controls and [form.dataset.taskId] are set from the task, each
    setter converting what it is given to a string, and the dialog is
    opened.  When a conversion throws, the form is left reset and filled as
    far as it got, and the dialog is not opened. *)
Definition showTaskModal (task : JSValue) : UI unit :=
  title <- outcome (prop "title" task) ;;
  outcome (ToString title) ;;;
  description <- outcome (prop "description" task) ;;
  outcome (if truthy description then ToString description else Ret "") ;;;
  category <- outcome (prop "category" task) ;;
  outcome (ToString category) ;;;
  priority <- outcome (prop "priority" task) ;;
  outcome (ToString priority) ;;;
  dueDate <- outcome (prop "dueDate" task) ;;
  outcome (ToString dueDate) ;;;
  id <- outcome (prop "id" task) ;;
  outcome (ToString id) ;;;
  call (Page.showTaskModal task).

(** The selector by which [removeTaskCard] looks the card up:
    [[data-task-id="..."]] around the identifier as it is. *)
Definition card_selector (taskId : string) : string :=
  "[data-task-id=" +:+ String "034"%char (taskId +:+ String "034"%char "]").

(** [removeTaskCard(taskId)]: [querySelector] throws on a selector that it
    cannot parse; otherwise the card, if there is one, is removed. *)
Definition removeTaskCard (taskId : string) : UI unit :=
  if valid_selector (card_selector taskId)
  then call (Page.removeTaskCard taskId)
  else outcome (Throw SyntaxError).

End Methods.
End UIManager.

(** ** js/app.js: the handlers *)

Module App.
Import Page.
Section Handlers.
Context `{JH : JSONHost} `{SH : StringHost} `{DH : DateHost} `{TH : TextHost}.
Local Open Scope ui_scope.

(** [loadData()] *)
Definition loadData : UI unit :=
  tasks <- run StorageManager.getTasks ;;
  st <- get_state ;;
  set_state {| currentTasks := tasks;
               currentCategories := currentCategories st;
               settings := settings st;
               editingTaskId := editingTaskId st |} ;;;
  categories <- run StorageManager.getCategories ;;
  st <- get_state ;;
  set_state {| currentTasks := currentTasks st;
               currentCategories := categories;
               settings := settings st;
               editingTaskId := editingTaskId st |} ;;;
  settings <- run StorageManager.getSettings ;;
  st <- get_state ;;
  set_state {| currentTasks := currentTasks st;
               currentCategories := currentCategories st;
               settings := settings;
               editingTaskId := editingTaskId st |}.

(** [[...v]]: the elements of an array, the code points of a string, and a
    [TypeError] for what cannot be iterated. *)
Definition spread (v : JSValue) : Outcome (list JSValue) :=
  match v with
  | JArr xs => Ret xs
  | JStr s => Ret (JStr <$> chars s)
  | _ => Throw TypeError
  end.

(** [task => task.title.toLowerCase().includes(searchTerm) ||
    (task.description && task.description.toLowerCase().includes(searchTerm))] *)
Definition matches_search (searchTerm : string) (task : JSValue) : Outcome bool :=
  obind (prop "title" task) (fun title =>
  obind (StorageManager.lowered title) (fun t =>
  if includes t searchTerm then Ret true
  else
    obind (prop "description" task) (fun description =>
    if truthy description
    then obind (StorageManager.lowered description)
               (fun d => Ret (includes d searchTerm))
    else Ret false))).

(** [task => task.category === categoryFilter] *)
Definition in_category (categoryFilter : string) (task : JSValue) : Outcome bool :=
  obind (prop "category" task)
        (fun c => Ret (strict_eq c (Some (JStr categoryFilter)))).

(** [task => !task.completed] *)
Definition is_pending (task : JSValue) : Outcome bool :=
  obind (prop "completed" task) (fun c => Ret (negb (truthy c))).

(** [applyFiltersAndSort()] *)
Definition applyFiltersAndSort (page : Controls) : UI unit :=
  st <- get_state ;;
  filteredTasks <- outcome (spread (currentTasks st)) ;;
  let searchTerm := trim (toLowerCase (searchInput page)) in
  filteredTasks <-
    (if negb (String.eqb searchTerm "")
     then outcome (filter_list (matches_search searchTerm) filteredTasks)
     else ui_ret filteredTasks) ;;
  filteredTasks <-
    (if negb (String.eqb (categoryFilter page) "all")
     then outcome (filter_list (in_category (categoryFilter page)) filteredTasks)
     else ui_ret filteredTasks) ;;
  filteredTasks <-
    (if String.eqb (statusFilter page) "pending"
     then outcome (filter_list is_pending filteredTasks)
     else if String.eqb (statusFilter page) "completed"
     then outcome (filter_list UIManager.is_completed filteredTasks)
     else ui_ret filteredTasks) ;;
  filteredTasks <-
    outcome (AppController.sortTasks filteredTasks (sortSelect page)) ;;
  UIManager.renderTasks filteredTasks.

(** The object [handleTaskSubmit] builds from the form. *)
Definition taskData (page : Controls) : JSObject :=
  [ ("title", JStr (trim (taskTitle page)));
    ("description", JStr (trim (taskDescription page)));
    ("category", JStr (taskCategory page));
    ("priority", JStr (taskPriority page));
    ("dueDate", JStr (taskDueDate page)) ].

(** [handleTaskSubmit()]; [now], [suffix] and [stamp] are the readings that
    [addTask] takes. *)
Definition handleTaskSubmit (now : Z) (suffix : string) (stamp : Z)
    (page : Controls) : UI unit :=
  let taskId := taskForm_dataset_taskId page in
  let taskData := taskData page in
  if negb (truthy (obj_get "title" taskData))
     || negb (truthy (obj_get "category" taskData))
     || negb (truthy (obj_get "dueDate" taskData))
  then call (showNotification "Please fill in all required fields" "error")
  else
    success <-
      (if text_truthy taskId
       then
         success <- run (StorageManager.updateTask (default "" taskId) taskData) ;;
         (if (success : bool)
          then call (showNotification "Task updated successfully" "success")
          else ui_ret tt) ;;;
         ui_ret success
       else
         success <- run (StorageManager.addTask now suffix stamp taskData) ;;
         (if (success : bool)
          then call (showNotification "Task added successfully" "success")
          else ui_ret tt) ;;;
         ui_ret success) ;;
    if (success : bool)
    then
      loadData ;;;
      applyFiltersAndSort page ;;;
      st <- get_state ;;
      UIManager.updateStats (currentTasks st) ;;;
      call hideTaskModal
    else call (showNotification "Error saving task" "error").

(** [handleCategorySubmit()]; [now] is the reading [addCategory] takes. *)
Definition handleCategorySubmit (now : Z) (page : Controls) : UI unit :=
  let categoryData :=
    [ ("name", JStr (trim (categoryName page)));
      ("color", JStr (categoryColor page)) ] in
  if negb (truthy (obj_get "name" categoryData))
  then call (showNotification "Please enter a category name" "error")
  else
    success <- run (StorageManager.addCategory now categoryData) ;;
    if (success : bool)
    then
      call (showNotification "Category added successfully" "success") ;;;
      categories <- run StorageManager.getCategories ;;
      st <- get_state ;;
      set_state {| currentTasks := currentTasks st;
                   currentCategories := categories;
                   settings := settings st;
                   editingTaskId := editingTaskId st |} ;;;
      current <- run (deref categories) ;;
      UIManager.populateCategories current ;;;
      call hideCategoryModal
    else
      call (showNotification "Category already exists or error occurred" "error").

(** [editTask(taskId)] *)
Definition editTask (taskId : string) : UI unit :=
  task <- run (StorageManager.getTaskById taskId) ;;
  if truthy (Some task) then UIManager.showTaskModal task else ui_ret tt.

Definition quoted (s : string) : string :=
  String "034"%char (s +:+ String "034"%char "").

(** [deleteTask(taskId)]: the request, up to the confirmation dialog. *)
Definition deleteTask (taskId : string) : UI unit :=
  task <- run (StorageManager.getTaskById taskId) ;;
  if negb (truthy (Some task)) then ui_ret tt
  else
    title <- outcome (prop "title" task) ;;
    title <- outcome (ToString title) ;;
    call (showConfirmModal
            "Delete Task"
            ("Are you sure you want to delete " +:+ quoted title +:+ "?")
            (ConfirmDeleteTask taskId)).

(** [toggleComplete(taskId)]; [stamp] is the reading
    [toggleTaskComplete] takes. *)
Definition toggleComplete (stamp : Z) (page : Controls) (taskId : string)
  : UI unit :=
  success <- run (StorageManager.toggleTaskComplete stamp taskId) ;;
  if (success : bool)
  then
    loadData ;;;
    applyFiltersAndSort page ;;;
    st <- get_state ;;
    UIManager.updateStats (currentTasks st)
  else ui_ret tt.

(** [clearCompletedTasks()]: the request, up to the confirmation dialog. *)
Definition clearCompletedTasks : UI unit :=
  st <- get_state ;;
  done <- outcome (Array_filter UIManager.is_completed (currentTasks st)) ;;
  let completedCount := Z.of_nat (Array_length done) in
  if completedCount =? 0
  then call (showNotification "No completed tasks to clear" "info")
  else
    call (showConfirmModal
            "Clear Completed Tasks"
            ("Are you sure you want to delete " +:+ Z_toString completedCount
             +:+ " completed task" +:+ (if 1 <? completedCount then "s" else "")
             +:+ "?")
            ConfirmClearCompleted).

(** [v.length === 0]: the number of elements of an array, the length of a
    string, the property of that name of an object. *)
Definition length_is_zero (v : JSValue) : Outcome bool :=
  match v with
  | JNull => Throw TypeError
  | JArr xs => Ret (Nat.eqb (length xs) 0)
  | JStr s => Ret (String.eqb s "")
  | JObj o => Ret (strict_eq (obj_get "length" o) (Some (JNum 0)))
  | _ => Ret false
  end.

(** The function handed to [showConfirmModal], as the confirm button runs
    it: the callback, then [hideConfirmModal]. *)
Definition confirmAction (page : Controls) (onConfirm : Callback) : UI unit :=
  match onConfirm with
  | ConfirmDeleteTask taskId =>
      success <- run (StorageManager.deleteTask taskId) ;;
      if (success : bool)
      then
        call (showNotification "Task deleted successfully" "success") ;;;
        UIManager.removeTaskCard taskId ;;;
        loadData ;;;
        st <- get_state ;;
        UIManager.updateStats (currentTasks st) ;;;
        st <- get_state ;;
        empty <- outcome (length_is_zero (currentTasks st)) ;;
        if (empty : bool) then UIManager.renderTasks [] else ui_ret tt
      else call (showNotification "Error deleting task" "error")
  | ConfirmClearCompleted =>
      success <- run StorageManager.clearCompletedTasks ;;
      if (success : bool)
      then
        call (showNotification "Completed tasks cleared" "success") ;;;
        loadData ;;;
        applyFiltersAndSort page ;;;
        st <- get_state ;;
        UIManager.updateStats (currentTasks st)
      else call (showNotification "Error clearing tasks" "error")
  end ;;;
  call hideConfirmModal.

(** [a || b] on a property value, as the setter of a control's [value]
    converts it. *)
Definition or_else (v : option JSValue) (d : string) : Outcome string :=
  if truthy v then ToString v else Ret d.

(** [initializeUI()].  The three controls receive the saved filters; what
    they then hold is the DOM's business. *)
Definition initializeUI (page : Controls) : UI unit :=
  st <- get_state ;;
  categories <- run (deref (currentCategories st)) ;;
  UIManager.populateCategories categories ;;;
  applyFiltersAndSort page ;;;
  st <- get_state ;;
  UIManager.updateStats (currentTasks st) ;;;
  st <- get_state ;;
  current <- run (deref (settings st)) ;;
  filterCategory <- outcome (prop "filterCategory" current) ;;
  value <- outcome (or_else filterCategory "all") ;;
  call (setValue "categoryFilter" value) ;;;
  filterStatus <- outcome (prop "filterStatus" current) ;;
  value <- outcome (or_else filterStatus "all") ;;
  call (setValue "statusFilter" value) ;;;
  sortBy <- outcome (prop "sortBy" current) ;;
  value <- outcome (or_else sortBy "date") ;;
  call (setValue "sortSelect" value).

(** [this.state.settings = v], for the object behind the reference. *)
Definition store_settings (r : Ref) (v : JSValue) : UI unit :=
  match r with
  | Fresh _ =>
      st <- get_state ;;
      set_state {| currentTasks := currentTasks st;
                   currentCategories := currentCategories st;
                   settings := Fresh v;
                   editingTaskId := editingTaskId st |}
  | _ => run (mutate r v)
  end.

(** [toggleTheme()].  The state's settings object is read again after
    [updateSetting], which modifies it when it is the shared default. *)
Definition toggleTheme : UI unit :=
  st <- get_state ;;
  current <- run (deref (settings st)) ;;
  currentTheme <- outcome (prop "theme" current) ;;
  let newTheme :=
    if strict_eq currentTheme (Some (JStr "light")) then "dark" else "light" in
  run (StorageManager.updateSetting "theme" (JStr newTheme)) ;;;
  current <- run (deref (settings st)) ;;
  current <- outcome (assign "theme" (JStr newTheme) current) ;;
  store_settings (settings st) current ;;;
  call (applyTheme (Some (JStr newTheme))) ;;;
  call (showNotification
          ((if String.eqb newTheme "dark" then "Dark" else "Light")
           +:+ " theme activated")
          "success").

(** [s.split(c)[0]]: the text before the first [c]. *)
Fixpoint before (c : ascii) (s : string) : string :=
  match s with
  | EmptyString => EmptyString
  | String a s' => if Ascii.eqb a c then EmptyString else String a (before c s')
  end.

(** [exportData()]; [stamp] is the reading [StorageManager.exportData]
    takes and [today] the one that names the file. *)
Definition exportData (stamp today : Z) : UI unit :=
  jsonData <- run (StorageManager.exportData stamp) ;;
  if negb (text_truthy jsonData)
  then call (showNotification "Error exporting data" "error")
  else
    call (download ("taskflow-backup-" +:+ before "T" (toISOString today)
                    +:+ ".json")
                   (default "" jsonData)) ;;;
    call (showNotification "Data exported successfully" "success").

(** [importData(file)], from the moment the file has been read: [result]
    is its text. *)
Definition importData (page : Controls) (result : string) : UI unit :=
  success <- run (StorageManager.importData result) ;;
  if (success : bool)
  then
    call (showNotification "Data imported successfully" "success") ;;;
    loadData ;;;
    initializeUI page
  else ui_ret tt.

(** The listeners that [setupEventListeners] installs and the handlers the
    task cards name, as far as they reach [AppController] or
    [StorageManager]; those that only open or close a dialog are left out.
    An event comes with the readings of the clock and of the random source
    that its handler takes. *)
Inductive Event :=
| TaskFormSubmit (now : Z) (suffix : string) (stamp : Z)
| CategoryFormSubmit (now : Z)
| ClearCompletedClick
| ThemeToggleClick
| SearchInput
| CategoryFilterChange
| StatusFilterChange
| SortSelectChange
| ExportClick (stamp today : Z)
| ImportFileRead (result : string)
| ToggleCompleteChange (stamp : Z) (taskId : string)
| EditClick (taskId : string)
| DeleteClick (taskId : string)
| ConfirmClick (onConfirm : Callback).

(** What runs on an event; [page] holds the values of the controls at that
    moment. *)
Definition dispatch (page : Controls) (e : Event) : UI unit :=
  match e with
  | TaskFormSubmit now suffix stamp => handleTaskSubmit now suffix stamp page
  | CategoryFormSubmit now => handleCategorySubmit now page
  | ClearCompletedClick => clearCompletedTasks
  | ThemeToggleClick => toggleTheme
  | SearchInput => applyFiltersAndSort page
  | CategoryFilterChange =>
      run (StorageManager.updateSetting "filterCategory"
             (JStr (categoryFilter page))) ;;;
      applyFiltersAndSort page
  | StatusFilterChange =>
      run (StorageManager.updateSetting "filterStatus"
             (JStr (statusFilter page))) ;;;
      applyFiltersAndSort page
  | SortSelectChange =>
      run (StorageManager.updateSetting "sortBy" (JStr (sortSelect page))) ;;;
      applyFiltersAndSort page
  | ExportClick stamp today => exportData stamp today
  | ImportFileRead result => importData page result
  | ToggleCompleteChange stamp taskId => toggleComplete stamp page taskId
  | EditClick taskId => editTask taskId
  | DeleteClick taskId => deleteTask taskId
  | ConfirmClick onConfirm => confirmAction page onConfirm
  end.

(** [init()], once the page is loaded.  [setupEventListeners] installs the
    listeners above; the animation library is not part of the page
    modelled. *)
Definition init (page : Controls) : UI unit :=
  loadData ;;;
  initializeUI page ;;;
  st <- get_state ;;
  current <- run (deref (settings st)) ;;
  theme <- outcome (prop "theme" current) ;;
  call (applyTheme theme) ;;;
  call initParticles.

End Handlers.
End App.

(** ** Stable insertion sort with a pure comparison

    What [Array_sort] computes when the comparison never throws. *)

Section InsertionSort.
Context {A : Type}.
Variable c : A -> A -> Z.

Fixpoint insert_by (x : A) (l : list A) : list A :=
  match l with
  | [] => [x]
  | y :: l' => if 0 <? c x y then y :: insert_by x l' else x :: y :: l'
  end.

Fixpoint sort_by (l : list A) : list A :=
  match l with
  | [] => []
  | x :: l' => insert_by x (sort_by l')
  end.

Lemma insert_by_perm x l : Permutation (x :: l) (insert_by x l).
Proof.
  induction l as [| y l IH]; simpl; [reflexivity |].
  destruct (0 <? c x y); [| reflexivity].
  rewrite perm_swap. now apply perm_skip.
Qed.

Lemma sort_by_perm l : Permutation l (sort_by l).
Proof.
  induction l as [| x l IH]; simpl; [constructor |].
  rewrite <- insert_by_perm. now apply perm_skip.
Qed.

(** The comparison is consistent on the elements that satisfy [P]. *)
Variable P : A -> Prop.
Hypothesis c_antisym : forall a b, P a -> P b -> Z.sgn (c b a) = - Z.sgn (c a b).
Hypothesis c_trans : forall a b d,
    P a -> P b -> P d -> c a b <= 0 -> c b d <= 0 -> c a d <= 0.

Lemma insert_by_Forall (Q : A -> Prop) x l :
  Q x -> Forall Q l -> Forall Q (insert_by x l).
Proof.
  intros Hx Hl. eapply Permutation_Forall; [apply insert_by_perm |].
  now constructor.
Qed.

Lemma sort_by_Forall (Q : A -> Prop) l : Forall Q l -> Forall Q (sort_by l).
Proof. apply Permutation_Forall, sort_by_perm. Qed.

Lemma insert_by_sorted x l :
  P x -> Forall P l ->
  StronglySorted (fun a b => c a b <= 0) l ->
  StronglySorted (fun a b => c a b <= 0) (insert_by x l).
Proof.
  intros Hx Hl Hs. induction Hs as [| y l Hs IH Hy]; simpl.
  - repeat constructor.
  - apply Forall_cons in Hl as [HPy HPl].
    destruct (0 <? c x y) eqn:E.
    + apply Z.ltb_lt in E. constructor; [now apply IH |].
      apply insert_by_Forall; [| exact Hy].
      pose proof (c_antisym x y Hx HPy). lia.
    + apply Z.ltb_ge in E. constructor; [now constructor |].
      constructor; [exact E |].
      rewrite Forall_forall in Hy, HPl. apply Forall_forall. intros z Hz.
      apply (c_trans x y z); auto.
Qed.

Lemma sort_by_sorted l :
  Forall P l -> StronglySorted (fun a b => c a b <= 0) (sort_by l).
Proof.
  induction 1 as [| x l Hx Hl IH]; simpl; [constructor |].
  apply insert_by_sorted; auto. now apply sort_by_Forall.
Qed.

(** Stability: the elements that tie with [t] keep their order. *)
Lemma insert_by_stable t x l :
  P t -> P x -> Forall P l ->
  List.filter (fun y => c t y =? 0) (insert_by x l)
  = List.filter (fun y => c t y =? 0) (x :: l).
Proof.
  intros Ht Hx Hl. induction Hl as [| y l Hy Hl IH]; [reflexivity |].
  cbn [insert_by]. destruct (0 <? c x y) eqn:E; [| reflexivity].
  apply Z.ltb_lt in E. cbn [List.filter]. rewrite IH. cbn [List.filter].
  destruct (c t y =? 0) eqn:Ey; [| reflexivity].
  destruct (c t x =? 0) eqn:Ex; [| reflexivity].
  apply Z.eqb_eq in Ey, Ex.
  pose proof (c_antisym t x Ht Hx).
  assert (c x y <= 0) by (apply (c_trans x t y); auto; lia).
  lia.
Qed.

Lemma sort_by_stable t l :
  P t -> Forall P l ->
  List.filter (fun y => c t y =? 0) (sort_by l)
  = List.filter (fun y => c t y =? 0) l.
Proof.
  intros Ht Hl. induction Hl as [| x l Hx Hl IH]; [reflexivity |].
  cbn [sort_by]. rewrite insert_by_stable; auto using sort_by_Forall.
  cbn [List.filter]. rewrite IH. reflexivity.
Qed.
Lemma c_refl x : P x -> c x x = 0.
Proof. intros Hx. pose proof (c_antisym x x Hx Hx). lia. Qed.

(** Two sorted arrangements of the same elements that both keep ties in
    the same order are the same list: the result of a stable sort does not
    depend on the algorithm. *)
Lemma sorted_stable_unique l1 : forall l2,
    Forall P l1 -> Permutation l1 l2 ->
    StronglySorted (fun a b => c a b <= 0) l1 ->
    StronglySorted (fun a b => c a b <= 0) l2 ->
    (forall t, P t -> List.filter (fun y => c t y =? 0) l1
                      = List.filter (fun y => c t y =? 0) l2) ->
    l1 = l2.
Proof.
  induction l1 as [| x r1 IH]; intros l2 HP Hperm Hs1 Hs2 Hties.
  - now apply Permutation_nil in Hperm.
  - destruct l2 as [| y r2];
      [apply Permutation_sym, Permutation_nil in Hperm; discriminate |].
    apply Forall_cons in HP as [Hx HP1].
    assert (P y) as Hy.
    { assert (Forall P (y :: r2)) as HP2
          by (eapply Permutation_Forall; [exact Hperm | now constructor]).
      now apply Forall_cons in HP2. }
    apply StronglySorted_inv in Hs1 as [Hs1 Hx1].
    apply StronglySorted_inv in Hs2 as [Hs2 Hy2].
    assert (c x y <= 0) as Hxy.
    { assert (In y (x :: r1)) as [<- | Hin]
          by (eapply Permutation_in; [symmetry; exact Hperm | now left]).
      - rewrite c_refl by exact Hx. lia.
      - rewrite List.Forall_forall in Hx1. now apply Hx1. }
    assert (c y x <= 0) as Hyx.
    { assert (In x (y :: r2)) as [<- | Hin]
          by (eapply Permutation_in; [exact Hperm | now left]).
      - rewrite c_refl by exact Hy. lia.
      - rewrite List.Forall_forall in Hy2. now apply Hy2. }
    assert (c x y = 0) as Exy by (pose proof (c_antisym x y Hx Hy); lia).
    assert (x = y) as <-.
    { pose proof (Hties x Hx) as Hf. cbn [List.filter] in Hf.
      rewrite c_refl, Exy in Hf by exact Hx. simpl in Hf. congruence. }
    f_equal. apply IH; auto.
    + eapply Permutation_cons_inv, Hperm.
    + intros t Ht. pose proof (Hties t Ht) as Hf. cbn [List.filter] in Hf.
      destruct (c t x =? 0); congruence.
Qed.

Lemma sort_by_unique l out :
  Forall P l -> Permutation l out ->
  StronglySorted (fun a b => c a b <= 0) out ->
  (forall t, P t -> List.filter (fun y => c t y =? 0) out
                    = List.filter (fun y => c t y =? 0) l) ->
  out = sort_by l.
Proof.
  intros HP Hperm Hsorted Hties. symmetry.
  apply sorted_stable_unique; auto using sort_by_Forall, sort_by_sorted.
  - rewrite <- Hperm. symmetry. apply sort_by_perm.
  - intros t Ht. rewrite Hties by exact Ht. now apply sort_by_stable.
Qed.
End InsertionSort.

(** ** Facts about property lists and well-formed values *)

Lemma obj_get_set_eq k v (o : JSObject) : obj_get k (obj_set k v o) = Some v.
Proof.
  induction o as [| [k' v'] o IH]; simpl.
  - now rewrite String.eqb_refl.
  - destruct (String.eqb_spec k k') as [-> | Hne]; simpl.
    + now rewrite String.eqb_refl.
    + destruct (String.eqb_spec k k'); [congruence | exact IH].
Qed.

Lemma obj_get_set_ne k k' v (o : JSObject) :
  k <> k' -> obj_get k' (obj_set k v o) = obj_get k' o.
Proof.
  intros Hne. induction o as [| [k0 v0] o IH]; simpl.
  - destruct (String.eqb_spec k' k); [congruence | reflexivity].
  - destruct (String.eqb_spec k k0) as [-> | Hk]; simpl.
    + destruct (String.eqb_spec k' k0); [congruence | reflexivity].
    + destruct (String.eqb_spec k' k0); [reflexivity | exact IH].
Qed.

Lemma obj_get_None k (o : JSObject) : obj_get k o = None <-> k ∉ map fst o.
Proof.
  induction o as [| [k' v'] o IH]; simpl.
  - split; [intros _; apply not_elem_of_nil | reflexivity].
  - rewrite not_elem_of_cons, <- IH.
    destruct (String.eqb_spec k k'); split; try tauto; try congruence.
Qed.

Lemma keys_obj_set k v (o : JSObject) x :
  x ∈ map fst (obj_set k v o) <-> x = k \/ x ∈ map fst o.
Proof.
  induction o as [| [k' v'] o IH]; simpl.
  - rewrite list_elem_of_singleton. split; [auto |].
    intros [-> | Hx]; [reflexivity | now apply elem_of_nil in Hx].
  - destruct (String.eqb_spec k k') as [-> | Hne]; simpl;
      rewrite !elem_of_cons; [tauto |]. rewrite IH. tauto.
Qed.

Lemma obj_set_fresh k v (o : JSObject) :
  k ∉ map fst o -> obj_set k v o = o ++ [(k, v)].
Proof.
  induction o as [| [k' v'] o IH]; simpl; [reflexivity |].
  intros Hk. apply not_elem_of_cons in Hk as [Hne Hk].
  destruct (String.eqb_spec k k'); [congruence |]. now rewrite IH.
Qed.

Lemma wf_arr_spec xs :
  wf_value (JArr xs) = true <-> Forall (fun x => wf_value x = true) xs.
Proof.
  simpl. rewrite forallb_forall, Forall_forall.
  split; intros Hx x Hin; apply Hx; now apply list_elem_of_In.
Qed.

Lemma wf_obj_spec (o : JSObject) :
  wf_obj o = true
  <-> NoDup (map fst o) /\ Forall (fun p => wf_value (snd p) = true) o.
Proof.
  unfold wf_obj. simpl. rewrite andb_true_iff, bool_decide_eq_true.
  rewrite forallb_forall, Forall_forall.
  split; intros [Hnd Hx]; (split; [exact Hnd |]);
    intros x Hin; apply Hx; now apply list_elem_of_In.
Qed.

Lemma wf_obj_set k v (o : JSObject) :
  wf_obj o = true -> wf_value v = true -> wf_obj (obj_set k v o) = true.
Proof.
  rewrite !wf_obj_spec. intros [Hnd Hall] Hv.
  induction o as [| [k' v'] o IH]; simpl.
  - split; [apply NoDup_singleton | repeat constructor; exact Hv].
  - simpl in Hnd. apply NoDup_cons in Hnd as [Hk' Hnd].
    apply Forall_cons in Hall as [Hv' Hall].
    destruct (String.eqb_spec k k') as [-> | Hne]; simpl.
    + split; [now apply NoDup_cons | now constructor].
    + destruct (IH Hnd Hall) as [IH1 IH2]. split; [| now constructor].
      apply NoDup_cons. split; [| exact IH1].
      rewrite keys_obj_set. intros [-> | Hin]; [congruence | exact (Hk' Hin)].
Qed.

Lemma obj_get_insert_index_ne n k x (o : JSObject) k' :
  k' <> k -> obj_get k' (insert_index n k x o) = obj_get k' o.
Proof.
  intros Hne. induction o as [| [k0 v0] o IH]; simpl.
  - destruct (String.eqb_spec k' k); [congruence | reflexivity].
  - destruct (array_index k0) as [m |]; [destruct (m <? n)%N |]; simpl.
    + destruct (String.eqb k' k0); [reflexivity | exact IH].
    + destruct (String.eqb_spec k' k); [congruence | reflexivity].
    + destruct (String.eqb_spec k' k); [congruence | reflexivity].
Qed.

Lemma keys_insert_index n k x (o : JSObject) :
  Permutation (map fst (insert_index n k x o)) (k :: map fst o).
Proof.
  induction o as [| [k' v'] o IH]; simpl; [reflexivity |].
  destruct (array_index k') as [m |]; [destruct (m <? n)%N |]; simpl;
    try reflexivity.
  rewrite IH. apply perm_swap.
Qed.

Lemma obj_get_insert_index n k x (o : JSObject) :
  obj_get k o = None -> obj_get k (insert_index n k x o) = Some x.
Proof.
  induction o as [| [k' v'] o IH]; simpl; [now rewrite String.eqb_refl |].
  destruct (String.eqb_spec k k') as [-> | Hne]; [discriminate |]. intros Hk.
  destruct (array_index k') as [m |]; [destruct (m <? n)%N |]; simpl;
    rewrite ?String.eqb_refl; try reflexivity.
  destruct (String.eqb_spec k k'); [congruence | now apply IH].
Qed.

Lemma wf_insert_index n k x (o : JSObject) :
  wf_obj o = true -> wf_value x = true -> obj_get k o = None ->
  wf_obj (insert_index n k x o) = true.
Proof.
  rewrite !wf_obj_spec. intros [Hnd Hall] Hx Hk. split.
  - rewrite keys_insert_index. apply NoDup_cons. split; [| exact Hnd].
    now apply obj_get_None.
  - induction Hall as [| [k' v'] o Hv Hall IH]; simpl;
      [repeat constructor; exact Hx |].
    simpl in Hk, Hnd. apply NoDup_cons in Hnd as [_ Hnd].
    destruct (String.eqb k k'); [discriminate |].
    destruct (array_index k') as [m |]; [destruct (m <? n)%N |];
      repeat constructor; auto.
Qed.

(** Under a name that is no array index and not [__proto__], the assignment
    is the ordinary one. *)
Lemma obj_put_plain k x (o : JSObject) :
  k <> "__proto__" -> array_index k = None -> obj_put k x o = obj_set k x o.
Proof.
  intros Hp Hi. unfold obj_put. rewrite Hi.
  destruct (obj_get k o); [reflexivity |].
  destruct (String.eqb_spec k "__proto__"); [contradiction | reflexivity].
Qed.

Lemma obj_get_put_eq k x (o : JSObject) :
  k <> "__proto__" \/ obj_get k o <> None ->
  obj_get k (obj_put k x o) = Some x.
Proof.
  intros Hk. unfold obj_put. destruct (obj_get k o) eqn:E;
    [apply obj_get_set_eq |].
  destruct (String.eqb_spec k "__proto__") as [-> | _]; [tauto |].
  destruct (array_index k);
    [now apply obj_get_insert_index | apply obj_get_set_eq].
Qed.

Lemma obj_get_put_ne k x (o : JSObject) k' :
  k' <> k -> obj_get k' (obj_put k x o) = obj_get k' o.
Proof.
  intros Hne. unfold obj_put. destruct (obj_get k o);
    [apply obj_get_set_ne; congruence |].
  destruct (String.eqb k "__proto__"); [reflexivity |].
  destruct (array_index k);
    [now apply obj_get_insert_index_ne | apply obj_get_set_ne; congruence].
Qed.

(** Under [__proto__], unless the object has a property of that name, the
    assignment stores nothing. *)
Lemma obj_put_proto x (o : JSObject) :
  obj_get "__proto__" o = None -> obj_put "__proto__" x o = o.
Proof. intros Hk. unfold obj_put. now rewrite Hk. Qed.

Lemma wf_obj_put k x (o : JSObject) :
  wf_obj o = true -> wf_value x = true -> wf_obj (obj_put k x o) = true.
Proof.
  intros Ho Hx. unfold obj_put. destruct (obj_get k o) eqn:E;
    [now apply wf_obj_set |].
  destruct (String.eqb k "__proto__"); [exact Ho |].
  destruct (array_index k); [now apply wf_insert_index | now apply wf_obj_set].
Qed.

Example array_index_forms :
  array_index "0" = Some 0%N /\ array_index "42" = Some 42%N
  /\ array_index "4294967294" = Some 4294967294%N
  /\ array_index "4294967295" = None /\ array_index "007" = None
  /\ array_index "" = None /\ array_index "-1" = None
  /\ array_index "theme" = None.
Proof. repeat split; reflexivity. Qed.

Example obj_put_order :
  obj_put "5" JNull [("2", JNull); ("10", JNull); ("theme", JNull)]
  = [("2", JNull); ("5", JNull); ("10", JNull); ("theme", JNull)]
  /\ obj_put "density" JNull [("2", JNull); ("theme", JNull)]
     = [("2", JNull); ("theme", JNull); ("density", JNull)]
  /\ obj_put "theme" (JStr "dark") [("theme", JNull); ("sortBy", JNull)]
     = [("theme", JStr "dark"); ("sortBy", JNull)]
  /\ obj_put "__proto__" (JStr "x") [("theme", JNull)] = [("theme", JNull)].
Proof. repeat split; reflexivity. Qed.

Lemma wf_obj_assign (t s : JSObject) :
  wf_obj t = true -> Forall (fun p => wf_value (snd p) = true) s ->
  wf_obj (obj_assign t s) = true.
Proof.
  intros Ht Hs. revert t Ht. induction Hs as [| [k v] s Hv _ IH]; intros t Ht.
  - exact Ht.
  - apply IH. now apply wf_obj_set.
Qed.

Lemma obj_assign_fresh (t s : JSObject) :
  NoDup (map fst t ++ map fst s) -> obj_assign t s = t ++ s.
Proof.
  revert t. induction s as [| [k v] s IH]; intros t Hnd.
  - now rewrite app_nil_r.
  - unfold obj_assign. cbn [fold_left fst snd].
    rewrite obj_set_fresh.
    + fold (obj_assign (t ++ [(k, v)]) s). rewrite IH, <- app_assoc; [reflexivity |].
      rewrite map_app, <- app_assoc. exact Hnd.
    + apply NoDup_app in Hnd as (_ & Hnd & _). intros Hin.
      apply (Hnd k Hin). left.
Qed.

Lemma obj_spread_nil (o : JSObject) : wf_obj o = true -> obj_assign [] o = o.
Proof.
  intros Ho. apply wf_obj_spec in Ho as [Hnd _]. now apply obj_assign_fresh.
Qed.

Lemma obj_get_assign_None k (t s : JSObject) :
  obj_get k s = None -> obj_get k (obj_assign t s) = obj_get k t.
Proof.
  revert t. induction s as [| [k' v'] s IH]; intros t; simpl; [reflexivity |].
  destruct (String.eqb_spec k k') as [-> | Hne]; [discriminate |].
  intros Hs. unfold obj_assign. cbn [fold_left fst snd].
  fold (obj_assign (obj_set k' v' t) s). rewrite (IH _ Hs).
  apply obj_get_set_ne. congruence.
Qed.

Lemma obj_get_assign_Some k v (t s : JSObject) :
  NoDup (map fst s) -> obj_get k s = Some v ->
  obj_get k (obj_assign t s) = Some v.
Proof.
  revert t. induction s as [| [k' v'] s IH]; intros t Hnd; simpl; [discriminate |].
  simpl in Hnd. apply NoDup_cons in Hnd as [Hk' Hnd].
  unfold obj_assign. cbn [fold_left fst snd]. fold (obj_assign (obj_set k' v' t) s).
  destruct (String.eqb_spec k k') as [-> | Hne].
  - intros [= ->]. rewrite obj_get_assign_None by now apply obj_get_None.
    apply obj_get_set_eq.
  - intros Hs. now apply IH.
Qed.

(** ** A reference host

    An executable instance of the three interfaces: a JSON codec over the
    values above, byte-wise string comparison, ASCII lower-casing, ISO
    calendar dates.  It answers for the satisfiability of the facts the
    interfaces list and lets every statement be evaluated on concrete data.
    Number literals with a fraction or an exponent are outside the values
    modelled and are rejected by the lexer. *)

Module Reference.

(** *** Lexer *)

Inductive token :=
| TLBrace | TRBrace | TLBracket | TRBracket | TColon | TComma
| TString (s : string)
| TNumber (n : Z)
| TTrue | TFalse | TNull.

Inductive lstate :=
| LIdle
| LString (acc : list ascii)
| LEscape (acc : list ascii)
| LUnicode (acc : list ascii) (seen : nat) (code : N)
| LNumber (acc : list ascii)
| LLiteral (rest : list ascii) (t : token).

Definition quote : ascii := "034"%char.
Definition backslash : ascii := "092"%char.

Definition is_ws (c : ascii) : bool :=
  match N_of_ascii c with
  | 32%N | 9%N | 10%N | 13%N => true
  | _ => false
  end.

Definition is_numchar (c : ascii) : bool :=
  let n := N_of_ascii c in
  (n =? 45)%N || ((48 <=? n)%N && (n <=? 57)%N).

Definition hex_value (c : ascii) : option N :=
  let n := N_of_ascii c in
  if ((48 <=? n) && (n <=? 57))%N then Some (n - 48)%N
  else if ((97 <=? n) && (n <=? 102))%N then Some (n - 87)%N
  else if ((65 <=? n) && (n <=? 70))%N then Some (n - 55)%N
  else None.

(** The bytes (UTF-8) of a code unit given as [\uXXXX]. *)
Definition utf8 (code : N) : list ascii :=
  if (code <? 128)%N then [ascii_of_N code]
  else if (code <? 2048)%N then
    [ascii_of_N (192 + code / 64); ascii_of_N (128 + code mod 64)]
  else
    [ascii_of_N (224 + code / 4096);
     ascii_of_N (128 + (code / 64) mod 64);
     ascii_of_N (128 + code mod 64)].

(** An integer literal: an optional minus sign, then either [0] or digits
    that do not start with [0]. *)
Definition number_of_literal (lit : string) : option Z :=
  match NilEmpty.int_of_string lit with
  | Some (Decimal.Pos u) =>
      if Decimal.uint_beq (Decimal.unorm u) u
      then Some (Z.of_int (Decimal.Pos u)) else None
  | Some (Decimal.Neg u) =>
      if Decimal.uint_beq (Decimal.unorm u) u
      then Some (Z.of_int (Decimal.Neg u)) else None
  | None => None
  end.

Definition text (acc : list ascii) : string :=
  string_of_list_ascii (rev acc).

Definition step_idle (c : ascii) : option (list token * lstate) :=
  if is_ws c then Some ([], LIdle)
  else if is_numchar c then Some ([], LNumber [c])
  else if Ascii.eqb c quote then Some ([], LString [])
  else if Ascii.eqb c "{" then Some ([TLBrace], LIdle)
  else if Ascii.eqb c "}" then Some ([TRBrace], LIdle)
  else if Ascii.eqb c "[" then Some ([TLBracket], LIdle)
  else if Ascii.eqb c "]" then Some ([TRBracket], LIdle)
  else if Ascii.eqb c ":" then Some ([TColon], LIdle)
  else if Ascii.eqb c "," then Some ([TComma], LIdle)
  else if Ascii.eqb c "t" then Some ([], LLiteral ["r"; "u"; "e"]%char TTrue)
  else if Ascii.eqb c "f" then Some ([], LLiteral ["a"; "l"; "s"; "e"]%char TFalse)
  else if Ascii.eqb c "n" then Some ([], LLiteral ["u"; "l"; "l"]%char TNull)
  else None.

Definition step (st : lstate) (c : ascii) : option (list token * lstate) :=
  match st with
  | LIdle => step_idle c
  | LString acc =>
      if Ascii.eqb c quote then Some ([TString (text acc)], LIdle)
      else if Ascii.eqb c backslash then Some ([], LEscape acc)
      else if (N_of_ascii c <? 32)%N then None
      else Some ([], LString (c :: acc))
  | LEscape acc =>
      if Ascii.eqb c quote then Some ([], LString (quote :: acc))
      else if Ascii.eqb c backslash then Some ([], LString (backslash :: acc))
      else if Ascii.eqb c "/" then Some ([], LString ("/"%char :: acc))
      else if Ascii.eqb c "b" then Some ([], LString ("008"%char :: acc))
      else if Ascii.eqb c "f" then Some ([], LString ("012"%char :: acc))
      else if Ascii.eqb c "n" then Some ([], LString ("010"%char :: acc))
      else if Ascii.eqb c "r" then Some ([], LString ("013"%char :: acc))
      else if Ascii.eqb c "t" then Some ([], LString ("009"%char :: acc))
      else if Ascii.eqb c "u" then Some ([], LUnicode acc 0 0%N)
      else None
  | LUnicode acc seen code =>
      match hex_value c with
      | Some h =>
          let code := (code * 16 + h)%N in
          if Nat.eqb seen 3 then Some ([], LString (rev_append (utf8 code) acc))
          else Some ([], LUnicode acc (S seen) code)
      | None => None
      end
  | LNumber acc =>
      if is_numchar c then Some ([], LNumber (c :: acc))
      else
        match number_of_literal (text acc), step_idle c with
        | Some n, Some (out, st') => Some (TNumber n :: out, st')
        | _, _ => None
        end
  | LLiteral rest t =>
      match rest with
      | [] => None
      | r :: rest' =>
          if Ascii.eqb c r
          then match rest' with
               | [] => Some ([t], LIdle)
               | _ => Some ([], LLiteral rest' t)
               end
          else None
      end
  end.

Definition finish (st : lstate) : option (list token) :=
  match st with
  | LIdle => Some []
  | LNumber acc => n ← number_of_literal (text acc); Some [TNumber n]
  | _ => None
  end.

Fixpoint lex (st : lstate) (s : list ascii) : option (list token) :=
  match s with
  | [] => finish st
  | c :: s' =>
      match step st c with
      | Some (out, st') => (out ++.) <$> lex st' s'
      | None => None
      end
  end.

(** *** Parser: a pushdown automaton over the tokens *)

Inductive frame :=
| FArr (acc : list JSValue)
| FObj (acc : JSObject) (key : string).

Inductive pstate :=
| PValue (stack : list frame)
| PArrStart (stack : list frame)
| PArrNext (acc : list JSValue) (stack : list frame)
| PObjStart (stack : list frame)
| PKey (acc : JSObject) (stack : list frame)
| PColon (acc : JSObject) (key : string) (stack : list frame)
| PObjNext (acc : JSObject) (stack : list frame)
| PDone (v : JSValue).

(** A value is complete: hand it to the enclosing container.  A repeated
    property name keeps its first position and takes the last value. *)
Definition deliver (v : JSValue) (stack : list frame) : pstate :=
  match stack with
  | [] => PDone v
  | FArr acc :: stack' => PArrNext (v :: acc) stack'
  | FObj acc k :: stack' => PObjNext (obj_set k v acc) stack'
  end.

Definition pstep_value (stack : list frame) (t : token) : option pstate :=
  match t with
  | TNull => Some (deliver JNull stack)
  | TTrue => Some (deliver (JBool true) stack)
  | TFalse => Some (deliver (JBool false) stack)
  | TNumber n => Some (deliver (JNum n) stack)
  | TString s => Some (deliver (JStr s) stack)
  | TLBracket => Some (PArrStart stack)
  | TLBrace => Some (PObjStart stack)
  | _ => None
  end.

Definition pstep (st : pstate) (t : token) : option pstate :=
  match st, t with
  | PValue stack, _ => pstep_value stack t
  | PArrStart stack, TRBracket => Some (deliver (JArr []) stack)
  | PArrStart stack, _ => pstep_value (FArr [] :: stack) t
  | PArrNext acc stack, TComma => Some (PValue (FArr acc :: stack))
  | PArrNext acc stack, TRBracket => Some (deliver (JArr (rev acc)) stack)
  | PObjStart stack, TRBrace => Some (deliver (JObj []) stack)
  | PObjStart stack, TString k => Some (PColon [] k stack)
  | PKey acc stack, TString k => Some (PColon acc k stack)
  | PColon acc k stack, TColon => Some (PValue (FObj acc k :: stack))
  | PObjNext acc stack, TComma => Some (PKey acc stack)
  | PObjNext acc stack, TRBrace => Some (deliver (JObj acc) stack)
  | _, _ => None
  end.

Fixpoint prun (st : pstate) (ts : list token) : option JSValue :=
  match ts with
  | [] => match st with PDone v => Some v | _ => None end
  | t :: ts' => st' ← pstep st t; prun st' ts'
  end.

Definition parse (s : string) : option JSValue :=
  ts ← lex LIdle (list_ascii_of_string s); prun (PValue []) ts.

(** *** Printer: [JSON.stringify(v)] and [JSON.stringify(v, null, 2)] *)

Definition hex_digit (n : N) : ascii :=
  ascii_of_N (if (n <? 10)%N then 48 + n else 87 + n).

Definition escape_char (c : ascii) : list ascii :=
  if Ascii.eqb c quote then [backslash; quote]
  else if Ascii.eqb c backslash then [backslash; backslash]
  else if Ascii.eqb c "008" then [backslash; "b"%char]
  else if Ascii.eqb c "012" then [backslash; "f"%char]
  else if Ascii.eqb c "010" then [backslash; "n"%char]
  else if Ascii.eqb c "013" then [backslash; "r"%char]
  else if Ascii.eqb c "009" then [backslash; "t"%char]
  else if (N_of_ascii c <? 32)%N then
    [backslash; "u"%char; "0"%char; "0"%char;
     hex_digit (N_of_ascii c / 16); hex_digit (N_of_ascii c mod 16)]
  else [c].

Definition print_string (s : string) : list ascii :=
  quote :: flat_map escape_char (list_ascii_of_string s) ++ [quote].

(** The line break and indentation before an item at nesting [level]. *)
Definition newline (indent : bool) (level : nat) : list ascii :=
  if indent then "010"%char :: repeat " "%char (2 * level) else [].

Definition gap (indent : bool) : list ascii :=
  if indent then [" "%char] else [].

Fixpoint print (indent : bool) (level : nat) (v : JSValue) : list ascii :=
  match v with
  | JNull => list_ascii_of_string "null"
  | JBool true => list_ascii_of_string "true"
  | JBool false => list_ascii_of_string "false"
  | JNum n => list_ascii_of_string (Z_toString n)
  | JStr s => print_string s
  | JArr [] => ["["; "]"]%char
  | JArr (x :: xs) =>
      "["%char :: newline indent (S level) ++ print indent (S level) x
      ++ flat_map (fun y => ","%char :: newline indent (S level)
                                 ++ print indent (S level) y) xs
      ++ newline indent level ++ ["]"%char]
  | JObj [] => ["{"; "}"]%char
  | JObj (p :: ps) =>
      "{"%char :: newline indent (S level)
      ++ print_string (fst p) ++ ":"%char :: gap indent
      ++ print indent (S level) (snd p)
      ++ flat_map (fun q => ","%char :: newline indent (S level)
                                 ++ print_string (fst q) ++ ":"%char :: gap indent
                                 ++ print indent (S level) (snd q)) ps
      ++ newline indent level ++ ["}"%char]
  end.

Definition stringify (v : JSValue) : string :=
  string_of_list_ascii (print false 0 v).

Definition stringify_indent (v : JSValue) : string :=
  string_of_list_ascii (print true 0 v).

(** The tokens of a value, the meeting point of printer and parser. *)
Fixpoint tokens (v : JSValue) : list token :=
  match v with
  | JNull => [TNull]
  | JBool true => [TTrue]
  | JBool false => [TFalse]
  | JNum n => [TNumber n]
  | JStr s => [TString s]
  | JArr [] => [TLBracket; TRBracket]
  | JArr (x :: xs) =>
      TLBracket :: tokens x
      ++ flat_map (fun y => TComma :: tokens y) xs ++ [TRBracket]
  | JObj [] => [TLBrace; TRBrace]
  | JObj (p :: ps) =>
      TLBrace :: TString (fst p) :: TColon :: tokens (snd p)
      ++ flat_map (fun q => TComma :: TString (fst q) :: TColon :: tokens (snd q)) ps
      ++ [TRBrace]
  end.

(** *** The lexer reads what the printer writes *)

Fixpoint run (st : lstate) (s : list ascii) : option (list token * lstate) :=
  match s with
  | [] => Some ([], st)
  | c :: s' =>
      match step st c with
      | Some (o1, st1) =>
          match run st1 s' with
          | Some (o2, st2) => Some (o1 ++ o2, st2)
          | None => None
          end
      | None => None
      end
  end.

Lemma fmap_app_app {T} (a b : list T) (o : option (list T)) :
  (a ++.) <$> ((b ++.) <$> o) = ((a ++ b) ++.) <$> o.
Proof. destruct o; simpl; [rewrite app_assoc |]; reflexivity. Qed.

Lemma lex_run st s1 s2 out st' :
  run st s1 = Some (out, st') -> lex st (s1 ++ s2) = (out ++.) <$> lex st' s2.
Proof.
  revert st out. induction s1 as [| c s1 IH]; intros st out; simpl.
  - intros [= <- <-]. destruct (lex st s2); reflexivity.
  - destruct (step st c) as [[o1 st1] |]; [| discriminate].
    destruct (run st1 s1) as [[o2 st2] |] eqn:E; [| discriminate].
    intros [= <- <-]. rewrite (IH _ _ E). apply fmap_app_app.
Qed.

Lemma run_app st s1 s2 o1 st1 o2 st2 :
  run st s1 = Some (o1, st1) -> run st1 s2 = Some (o2, st2) ->
  run st (s1 ++ s2) = Some (o1 ++ o2, st2).
Proof.
  revert st o1. induction s1 as [| c s1 IH]; intros st o1; simpl.
  - intros [= <- <-] ->. reflexivity.
  - destruct (step st c) as [[oa sta] |]; [| discriminate].
    destruct (run sta s1) as [[ob stb] |] eqn:E; [| discriminate].
    intros [= <- <-] E2. rewrite (IH _ _ E E2), app_assoc. reflexivity.
Qed.

Lemma run_escape_char acc c :
  run (LString acc) (escape_char c) = Some ([], LString (c :: acc)).
Proof.
  destruct c as [[] [] [] [] [] [] [] []]; reflexivity.
Qed.

Lemma run_escaped acc l :
  run (LString acc) (flat_map escape_char l) = Some ([], LString (rev l ++ acc)).
Proof.
  revert acc. induction l as [| c l IH]; intros acc; [reflexivity |].
  simpl flat_map. rewrite (run_app _ _ _ _ _ _ _ (run_escape_char acc c) (IH _)).
  simpl. rewrite <- app_assoc. reflexivity.
Qed.

Lemma run_print_string s :
  run LIdle (print_string s) = Some ([TString s], LIdle).
Proof.
  change (print_string s)
    with ([quote] ++ (flat_map escape_char (list_ascii_of_string s) ++ [quote])).
  apply (run_app _ _ _ [] (LString []) [TString s] LIdle); [reflexivity |].
  apply (run_app _ _ _ [] _ [TString s] LIdle (run_escaped [] _)).
  cbn. unfold text. rewrite app_nil_r, rev_involutive.
  rewrite string_of_list_ascii_of_string. reflexivity.
Qed.

Lemma run_ws w :
  Forall (fun c => is_ws c = true) w -> run LIdle w = Some ([], LIdle).
Proof.
  induction 1 as [| c w Hc _ IH]; [reflexivity |].
  cbn [run step]. unfold step_idle. rewrite Hc, IH. reflexivity.
Qed.

Lemma run_newline indent level : run LIdle (newline indent level) = Some ([], LIdle).
Proof.
  apply run_ws. destruct indent; simpl; [| constructor].
  constructor; [reflexivity |]. apply Forall_forall. intros c Hc.
  apply list_elem_of_In, repeat_spec in Hc. subst c. reflexivity.
Qed.

Lemma run_gap indent : run LIdle (gap indent) = Some ([], LIdle).
Proof. destruct indent; reflexivity. Qed.

Lemma uint_beq_refl u : Decimal.uint_beq u u = true.
Proof. induction u; simpl; auto. Qed.

Lemma to_int_norm z : Decimal.norm (Z.to_int z) = Z.to_int z.
Proof. rewrite <- DecimalZ.to_of, DecimalZ.of_to. reflexivity. Qed.

Lemma number_of_literal_toString z : number_of_literal (Z_toString z) = Some z.
Proof.
  unfold number_of_literal, Z_toString.
  pose proof (to_int_norm z) as Hn. pose proof (DecimalZ.of_to z) as Hz.
  destruct (Z.to_int z) as [u | u]; simpl in Hn.
  - injection Hn as Hu.
    assert (u <> Decimal.Nil) by (rewrite <- Hu; apply DecimalFacts.unorm_nonnil).
    assert (NilZero.string_of_int (Decimal.Pos u)
            = NilEmpty.string_of_int (Decimal.Pos u)) as ->
        by (destruct u; try reflexivity; congruence).
    rewrite NilEmpty.isi, Hu, uint_beq_refl, Hz. reflexivity.
  - assert (Decimal.nzhead u = u /\ u <> Decimal.Nil) as [Hu Hnil]
        by (destruct (Decimal.nzhead u) eqn:E; split; congruence).
    assert (NilZero.string_of_int (Decimal.Neg u)
            = NilEmpty.string_of_int (Decimal.Neg u)) as ->
        by (destruct u; try reflexivity; congruence).
    rewrite NilEmpty.isi, DecimalFacts.unorm_nzhead by congruence.
    rewrite Hu, uint_beq_refl, Hz. reflexivity.
Qed.

Lemma numchar_uint u :
  Forall (fun c => is_numchar c = true)
         (list_ascii_of_string (NilEmpty.string_of_uint u)).
Proof. induction u; simpl; constructor; auto. Qed.

Lemma numchar_uint0 u :
  Forall (fun c => is_numchar c = true)
         (list_ascii_of_string (NilZero.string_of_uint u)).
Proof.
  destruct u; try apply (numchar_uint (_ u)).
  repeat constructor.
Qed.

Lemma numchar_toString z :
  exists c l, list_ascii_of_string (Z_toString z) = c :: l
              /\ Forall (fun c => is_numchar c = true) (c :: l).
Proof.
  unfold Z_toString. destruct (Z.to_int z) as [u | u].
  - pose proof (numchar_uint0 u) as Hf. cbn [NilZero.string_of_int].
    destruct (list_ascii_of_string (NilZero.string_of_uint u)) eqn:E; [| eauto].
    destruct u; discriminate.
  - pose proof (numchar_uint0 u) as Hf. do 2 eexists.
    split; [reflexivity |]. constructor; [reflexivity | exact Hf].
Qed.

Lemma numchar_not_ws c : is_numchar c = true -> is_ws c = false.
Proof. destruct c as [[] [] [] [] [] [] [] []]; intros; try discriminate; reflexivity. Qed.

Lemma run_numchars acc l :
  Forall (fun c => is_numchar c = true) l ->
  run (LNumber acc) l = Some ([], LNumber (rev l ++ acc)).
Proof.
  intros Hl. revert acc. induction Hl as [| c l Hc _ IH]; intros acc; [reflexivity |].
  cbn [run step]. rewrite Hc, IH. simpl. rewrite <- app_assoc. reflexivity.
Qed.

Lemma run_number z :
  run LIdle (list_ascii_of_string (Z_toString z))
  = Some ([], LNumber (rev (list_ascii_of_string (Z_toString z)))).
Proof.
  destruct (numchar_toString z) as (c & l & -> & Hf).
  apply Forall_cons in Hf as [Hc Hl].
  cbn [run step]. unfold step_idle. rewrite (numchar_not_ws c Hc), Hc.
  rewrite (run_numchars [c] l Hl). reflexivity.
Qed.

(** What may follow a value: the end of the text, or a character that does
    not continue a number. *)
Definition delimited (s : list ascii) : bool :=
  match s with
  | [] => true
  | d :: _ => negb (is_numchar d)
  end.

Lemma lex_number z tail :
  delimited tail = true ->
  lex LIdle (list_ascii_of_string (Z_toString z) ++ tail)
  = ([TNumber z] ++.) <$> lex LIdle tail.
Proof.
  intros Hd. rewrite (lex_run _ _ _ _ _ (run_number z)).
  destruct tail as [| d tail]; cbn [lex finish step]; unfold text;
    rewrite rev_involutive, string_of_list_ascii_of_string,
      number_of_literal_toString.
  - reflexivity.
  - simpl in Hd. apply negb_true_iff in Hd. rewrite Hd.
    destruct (step_idle d) as [[out st'] |]; [| reflexivity].
    simpl. destruct (lex st' tail); reflexivity.
Qed.

Lemma fmap_nil_app {T} (o : option (list T)) : ([] ++.) <$> o = o.
Proof. destruct o; reflexivity. Qed.

Lemma lex_skip w s : run LIdle w = Some ([], LIdle) -> lex LIdle (w ++ s) = lex LIdle s.
Proof. intros Hw. rewrite (lex_run _ _ _ _ _ Hw). apply fmap_nil_app. Qed.

Lemma delimited_newline indent level c s :
  is_numchar c = false -> delimited (newline indent level ++ c :: s) = true.
Proof. intros Hc. destruct indent; simpl; [reflexivity | now rewrite Hc]. Qed.

Section Items.
Context {T : Type}.
Variables (indent : bool) (level : nat).
Variables (pi : T -> list ascii) (ti : T -> list token).
Variables (close : ascii) (ctok : token).
Hypothesis close_numchar : is_numchar close = false.
Hypothesis close_step : step_idle close = Some ([ctok], LIdle).

Let more (x : T) : list ascii :=
  ","%char :: newline indent (S level) ++ pi x.

Lemma delimited_items xs s :
  delimited (flat_map more xs ++ newline indent level ++ close :: s) = true.
Proof.
  destruct xs; simpl; [| reflexivity].
  now apply delimited_newline.
Qed.

Lemma lex_items xs tail :
  Forall (fun x => forall s, delimited s = true ->
                     lex LIdle (pi x ++ s) = (ti x ++.) <$> lex LIdle s) xs ->
  lex LIdle (flat_map more xs ++ newline indent level ++ close :: tail)
  = ((flat_map (fun x => TComma :: ti x) xs ++ [ctok]) ++.) <$> lex LIdle tail.
Proof.
  induction 1 as [| x xs Hx _ IH].
  - simpl flat_map. rewrite !app_nil_l, (lex_skip _ _ (run_newline _ _)).
    cbn [lex step]. rewrite close_step. reflexivity.
  - cbn [flat_map]. unfold more at 1. rewrite <- !app_assoc, <- app_comm_cons.
    cbn [lex step]. change (step_idle ",") with (Some ([TComma], LIdle)).
    cbv iota. rewrite <- app_assoc, (lex_skip _ _ (run_newline _ _)).
    rewrite Hx by apply delimited_items. rewrite IH, !fmap_app_app.
    reflexivity.
Qed.
End Items.

Lemma delimited_colon s : delimited (":"%char :: s) = true.
Proof. reflexivity. Qed.

Lemma lex_print indent v :
  forall level tail,
    delimited tail = true ->
    lex LIdle (print indent level v ++ tail) = (tokens v ++.) <$> lex LIdle tail.
Proof.
  induction v as [| [] | n | s | xs IH | ps IH] using JSValue_nested_ind;
    intros level tail Hd.
  - apply (lex_run _ _ _ [TNull] LIdle). reflexivity.
  - apply (lex_run _ _ _ [TTrue] LIdle). reflexivity.
  - apply (lex_run _ _ _ [TFalse] LIdle). reflexivity.
  - now apply lex_number.
  - apply lex_run, run_print_string.
  - destruct xs as [| x xs]; [apply (lex_run _ _ _ [TLBracket; TRBracket] LIdle); reflexivity |].
    apply Forall_cons in IH as [Hx Hxs].
    cbn [print tokens]. rewrite <- app_comm_cons. cbn [lex step].
    change (step_idle "[") with (Some ([TLBracket], LIdle)). cbv iota.
    rewrite <- !app_assoc, (lex_skip _ _ (run_newline _ _)).
    change (["]"%char] ++ tail) with ("]"%char :: tail).
    rewrite Hx by (apply delimited_items; reflexivity).
    rewrite (lex_items indent level (print indent (S level)) tokens "]" TRBracket)
      by (first [reflexivity | eapply Forall_impl; [exact Hxs |]; simpl; auto]).
    rewrite !fmap_app_app. reflexivity.
  - destruct ps as [| p ps]; [apply (lex_run _ _ _ [TLBrace; TRBrace] LIdle); reflexivity |].
    apply Forall_cons in IH as [Hp Hps].
    cbn [print tokens]. rewrite <- app_comm_cons. cbn [lex step].
    change (step_idle "{") with (Some ([TLBrace], LIdle)). cbv iota.
    repeat (rewrite <- app_assoc; cbn [app]).
    rewrite (lex_skip _ _ (run_newline _ _)).
    assert (Hmember : forall q : string * JSValue,
               (forall level tail, delimited tail = true ->
                  lex LIdle (print indent level (snd q) ++ tail)
                  = (tokens (snd q) ++.) <$> lex LIdle tail) ->
               forall s, delimited s = true ->
                 lex LIdle (print_string (fst q) ++ ":"%char :: gap indent
                              ++ print indent (S level) (snd q) ++ s)
                 = ((TString (fst q) :: TColon :: tokens (snd q)) ++.)
                     <$> lex LIdle s).
    { intros q Hq s Hs.
      rewrite (lex_run _ _ _ _ _ (run_print_string (fst q))).
      cbn [lex step].
      change (step_idle ":") with (Some ([TColon], LIdle)). cbv iota.
      rewrite (lex_skip _ _ (run_gap _)), (Hq _ _ Hs).
      rewrite !fmap_app_app. reflexivity. }
    rewrite (Hmember p Hp)
      by (apply (delimited_items indent level _ "}"); reflexivity).
    rewrite (lex_items indent level
               (fun q => print_string (fst q) ++ ":"%char :: gap indent
                           ++ print indent (S level) (snd q))
               (fun q => TString (fst q) :: TColon :: tokens (snd q))
               "}" TRBrace)
      by (first [reflexivity
                | eapply Forall_impl; [exact Hps |];
                  intros q Hq s Hs;
                  rewrite <- app_assoc, <- app_comm_cons, <- app_assoc;
                  apply Hmember; assumption]).
    destruct (lex LIdle tail) as [r |]; [| reflexivity].
    simpl. repeat (rewrite <- app_assoc; cbn [app]). reflexivity.
Qed.

(** *** The parser reads the tokens of a well-formed value *)

Lemma tokens_head v :
  exists t ts, tokens v = t :: ts
               /\ forall stack, pstep (PArrStart stack) t
                                = pstep_value (FArr [] :: stack) t.
Proof.
  destruct v as [| [] | n | s | [| x xs] | [| p ps]]; simpl; eauto.
Qed.

Definition reads (v : JSValue) : Prop :=
  forall stack rest,
    prun (PValue stack) (tokens v ++ rest) = prun (deliver v stack) rest.

Lemma prun_items xs :
  Forall reads xs ->
  forall acc stack rest,
    prun (PArrNext acc stack)
         (flat_map (fun y => TComma :: tokens y) xs ++ TRBracket :: rest)
    = prun (deliver (JArr (rev acc ++ xs)) stack) rest.
Proof.
  induction 1 as [| x xs Hx _ IH]; intros acc stack rest.
  - simpl. rewrite app_nil_r. reflexivity.
  - cbn [flat_map]. rewrite <- app_assoc, <- app_comm_cons.
    cbn [prun pstep mbind option_bind]. rewrite (Hx _ _).
    cbn [deliver]. rewrite IH. simpl. rewrite <- app_assoc. reflexivity.
Qed.

Lemma prun_members ps :
  Forall (fun p => reads (snd p)) ps ->
  forall acc stack rest,
    NoDup (map fst acc ++ map fst ps) ->
    prun (PObjNext acc stack)
         (flat_map (fun q => TComma :: TString (fst q) :: TColon :: tokens (snd q)) ps
            ++ TRBrace :: rest)
    = prun (deliver (JObj (acc ++ ps)) stack) rest.
Proof.
  induction 1 as [| [k x] ps Hx _ IH]; intros acc stack rest Hnd.
  - simpl. rewrite app_nil_r. reflexivity.
  - cbn [flat_map]. rewrite <- app_assoc. cbn [app fst snd].
    cbn [prun pstep mbind option_bind]. rewrite (Hx _ _).
    cbn [deliver]. simpl in Hnd.
    rewrite obj_set_fresh.
    + rewrite IH.
      * rewrite <- app_assoc. reflexivity.
      * rewrite map_app, <- app_assoc. exact Hnd.
    + apply NoDup_app in Hnd as (_ & Hnd & _). intros Hin.
      apply (Hnd k Hin). left.
Qed.

Lemma prun_tokens v : wf_value v = true -> reads v.
Proof.
  induction v as [| [] | n | s | xs IH | ps IH] using JSValue_nested_ind;
    intros Hwf stack rest; try reflexivity.
  - assert (Forall reads xs) as Hxs.
    { simpl in Hwf. rewrite forallb_forall in Hwf.
      rewrite Forall_forall in IH. apply Forall_forall. intros x Hx.
      apply IH; [exact Hx |]. apply Hwf, list_elem_of_In, Hx. }
    destruct xs as [| x xs]; [reflexivity |].
    apply Forall_cons in Hxs as [Hx Hxs].
    cbn [tokens]. rewrite <- app_comm_cons. change (prun (PValue stack) (TLBracket :: ?l))
      with (prun (PArrStart stack) l).
    destruct (tokens_head x) as (t & ts & Et & Hstep).
    rewrite <- !app_assoc.
    assert (forall l, prun (PArrStart stack) (tokens x ++ l)
                      = prun (PValue (FArr [] :: stack)) (tokens x ++ l)) as ->.
    { intros l. rewrite Et. cbn [app prun]. rewrite Hstep. reflexivity. }
    rewrite (Hx _ _). cbn [deliver app].
    rewrite (prun_items xs Hxs). reflexivity.
  - simpl in Hwf. apply andb_true_iff in Hwf as [Hnd Hwf].
    apply bool_decide_eq_true in Hnd.
    assert (Forall (fun p => reads (snd p)) ps) as Hps.
    { rewrite forallb_forall in Hwf.
      rewrite Forall_forall in IH. apply Forall_forall. intros p Hp.
      apply IH; [exact Hp |]. apply Hwf, list_elem_of_In, Hp. }
    destruct ps as [| [k x] ps]; [reflexivity |].
    apply Forall_cons in Hps as [Hx Hps].
    cbn [tokens fst snd]. rewrite <- !app_comm_cons.
    cbn [prun pstep pstep_value mbind option_bind].
    rewrite <- !app_assoc, (Hx _ _). cbn [deliver obj_set app].
    rewrite (prun_members ps Hps [(k, x)]); [reflexivity | exact Hnd].
Qed.

Lemma parse_print indent v :
  wf_value v = true ->
  parse (string_of_list_ascii (print indent 0 v)) = Some v.
Proof.
  intros Hwf. unfold parse. rewrite list_ascii_of_string_of_list_ascii.
  rewrite <- (app_nil_r (print indent 0 v)), lex_print by reflexivity.
  simpl. rewrite <- (app_nil_r (tokens v ++ [])), app_nil_r.
  rewrite (prun_tokens v Hwf). reflexivity.
Qed.

(** *** What the parser returns is well formed *)

Definition wf_frame (f : frame) : bool :=
  match f with
  | FArr acc => wf_value (JArr acc)
  | FObj acc _ => wf_obj acc
  end.

Definition wf_pstate (st : pstate) : bool :=
  match st with
  | PValue stack | PArrStart stack | PObjStart stack => forallb wf_frame stack
  | PArrNext acc stack => wf_value (JArr acc) && forallb wf_frame stack
  | PKey acc stack | PColon acc _ stack | PObjNext acc stack =>
      wf_obj acc && forallb wf_frame stack
  | PDone v => wf_value v
  end.

Lemma wf_deliver v stack :
  wf_value v = true -> forallb wf_frame stack = true ->
  wf_pstate (deliver v stack) = true.
Proof.
  intros Hv Hs. destruct stack as [| [acc | acc k] stack]; simpl in *.
  - exact Hv.
  - apply andb_true_iff in Hs as [Ha Hs]. now rewrite Hv, Ha, Hs.
  - apply andb_true_iff in Hs as [Ha Hs]. rewrite Hs, andb_true_r.
    now apply wf_obj_set.
Qed.

Lemma wf_rev acc : wf_value (JArr acc) = true -> wf_value (JArr (rev acc)) = true.
Proof.
  rewrite !wf_arr_spec, !Forall_forall. intros Ha x Hx. apply Ha.
  apply list_elem_of_In. apply list_elem_of_In, in_rev in Hx. exact Hx.
Qed.

Lemma wf_pstep_value stack t st' :
  forallb wf_frame stack = true -> pstep_value stack t = Some st' ->
  wf_pstate st' = true.
Proof.
  intros Hs. destruct t; simpl; intros [= <-];
    first [exact Hs | now apply wf_deliver].
Qed.

Lemma wf_pstep st t st' :
  wf_pstate st = true -> pstep st t = Some st' -> wf_pstate st' = true.
Proof.
  destruct st as [stack | stack | acc stack | stack | acc stack | acc k stack
                 | acc stack | v]; simpl; intros Hwf.
  - now apply wf_pstep_value.
  - destruct t; try (apply wf_pstep_value; simpl; now rewrite ?Hwf).
    intros [= <-]. now apply wf_deliver.
  - apply andb_true_iff in Hwf as [Ha Hs].
    destruct t; intros [= <-]; [| simpl in *; now rewrite Ha, Hs].
    apply wf_deliver; [now apply wf_rev | exact Hs].
  - destruct t; intros [= <-]; [now apply wf_deliver | simpl; exact Hwf].
  - destruct t; intros [= <-]. exact Hwf.
  - destruct t; intros [= <-]. exact Hwf.
  - apply andb_true_iff in Hwf as [Ha Hs].
    destruct t; intros [= <-]; [apply wf_deliver; assumption |].
    simpl. now rewrite Ha, Hs.
  - destruct t; discriminate.
Qed.

Lemma wf_prun ts : forall st v,
    wf_pstate st = true -> prun st ts = Some v -> wf_value v = true.
Proof.
  induction ts as [| t ts IH]; intros st v Hwf; simpl.
  - destruct st; try discriminate. now intros [= <-].
  - destruct (pstep st t) as [st' |] eqn:E; [| discriminate].
    simpl. apply IH. eapply wf_pstep; eassumption.
Qed.

Lemma parse_wf s v : parse s = Some v -> wf_value v = true.
Proof.
  unfold parse. destruct (lex LIdle (list_ascii_of_string s)) as [ts |];
    [| discriminate].
  simpl. now apply wf_prun.
Qed.

(** *** Strings: ASCII lower-casing and byte-wise comparison *)

Definition lower_char (c : ascii) : ascii :=
  let n := N_of_ascii c in
  if ((65 <=? n) && (n <=? 90))%N then ascii_of_N (n + 32) else c.

Fixpoint lower (s : string) : string :=
  match s with
  | EmptyString => EmptyString
  | String c s' => String (lower_char c) (lower s')
  end.

Definition compare_bytes (a b : string) : Z :=
  match String.compare a b with
  | Lt => -1
  | Eq => 0
  | Gt => 1
  end.

Lemma compare_bytes_le a b : compare_bytes a b <= 0 <-> String.le a b.
Proof.
  unfold compare_bytes, String.le, String.leb.
  destruct (String.compare a b); simpl; split; intros; try lia; try easy.
Qed.

Lemma compare_bytes_antisym a b :
  Z.sgn (compare_bytes b a) = - Z.sgn (compare_bytes a b).
Proof.
  unfold compare_bytes. rewrite (String.compare_antisym a b).
  destruct (String.compare b a); reflexivity.
Qed.

Lemma compare_bytes_trans a b c :
  compare_bytes a b <= 0 -> compare_bytes b c <= 0 -> compare_bytes a c <= 0.
Proof.
  rewrite !compare_bytes_le. intros Hab Hbc.
  exact (transitivity (R := String.le) Hab Hbc).
Qed.

(** *** Dates: the proleptic Gregorian calendar, UTC *)

Definition days_from_civil (y m d : Z) : Z :=
  let y := if m <=? 2 then y - 1 else y in
  let era := y / 400 in
  let yoe := y - era * 400 in
  let doy := (153 * (if 2 <? m then m - 3 else m + 9) + 2) / 5 + d - 1 in
  let doe := yoe * 365 + yoe / 4 - yoe / 100 + doy in
  era * 146097 + doe - 719468.

Definition civil_from_days (z : Z) : Z * Z * Z :=
  let z := z + 719468 in
  let era := z / 146097 in
  let doe := z - era * 146097 in
  let yoe := (doe - doe / 1460 + doe / 36524 - doe / 146096) / 365 in
  let doy := doe - (365 * yoe + yoe / 4 - yoe / 100) in
  let mp := (5 * doy + 2) / 153 in
  let d := doy - (153 * mp + 2) / 5 + 1 in
  let m := if mp <? 10 then mp + 3 else mp - 9 in
  ((yoe + era * 400) + (if m <=? 2 then 1 else 0), m, d).

Definition days_in_month (y m : Z) : Z :=
  if m =? 2 then
    if ((y mod 4 =? 0) && negb (y mod 100 =? 0)) || (y mod 400 =? 0) then 29 else 28
  else if (m =? 4) || (m =? 6) || (m =? 9) || (m =? 11) then 30
  else 31.

Definition digit_value (c : ascii) : option Z :=
  let n := N_of_ascii c in
  if ((48 <=? n) && (n <=? 57))%N then Some (Z.of_N n - 48) else None.

Fixpoint digits_value (acc : Z) (l : list ascii) : option Z :=
  match l with
  | [] => Some acc
  | c :: l' => d ← digit_value c; digits_value (10 * acc + d) l'
  end.

(** A date-only form [YYYY-MM-DD], the value of a date input: midnight UTC. *)
Definition date_parse (s : string) : option Z :=
  match list_ascii_of_string s with
  | [y1; y2; y3; y4; h1; m1; m2; h2; n1; n2] =>
      if Ascii.eqb h1 "-" && Ascii.eqb h2 "-" then
        y ← digits_value 0 [y1; y2; y3; y4];
        m ← digits_value 0 [m1; m2];
        d ← digits_value 0 [n1; n2];
        if (1 <=? m) && (m <=? 12) && (1 <=? d) && (d <=? days_in_month y m)
        then Some (days_from_civil y m d * 86400000)
        else None
      else None
  | _ => None
  end.

Definition pad (width : nat) (n : Z) : string :=
  let s := Z_toString n in
  string_of_list_ascii (repeat "0"%char (width - String.length s)) +:+ s.

(** [YYYY-MM-DDTHH:mm:ss.sssZ], with a six-digit signed year outside
    0..9999. *)
Definition to_iso_string (t : Z) : string :=
  let day := t / 86400000 in
  let ms := t mod 86400000 in
  let '(y, m, d) := civil_from_days day in
  let year := if (0 <=? y) && (y <=? 9999) then pad 4 y
              else (if y <? 0 then "-" else "+") +:+ pad 6 (Z.abs y) in
  year +:+ "-" +:+ pad 2 m +:+ "-" +:+ pad 2 d +:+ "T"
    +:+ pad 2 (ms / 3600000) +:+ ":" +:+ pad 2 (ms / 60000 mod 60) +:+ ":"
    +:+ pad 2 (ms / 1000 mod 60) +:+ "." +:+ pad 3 (ms mod 1000) +:+ "Z".

(** *** Text

    Trimming removes ASCII white space; a string includes another when the
    latter occurs in it byte for byte; iteration cuts a string before every
    byte that starts a UTF-8 sequence; a local date is the UTC calendar
    date, written as in [Feb 1, 2026]. *)

Fixpoint trim_start (s : string) : string :=
  match s with
  | String c s' => if is_ws c || Ascii.eqb c "011"%char || Ascii.eqb c "012"%char
                   then trim_start s' else s
  | EmptyString => EmptyString
  end.

Definition reverse (s : string) : string :=
  string_of_list_ascii (rev (list_ascii_of_string s)).

Definition trim_both (s : string) : string :=
  reverse (trim_start (reverse (trim_start s))).

Fixpoint occurs_in (t s : string) : bool :=
  String.prefix t s
  || match s with
     | String _ s' => occurs_in t s'
     | EmptyString => false
     end.

(** Whether a byte continues a UTF-8 sequence: [10xxxxxx]. *)
Definition continues (c : ascii) : bool :=
  let n := N_of_ascii c in (128 <=? n)%N && (n <? 192)%N.

Fixpoint code_points (s : list ascii) : list string :=
  match s with
  | [] => []
  | c :: s' =>
      match code_points s' with
      | p :: ps =>
          match s' with
          | c' :: _ => if continues c' then String c p :: ps
                       else String c EmptyString :: p :: ps
          | [] => [String c EmptyString]
          end
      | [] => [String c EmptyString]
      end
  end.

Definition month_name (m : Z) : string :=
  nth (Z.to_nat (m - 1))
      ["Jan"; "Feb"; "Mar"; "Apr"; "May"; "Jun";
       "Jul"; "Aug"; "Sep"; "Oct"; "Nov"; "Dec"] "".

Definition to_locale_date_string (t : option Z) : string :=
  match t with
  | None => "Invalid Date"
  | Some t =>
      let '(y, m, d) := civil_from_days (t / 86400000) in
      month_name m +:+ " " +:+ Z_toString d +:+ ", " +:+ Z_toString y
  end.

(** *** The instances *)

#[export] Instance json : JSONHost := {|
  JSON_stringify := stringify;
  JSON_stringify_indent := stringify_indent;
  JSON_parse := parse;
  JSON_parse_stringify := parse_print false;
  JSON_parse_stringify_indent := parse_print true;
  JSON_parse_wf := parse_wf;
  JSON_parse_empty := eq_refl
|}.

#[export] Instance strings : StringHost := {|
  toLowerCase := lower;
  localeCompare := compare_bytes;
  localeCompare_antisym := compare_bytes_antisym;
  localeCompare_trans := compare_bytes_trans
|}.

#[export] Instance dates : DateHost := {|
  Date_parse := date_parse;
  toISOString := to_iso_string
|}.

(** A selector is taken to be accepted when it has two quotation marks,
    the ones around the attribute value, and neither a backslash nor a line
    break. *)
Definition well_quoted (s : string) : bool :=
  let cs := list_ascii_of_string s in
  Nat.eqb (length (List.filter (Ascii.eqb "034"%char) cs)) 2
  && forallb (fun c => negb (Ascii.eqb c "092"%char || Ascii.eqb c "010"%char
                             || Ascii.eqb c "012"%char || Ascii.eqb c "013"%char))
             cs.

#[export] Instance texts : TextHost := {|
  trim := trim_both;
  includes s t := occurs_in t s;
  chars s := code_points (list_ascii_of_string s);
  toLocaleDateString := to_locale_date_string;
  valid_selector := well_quoted
|}.

Example reference_stringify :
  JSON_stringify (JObj [("a", JArr [JNum 1; JNull]); ("b", JStr "x")])
  = "{" +:+ String quote "a" +:+ String quote ":[1,null],"
        +:+ String quote "b" +:+ String quote ":"
        +:+ String quote "x" +:+ String quote "}".
Proof. vm_compute. reflexivity. Qed.

Example reference_parse_not_valid : JSON_parse "{not valid}" = None.
Proof. vm_compute. reflexivity. Qed.

Example reference_iso : toISOString 1769904000123 = "2026-02-01T00:00:00.123Z".
Proof. vm_compute. reflexivity. Qed.

Example reference_date : Date_parse "2026-02-01" = Some 1769904000000.
Proof. vm_compute. reflexivity. Qed.

Example reference_text :
  trim "  Buy milk " = "Buy milk"
  /\ includes "buy milk" "milk" = true
  /\ includes "buy milk" "bread" = false
  /\ chars "ab" = ["a"; "b"]
  /\ toLocaleDateString (Some 1769904000000) = "Feb 1, 2026".
Proof. vm_compute. auto. Qed.

End Reference.

(** ** What the methods compute

    Each method is a [try]/[catch] around store accesses; below, each is
    rewritten as a function of what the store holds. *)

Import StorageManager.

Lemma find_from_Some p i l j t :
  find_from p i l = Ret (Some (j, t)) ->
  exists k, j = (i + k)%nat /\ l !! k = Some t /\ p t = Ret true.
Proof.
  revert i. induction l as [| x l IH]; intros i; simpl; [discriminate |].
  destruct (p x) as [[] | e] eqn:E; simpl; try discriminate.
  - intros [= <- <-]. exists 0%nat. rewrite Nat.add_0_r. auto.
  - intros Hf. destruct (IH _ Hf) as (k & -> & Hk & Hp).
    exists (S k). split; [lia | auto].
Qed.

Lemma Array_find_get p arr i t :
  Array_find p arr = Ret (Some (i, t)) -> Array_get i arr = Some t.
Proof.
  destruct arr as [| | | | xs |]; try discriminate. simpl.
  intros Hf. apply find_from_Some in Hf as (k & -> & Hk & _). exact Hk.
Qed.

Section Facts.
Context `{JH : JSONHost} `{SH : StringHost} `{DH : DateHost}.

(** The text that [getItem(k)] returns, when it returns one. *)
Definition slot (k : string) (w : World) : option string :=
  match access (storage w) with
  | Denied => None
  | Quota _ => items (storage w) !! k
  end.

(** The value a getter obtains from slot [k]; [None] when it falls back to
    its default. *)
Definition stored (k : string) (w : World) : option JSValue :=
  match slot k w with
  | Some s => if String.eqb s "" then None else JSON_parse s
  | None => None
  end.

(** The world after [setItem(k, text)], when it does not throw. *)
Definition written (k text : string) (w : World) : option World :=
  match access (storage w) with
  | Denied => None
  | Quota cap =>
      let m := <[k := text]> (items (storage w)) in
      if (usage m <=? cap)%N
      then Some (with_storage {| items := m; access := Quota cap |} w)
      else None
  end.

Definition saved (k : string) (v : JSValue) (w : World) : Outcome bool * World :=
  match written k (JSON_stringify v) w with
  | Some w' => (Ret true, w')
  | None => (Ret false, w)
  end.

Definition wf_world (w : World) : Prop :=
  wf_value (DEFAULT_CATEGORIES w) = true /\ wf_value (DEFAULT_SETTINGS w) = true.

Lemma setItem_written k text w :
  localStorage_setItem k text w
  = match written k text w with
    | Some w' => (Ret tt, w')
    | None => (Throw (match access (storage w) with
                      | Denied => SecurityError
                      | Quota _ => QuotaExceededError
                      end), w)
    end.
Proof.
  unfold localStorage_setItem, written. destruct (access (storage w)); [reflexivity |].
  simpl. destruct (_ <=? _)%N; reflexivity.
Qed.

Lemma saveTasks_saved v w : saveTasks v w = saved STORAGE_KEYS_TASKS v w.
Proof.
  unfold saveTasks, saved, try_catch, bind. rewrite setItem_written.
  destruct (written _ _ w); reflexivity.
Qed.

Lemma saveCategories_saved v w :
  saveCategories v w = saved STORAGE_KEYS_CATEGORIES v w.
Proof.
  unfold saveCategories, saved, try_catch, bind. rewrite setItem_written.
  destruct (written _ _ w); reflexivity.
Qed.

Lemma saveSettings_saved v w : saveSettings v w = saved STORAGE_KEYS_SETTINGS v w.
Proof.
  unfold saveSettings, saved, try_catch, bind. rewrite setItem_written.
  destruct (written _ _ w); reflexivity.
Qed.

Lemma getItem_slot k w :
  localStorage_getItem k w
  = match access (storage w) with
    | Denied => (Throw SecurityError, w)
    | Quota _ => (Ret (slot k w), w)
    end.
Proof. unfold localStorage_getItem, slot. destruct (access (storage w)); reflexivity. Qed.

Lemma getTasks_stored w :
  getTasks w = (Ret (default (JArr []) (stored STORAGE_KEYS_TASKS w)), w).
Proof.
  unfold getTasks, try_catch, bind, stored. rewrite getItem_slot. unfold slot.
  destruct (access (storage w)); [reflexivity |].
  destruct (items (storage w) !! STORAGE_KEYS_TASKS) as [s |]; [| reflexivity].
  unfold text_truthy, StorageManager.parse.
  destruct (String.eqb s ""); [reflexivity |]. simpl.
  destruct (JSON_parse s); reflexivity.
Qed.

Lemma getCategories_stored w :
  getCategories w
  = (Ret match stored STORAGE_KEYS_CATEGORIES w with
         | Some v => Fresh v
         | None => DefaultCategoriesRef
         end, w).
Proof.
  unfold getCategories, try_catch, bind, stored. rewrite getItem_slot. unfold slot.
  destruct (access (storage w)); [reflexivity |].
  destruct (items (storage w) !! STORAGE_KEYS_CATEGORIES) as [s |]; [| reflexivity].
  unfold text_truthy, StorageManager.parse.
  destruct (String.eqb s ""); [reflexivity |]. simpl.
  destruct (JSON_parse s); reflexivity.
Qed.

Lemma getSettings_stored w :
  getSettings w
  = (Ret match stored STORAGE_KEYS_SETTINGS w with
         | Some v => Fresh v
         | None => DefaultSettingsRef
         end, w).
Proof.
  unfold getSettings, try_catch, bind, stored. rewrite getItem_slot. unfold slot.
  destruct (access (storage w)); [reflexivity |].
  destruct (items (storage w) !! STORAGE_KEYS_SETTINGS) as [s |]; [| reflexivity].
  unfold text_truthy, StorageManager.parse.
  destruct (String.eqb s ""); [reflexivity |]. simpl.
  destruct (JSON_parse s); reflexivity.
Qed.

(** The three collections, as functions of the world. *)
Definition tasks_of (w : World) : JSValue :=
  default (JArr []) (stored STORAGE_KEYS_TASKS w).
Definition categories_of (w : World) : JSValue :=
  default (DEFAULT_CATEGORIES w) (stored STORAGE_KEYS_CATEGORIES w).
Definition settings_of (w : World) : JSValue :=
  default (DEFAULT_SETTINGS w) (stored STORAGE_KEYS_SETTINGS w).

Lemma listTasks_of w : listTasks w = (Ret (tasks_of w), w).
Proof. apply getTasks_stored. Qed.

Lemma listCategories_of w : listCategories w = (Ret (categories_of w), w).
Proof.
  unfold listCategories, bind, categories_of. rewrite getCategories_stored.
  destruct (stored _ w); reflexivity.
Qed.

Lemma listSettings_of w : listSettings w = (Ret (settings_of w), w).
Proof.
  unfold listSettings, bind, settings_of. rewrite getSettings_stored.
  destruct (stored _ w); reflexivity.
Qed.

(** *** Reading back what was written *)

Lemma stringify_nonempty v : wf_value v = true -> JSON_stringify v <> "".
Proof.
  intros Hwf E. pose proof (JSON_parse_stringify v Hwf) as Hp.
  rewrite E, JSON_parse_empty in Hp. discriminate.
Qed.

Lemma written_access k text w w' :
  written k text w = Some w' ->
  exists cap, access (storage w) = Quota cap
              /\ w' = with_storage {| items := <[k := text]> (items (storage w));
                                      access := Quota cap |} w.
Proof.
  unfold written. destruct (access (storage w)) as [| cap]; [discriminate |].
  simpl. destruct (_ <=? _)%N; [| discriminate]. intros [= <-]. eauto.
Qed.

Lemma stored_written k v w w' :
  wf_value v = true -> written k (JSON_stringify v) w = Some w' ->
  stored k w' = Some v.
Proof.
  intros Hwf Hw. apply written_access in Hw as (cap & _ & ->).
  unfold stored, slot. simpl. rewrite lookup_insert_eq.
  destruct (String.eqb_spec (JSON_stringify v) "") as [E | _].
  - now apply stringify_nonempty in E.
  - now apply JSON_parse_stringify.
Qed.

Lemma stored_written_ne k k' text w w' :
  k <> k' -> written k text w = Some w' -> stored k' w' = stored k' w.
Proof.
  intros Hne Hw. apply written_access in Hw as (cap & Ha & ->).
  unfold stored, slot. simpl. rewrite Ha, lookup_insert_ne by exact Hne.
  reflexivity.
Qed.

Lemma written_DEFAULT_CATEGORIES k text w w' :
  written k text w = Some w' -> DEFAULT_CATEGORIES w' = DEFAULT_CATEGORIES w.
Proof. intros Hw. apply written_access in Hw as (cap & _ & ->). reflexivity. Qed.

Lemma written_DEFAULT_SETTINGS k text w w' :
  written k text w = Some w' -> DEFAULT_SETTINGS w' = DEFAULT_SETTINGS w.
Proof. intros Hw. apply written_access in Hw as (cap & _ & ->). reflexivity. Qed.

Lemma stored_wf k w v : stored k w = Some v -> wf_value v = true.
Proof.
  unfold stored. destruct (slot k w) as [s |]; [| discriminate].
  destruct (String.eqb s ""); [discriminate |]. apply JSON_parse_wf.
Qed.

Lemma tasks_of_wf w : wf_value (tasks_of w) = true.
Proof.
  unfold tasks_of. destruct (stored _ w) eqn:E; [| reflexivity].
  exact (stored_wf _ _ _ E).
Qed.

Lemma categories_of_wf w : wf_world w -> wf_value (categories_of w) = true.
Proof.
  intros [Hc _]. unfold categories_of.
  destruct (stored _ w) eqn:E; [exact (stored_wf _ _ _ E) | exact Hc].
Qed.

Lemma settings_of_wf w : wf_world w -> wf_value (settings_of w) = true.
Proof.
  intros [_ Hs]. unfold settings_of.
  destruct (stored _ w) eqn:E; [exact (stored_wf _ _ _ E) | exact Hs].
Qed.

Lemma keys_distinct :
  STORAGE_KEYS_TASKS <> STORAGE_KEYS_CATEGORIES
  /\ STORAGE_KEYS_TASKS <> STORAGE_KEYS_SETTINGS
  /\ STORAGE_KEYS_CATEGORIES <> STORAGE_KEYS_SETTINGS.
Proof. repeat split; discriminate. Qed.

(** A successful save of the tasks: the other two collections stay, the
    tasks are what was saved. *)
Lemma saved_tasks v w w' :
  wf_value v = true -> saved STORAGE_KEYS_TASKS v w = (Ret true, w') ->
  tasks_of w' = v /\ categories_of w' = categories_of w
  /\ settings_of w' = settings_of w.
Proof.
  unfold saved. intros Hwf. destruct (written _ _ w) as [w1 |] eqn:E; [| discriminate].
  intros [= <-]. unfold tasks_of, categories_of, settings_of.
  rewrite (stored_written _ _ _ _ Hwf E).
  rewrite (stored_written_ne _ STORAGE_KEYS_CATEGORIES _ _ _ (proj1 keys_distinct) E).
  rewrite (stored_written_ne _ STORAGE_KEYS_SETTINGS _ _ _
             (proj1 (proj2 keys_distinct)) E).
  rewrite (written_DEFAULT_CATEGORIES _ _ _ _ E), (written_DEFAULT_SETTINGS _ _ _ _ E).
  auto.
Qed.

Lemma saved_false k v w w' : saved k v w = (Ret false, w') -> w' = w.
Proof.
  unfold saved. destruct (written _ _ w); [discriminate |]. now intros [= <-].
Qed.

Lemma saved_cases k v w :
  (exists w', written k (JSON_stringify v) w = Some w' /\ saved k v w = (Ret true, w'))
  \/ (written k (JSON_stringify v) w = None /\ saved k v w = (Ret false, w)).
Proof. unfold saved. destruct (written _ _ w); eauto. Qed.

(** *** The task methods *)

(** The record [addTask] stores. *)
Definition new_task (now : Z) (suffix : string) (stamp : Z) (task : JSObject)
  : JSObject :=
  obj_set "completedAt" JNull
    (obj_set "completed" (JBool false)
       (obj_set "createdAt" (JStr (toISOString stamp))
          (obj_set "id" (JStr ("task_" +:+ Z_toString now +:+ "_" +:+ suffix))
             task))).

Lemma addTask_eq now suffix stamp task w :
  addTask now suffix stamp task w
  = match tasks_of w with
    | JArr ts =>
        saved STORAGE_KEYS_TASKS
              (JArr (ts ++ [JObj (new_task now suffix stamp task)])) w
    | _ => (Ret false, w)
    end.
Proof.
  unfold addTask, try_catch, bind, lift. rewrite getTasks_stored.
  fold (tasks_of w). destruct (tasks_of w) as [| | | | ts |]; try reflexivity.
  simpl. rewrite saveTasks_saved. fold (new_task now suffix stamp task).
  destruct (saved_cases STORAGE_KEYS_TASKS
              (JArr (ts ++ [JObj (new_task now suffix stamp task)])) w)
    as [(w' & _ & ->) | [_ ->]]; reflexivity.
Qed.

Lemma updateTask_eq taskId updates w :
  updateTask taskId updates w
  = match Array_find (has_id taskId) (tasks_of w) with
    | Ret (Some (i, t)) =>
        saved STORAGE_KEYS_TASKS
              (Array_set i (JObj (obj_spread (own_props (Some t)) updates))
                         (tasks_of w)) w
    | _ => (Ret false, w)
    end.
Proof.
  unfold updateTask, try_catch, bind, lift, Array_findIndex.
  rewrite getTasks_stored. fold (tasks_of w).
  destruct (Array_find _ _) as [[[i t] |] | e] eqn:Ef; try reflexivity.
  cbn [obind fmap option_fmap option_map fst].
  rewrite (Array_find_get _ _ _ _ Ef), saveTasks_saved.
  destruct (saved_cases STORAGE_KEYS_TASKS
              (Array_set i (JObj (obj_spread (own_props (Some t)) updates))
                         (tasks_of w)) w)
    as [(w' & _ & ->) | [_ ->]]; reflexivity.
Qed.

Lemma deleteTask_eq taskId w :
  deleteTask taskId w
  = match Array_filter (fun t => obind (has_id taskId t) (fun b => Ret (negb b)))
                       (tasks_of w) with
    | Ret filtered =>
        if Nat.eqb (Array_length filtered) (Array_length (tasks_of w))
        then (Ret false, w)
        else saved STORAGE_KEYS_TASKS filtered w
    | Throw _ => (Ret false, w)
    end.
Proof.
  unfold deleteTask, try_catch, bind, lift. rewrite getTasks_stored.
  fold (tasks_of w). destruct (Array_filter _ _) as [filtered | e]; [| reflexivity].
  destruct (Nat.eqb _ _); [reflexivity |]. rewrite saveTasks_saved.
  destruct (saved_cases STORAGE_KEYS_TASKS filtered w)
    as [(w' & _ & ->) | [_ ->]]; reflexivity.
Qed.

(** What [toggleTaskComplete] does to the task it found. *)
Definition toggled (stamp : Z) (task : JSValue) : Outcome JSValue :=
  obind (prop "completed" task) (fun c =>
  obind (assign "completed" (JBool (negb (truthy c))) task) (fun task =>
  obind (prop "completed" task) (fun c =>
  assign "completedAt" (if truthy c then JStr (toISOString stamp) else JNull) task))).

Lemma toggleTaskComplete_eq stamp taskId w :
  toggleTaskComplete stamp taskId w
  = match Array_find (has_id taskId) (tasks_of w) with
    | Ret (Some (i, task)) =>
        if negb (truthy (Some task)) then (Ret false, w)
        else match toggled stamp task with
             | Ret task' => saved STORAGE_KEYS_TASKS (Array_set i task' (tasks_of w)) w
             | Throw _ => (Ret false, w)
             end
    | _ => (Ret false, w)
    end.
Proof.
  unfold toggleTaskComplete, try_catch, bind, lift. rewrite getTasks_stored.
  fold (tasks_of w). destruct (Array_find _ _) as [[[i t] |] | e]; try reflexivity.
  destruct (negb (truthy (Some t))); [reflexivity |]. unfold toggled, obind.
  destruct (prop "completed" t) as [c |]; [| reflexivity].
  destruct (assign "completed" _ t) as [t1 |]; [| reflexivity].
  destruct (prop "completed" t1) as [c1 |]; [| reflexivity].
  destruct (assign "completedAt" _ t1) as [t2 |]; [| reflexivity].
  rewrite saveTasks_saved.
  destruct (saved_cases STORAGE_KEYS_TASKS (Array_set i t2 (tasks_of w)) w)
    as [(w' & _ & ->) | [_ ->]]; reflexivity.
Qed.

Lemma clearCompletedTasks_eq w :
  clearCompletedTasks w
  = match Array_filter (fun t => obind (prop "completed" t)
                                   (fun c => Ret (negb (truthy c))))
                       (tasks_of w) with
    | Ret activeTasks => saved STORAGE_KEYS_TASKS activeTasks w
    | Throw _ => (Ret false, w)
    end.
Proof.
  unfold clearCompletedTasks, try_catch, bind, lift. rewrite getTasks_stored.
  fold (tasks_of w). destruct (Array_filter _ _) as [active | e]; [| reflexivity].
  rewrite saveTasks_saved.
  destruct (saved_cases STORAGE_KEYS_TASKS active w)
    as [(w' & _ & ->) | [_ ->]]; reflexivity.
Qed.

(** *** Categories and settings *)

(** The world after the object behind a getter's result was modified. *)
Definition categories_mutated (v : JSValue) (w : World) : World :=
  match stored STORAGE_KEYS_CATEGORIES w with
  | Some _ => w
  | None => with_DEFAULT_CATEGORIES v w
  end.

Definition settings_mutated (v : JSValue) (w : World) : World :=
  match stored STORAGE_KEYS_SETTINGS w with
  | Some _ => w
  | None => with_DEFAULT_SETTINGS v w
  end.

Definition new_category (now : Z) (category : JSObject) : JSObject :=
  obj_set "id" (JStr ("cat_" +:+ Z_toString now)) category.

Lemma addCategory_eq now category w :
  addCategory now category w
  = match Array_some (same_name category) (categories_of w) with
    | Ret true => (Ret false, w)
    | Ret false =>
        match Array_push (categories_of w) (JObj (new_category now category)) with
        | Ret categories =>
            saved STORAGE_KEYS_CATEGORIES categories
                  (categories_mutated categories w)
        | Throw _ => (Ret false, w)
        end
    | Throw _ => (Ret false, w)
    end.
Proof.
  unfold addCategory, try_catch, bind, lift. rewrite getCategories_stored.
  unfold categories_of, categories_mutated, deref, mutate.
  destruct (stored STORAGE_KEYS_CATEGORIES w) as [v |] eqn:E; simpl.
  - destruct (Array_some _ v) as [[] | e]; try reflexivity.
    fold (new_category now category).
    destruct (Array_push v _) as [cs |]; [| reflexivity].
    rewrite saveCategories_saved.
    destruct (saved_cases STORAGE_KEYS_CATEGORIES cs w)
      as [(w' & _ & ->) | [_ ->]]; reflexivity.
  - destruct (Array_some _ _) as [[] | e]; try reflexivity.
    fold (new_category now category).
    destruct (Array_push _ _) as [cs |]; [| reflexivity].
    rewrite saveCategories_saved.
    destruct (saved_cases STORAGE_KEYS_CATEGORIES cs (with_DEFAULT_CATEGORIES cs w))
      as [(w' & _ & ->) | [_ ->]]; reflexivity.
Qed.

Lemma updateSetting_eq key value w :
  updateSetting key value w
  = match assign_key key value (settings_of w) with
    | Ret settings =>
        saved STORAGE_KEYS_SETTINGS settings (settings_mutated settings w)
    | Throw _ => (Ret false, w)
    end.
Proof.
  unfold updateSetting, try_catch, bind, lift. rewrite getSettings_stored.
  unfold settings_of, settings_mutated, deref, mutate.
  destruct (stored STORAGE_KEYS_SETTINGS w) as [v |] eqn:E; simpl.
  - destruct (assign_key key value v) as [s |]; [| reflexivity].
    rewrite saveSettings_saved.
    destruct (saved_cases STORAGE_KEYS_SETTINGS s w)
      as [(w' & _ & ->) | [_ ->]]; reflexivity.
  - destruct (assign_key key value _) as [s |]; [| reflexivity].
    rewrite saveSettings_saved.
    destruct (saved_cases STORAGE_KEYS_SETTINGS s (with_DEFAULT_SETTINGS s w))
      as [(w' & _ & ->) | [_ ->]]; reflexivity.
Qed.

(** *** Export and import *)

Definition export_document (stamp : Z) (w : World) : JSValue :=
  JObj [ ("tasks", tasks_of w);
         ("categories", categories_of w);
         ("settings", settings_of w);
         ("exportDate", JStr (toISOString stamp));
         ("version", JStr "1.0") ].

Lemma exportData_eq stamp w :
  exportData stamp w = (Ret (Some (JSON_stringify_indent (export_document stamp w))), w).
Proof.
  unfold exportData, try_catch, bind. rewrite getTasks_stored.
  cbv beta iota. rewrite getCategories_stored. cbv beta iota.
  unfold export_document, tasks_of, categories_of, settings_of, deref.
  destruct (stored STORAGE_KEYS_CATEGORIES w); cbv beta iota;
    rewrite getSettings_stored; cbv beta iota;
    destruct (stored STORAGE_KEYS_SETTINGS w); reflexivity.
Qed.

(** What [importData] takes from a parsed document: the tasks and the
    categories, both truthy, and the settings when truthy. *)
Definition import_fields (data : JSValue)
  : option (JSValue * JSValue * option JSValue) :=
  match data with
  | JObj o =>
      match obj_get "tasks" o, obj_get "categories" o with
      | Some t, Some c =>
          if truthy (Some t) && truthy (Some c)
          then Some (t, c, if truthy (obj_get "settings" o)
                           then obj_get "settings" o else None)
          else None
      | _, _ => None
      end
  | _ => None
  end.

Definition imported (fields : JSValue * JSValue * option JSValue) (w : World)
  : World :=
  let '(t, c, s) := fields in
  let w := snd (saved STORAGE_KEYS_TASKS t w) in
  let w := snd (saved STORAGE_KEYS_CATEGORIES c w) in
  match s with
  | Some s => snd (saved STORAGE_KEYS_SETTINGS s w)
  | None => w
  end.

Lemma saved_Ret k v w : exists b, fst (saved k v w) = Ret b.
Proof. unfold saved. destruct (written _ _ w); simpl; eauto. Qed.

Lemma importData_eq jsonData w :
  importData jsonData w
  = match JSON_parse jsonData ≫= import_fields with
    | Some fields => (Ret true, imported fields w)
    | None => (Ret false, w)
    end.
Proof.
  unfold importData, try_catch, bind, lift, StorageManager.parse.
  destruct (JSON_parse jsonData) as [data |]; [| reflexivity].
  cbn [mbind option_bind ret].
  destruct data as [| b | n | s | xs | o]; try reflexivity.
  unfold import_fields, prop, save_prop, imported.
  destruct (obj_get "tasks" o) as [t |]; [| reflexivity].
  destruct (obj_get "categories" o) as [c |];
    [| destruct (truthy (Some t)); reflexivity].
  destruct (truthy (Some t)); [| reflexivity].
  destruct (truthy (Some c)); [| reflexivity].
  cbn [negb andb ret].
  rewrite saveTasks_saved.
  destruct (saved STORAGE_KEYS_TASKS t w) as [r1 w1] eqn:E1.
  destruct (saved_Ret STORAGE_KEYS_TASKS t w) as [b1 Hb1].
  rewrite E1 in Hb1. simpl in Hb1. subst r1. cbn [snd].
  rewrite saveCategories_saved.
  destruct (saved STORAGE_KEYS_CATEGORIES c w1) as [r2 w2] eqn:E2.
  destruct (saved_Ret STORAGE_KEYS_CATEGORIES c w1) as [b2 Hb2].
  rewrite E2 in Hb2. simpl in Hb2. subst r2. cbn [snd].
  destruct (obj_get "settings" o) as [s |]; [| reflexivity].
  destruct (truthy (Some s)); [| reflexivity].
  rewrite saveSettings_saved.
  destruct (saved STORAGE_KEYS_SETTINGS s w2) as [r3 w3] eqn:E3.
  destruct (saved_Ret STORAGE_KEYS_SETTINGS s w2) as [b3 Hb3].
  rewrite E3 in Hb3. simpl in Hb3. subst r3. reflexivity.
Qed.

(** *** The probe and [initialize] *)

Lemma isLocalStorageAvailable_eq w :
  isLocalStorageAvailable w
  = match written "__localStorage_test__" "__localStorage_test__" w with
    | Some w' =>
        (Ret true,
         with_storage {| items := delete "__localStorage_test__" (items (storage w'));
                         access := access (storage w') |} w')
    | None => (Ret false, w)
    end.
Proof.
  unfold isLocalStorageAvailable, try_catch, bind. rewrite setItem_written.
  destruct (written _ _ w) as [w' |] eqn:E; [| reflexivity].
  apply written_access in E as (cap & _ & ->). reflexivity.
Qed.

Lemma initialize_unavailable w :
  fst (isLocalStorageAvailable w) = Ret false -> initialize w = (Ret tt, w).
Proof.
  unfold initialize, bind. rewrite isLocalStorageAvailable_eq.
  destruct (written _ _ w); [discriminate | reflexivity].
Qed.

Lemma denied_written k text w : access (storage w) = Denied -> written k text w = None.
Proof. unfold written. now intros ->. Qed.

Lemma denied_stored k w : access (storage w) = Denied -> stored k w = None.
Proof. unfold stored, slot. now intros ->. Qed.

End Facts.

(** * Properties *)

Section Properties.
Context `{JH : JSONHost} `{SH : StringHost} `{DH : DateHost}.

(** ** The Persistence Gateway when the store is unusable *)

(** C1 (as the code has it).  When the initial probe fails, [initialize]
    writes nothing and leaves the world as it is.  No degraded flag is kept:
    each later write still calls [setItem] and reports failure exactly when
    that call throws, and each later read returns what the store holds,
    falling back to the in-memory default only when the slot is missing,
    empty or unreadable.  When access to the store is denied altogether,
    every write fails without effect and every read yields the in-memory
    default. *)
Theorem probe_failure_keeps_no_flag (w : World) :
  fst (isLocalStorageAvailable w) = Ret false ->
  initialize w = (Ret tt, w)
  /\ (forall v,
        saveTasks v w = saved STORAGE_KEYS_TASKS v w
        /\ saveCategories v w = saved STORAGE_KEYS_CATEGORIES v w
        /\ saveSettings v w = saved STORAGE_KEYS_SETTINGS v w)
  /\ listTasks w = (Ret (default (JArr []) (stored STORAGE_KEYS_TASKS w)), w)
  /\ listCategories w
     = (Ret (default (DEFAULT_CATEGORIES w) (stored STORAGE_KEYS_CATEGORIES w)), w)
  /\ listSettings w
     = (Ret (default (DEFAULT_SETTINGS w) (stored STORAGE_KEYS_SETTINGS w)), w)
  /\ (access (storage w) = Denied ->
      (forall v, saveTasks v w = (Ret false, w)
                 /\ saveCategories v w = (Ret false, w)
                 /\ saveSettings v w = (Ret false, w))
      /\ listTasks w = (Ret (JArr []), w)
      /\ listCategories w = (Ret (DEFAULT_CATEGORIES w), w)
      /\ listSettings w = (Ret (DEFAULT_SETTINGS w), w)).
Proof.
  intros Hprobe. split; [now apply initialize_unavailable |].
  split; [intros v; auto using saveTasks_saved, saveCategories_saved,
                     saveSettings_saved |].
  split; [apply listTasks_of |]. split; [apply listCategories_of |].
  split; [apply listSettings_of |]. intros Hd. split.
  - intros v. rewrite saveTasks_saved, saveCategories_saved, saveSettings_saved.
    unfold saved. rewrite !denied_written by exact Hd. auto.
  - rewrite listTasks_of, listCategories_of, listSettings_of.
    unfold tasks_of, categories_of, settings_of.
    rewrite !denied_stored by exact Hd. auto.
Qed.

(** ** Import of a malformed document *)

(** The top-level field [k] of a parsed document, if it has one. *)
Definition field (k : string) (data : JSValue) : option JSValue :=
  match data with
  | JObj o => obj_get k o
  | _ => None
  end.

(** C6 (as the code has it).  When the text cannot be parsed, or the parsed
    document has no truthy top-level [tasks] or no truthy top-level
    [categories] (the field is missing, or [null], [false], [0] or the empty
    string), [importData] returns [false] and the world, hence each of the
    three slots, is as before.  Nothing else of the shape is looked at: a
    document in which both fields are truthy is imported, whatever they
    are. *)
Theorem importData_rejects_malformed (jsonData : string) (w : World) :
  (JSON_parse jsonData = None
   \/ (exists data, JSON_parse jsonData = Some data
                    /\ (truthy (field "tasks" data) = false
                        \/ truthy (field "categories" data) = false)) ->
   importData jsonData w = (Ret false, w)
   /\ slot STORAGE_KEYS_TASKS (snd (importData jsonData w))
      = slot STORAGE_KEYS_TASKS w
   /\ slot STORAGE_KEYS_CATEGORIES (snd (importData jsonData w))
      = slot STORAGE_KEYS_CATEGORIES w
   /\ slot STORAGE_KEYS_SETTINGS (snd (importData jsonData w))
      = slot STORAGE_KEYS_SETTINGS w)
  /\ (forall data,
         JSON_parse jsonData = Some data ->
         truthy (field "tasks" data) = true ->
         truthy (field "categories" data) = true ->
         fst (importData jsonData w) = Ret true).
Proof.
  split.
  - intros Hbad.
    assert (importData jsonData w = (Ret false, w)) as ->; [| auto].
    rewrite importData_eq.
    destruct Hbad as [-> | (data & -> & Hmiss)]; [reflexivity |].
    cbn [mbind option_bind]. destruct data as [| b | n | s | xs | o];
      try reflexivity.
    cbn [field import_fields] in *.
    destruct (obj_get "tasks" o) as [t |]; [| reflexivity].
    destruct (obj_get "categories" o) as [c |]; [| reflexivity].
    destruct Hmiss as [-> | ->]; [reflexivity |].
    now rewrite andb_false_r.
  - intros data Hp Ht Hc. rewrite importData_eq, Hp. cbn [mbind option_bind].
    destruct data as [| b | n | s | xs | o]; try discriminate.
    cbn [field import_fields] in *.
    destruct (obj_get "tasks" o) as [t |]; [| discriminate].
    destruct (obj_get "categories" o) as [c |]; [| discriminate].
    now rewrite Ht, Hc.
Qed.

(** ** Updating one setting *)

Lemma saved_stored k v w w' :
  wf_value v = true -> saved k v w = (Ret true, w') ->
  stored k w' = Some v
  /\ (forall k', k <> k' -> stored k' w' = stored k' w)
  /\ DEFAULT_CATEGORIES w' = DEFAULT_CATEGORIES w
  /\ DEFAULT_SETTINGS w' = DEFAULT_SETTINGS w.
Proof.
  unfold saved. intros Hwf.
  destruct (written _ _ w) as [w1 |] eqn:E; [| discriminate]. intros [= <-].
  split; [exact (stored_written _ _ _ _ Hwf E) |].
  split; [intros k' Hne; exact (stored_written_ne _ _ _ _ _ Hne E) |].
  split; [exact (written_DEFAULT_CATEGORIES _ _ _ _ E)
         | exact (written_DEFAULT_SETTINGS _ _ _ _ E)].
Qed.

Lemma listSettings_value w v : fst (listSettings w) = Ret v <-> settings_of w = v.
Proof. rewrite listSettings_of. simpl. split; [now intros [= ->] | now intros ->]. Qed.

Lemma listTasks_value w v : fst (listTasks w) = Ret v <-> tasks_of w = v.
Proof. rewrite listTasks_of. simpl. split; [now intros [= ->] | now intros ->]. Qed.

Lemma listCategories_value w v : fst (listCategories w) = Ret v <-> categories_of w = v.
Proof. rewrite listCategories_of. simpl. split; [now intros [= ->] | now intros ->]. Qed.

(** C9 (as the code has it).  When the settings record is an object,
    [key] is not [__proto__] and [updateSetting(key, value)] reports
    success, the settings read afterwards hold [value] under [key], whether
    or not [key] is one of the known settings, and every other key reads as
    it did before. *)
Theorem updateSetting_stores_key (key : string) (value : JSValue)
    (w w' : World) (o : JSObject) :
  wf_world w -> wf_value value = true ->
  fst (listSettings w) = Ret (JObj o) ->
  key <> "__proto__" ->
  updateSetting key value w = (Ret true, w') ->
  exists o',
    fst (listSettings w') = Ret (JObj o')
    /\ obj_get key o' = Some value
    /\ forall k, k <> key -> obj_get k o' = obj_get k o.
Proof.
  intros Hw Hv Ho Hkey Hup. apply listSettings_value in Ho.
  rewrite updateSetting_eq, Ho in Hup. simpl in Hup.
  assert (wf_value (JObj (obj_put key value o)) = true) as Hwf.
  { apply wf_obj_put; [| exact Hv].
    change (wf_value (JObj o) = true). rewrite <- Ho. now apply settings_of_wf. }
  apply (saved_stored _ _ _ _ Hwf) in Hup as (Hst & _).
  exists (obj_put key value o). split; [| split].
  - apply listSettings_value. unfold settings_of. now rewrite Hst.
  - apply obj_get_put_eq. now left.
  - intros k Hk. now apply obj_get_put_ne.
Qed.

(** ** Export, then import *)

(** Saving a collection that is already the current one changes none of the
    three collections, whether or not the write goes through. *)
Lemma resaved k v w :
  wf_value v = true ->
  (k = STORAGE_KEYS_TASKS /\ tasks_of w = v)
  \/ (k = STORAGE_KEYS_CATEGORIES /\ categories_of w = v)
  \/ (k = STORAGE_KEYS_SETTINGS /\ settings_of w = v) ->
  tasks_of (snd (saved k v w)) = tasks_of w
  /\ categories_of (snd (saved k v w)) = categories_of w
  /\ settings_of (snd (saved k v w)) = settings_of w.
Proof.
  intros Hwf Hk.
  destruct (saved_cases k v w) as [(w' & _ & E) | [_ E]]; rewrite E; simpl; [| auto].
  apply (saved_stored _ _ _ _ Hwf) in E as (Hst & Hne & Hdc & Hds).
  destruct keys_distinct as (Htc & Hts & Hcs).
  unfold tasks_of, categories_of, settings_of in *. rewrite Hdc, Hds.
  destruct Hk as [[-> Hv] | [[-> Hv] | [-> Hv]]]; rewrite Hst, ?Hne by congruence;
    rewrite <- Hv; auto.
Qed.



(** ** Categories with the same name *)

Lemma some_list_found p l x :
  x ∈ l -> p x = Ret true ->
  some_list p l = Ret true \/ exists e, some_list p l = Throw e.
Proof.
  intros Hin Hp. induction l as [| y l IH]; [now apply elem_of_nil in Hin |].
  apply elem_of_cons in Hin as [<- | Hin]; simpl.
  - rewrite Hp. auto.
  - destruct (p y) as [[] | e]; simpl; eauto.
Qed.

Lemma same_name_true category name c n :
  obj_get "name" category = Some (JStr name) ->
  prop "name" c = Ret (Some (JStr n)) ->
  toLowerCase n = toLowerCase name ->
  same_name category c = Ret true.
Proof.
  intros Hcat Hc Hlow. unfold same_name. rewrite Hc, Hcat. simpl.
  rewrite Hlow, String.eqb_refl. reflexivity.
Qed.

(** Whether category [c] is named [n], case-insensitively. *)
Definition named (n : string) (c : JSValue) : bool :=
  match prop "name" c with
  | Ret (Some (JStr m)) => String.eqb (toLowerCase m) (toLowerCase n)
  | _ => false
  end.

Lemma addCategory_duplicate now category name w cs c n :
  fst (listCategories w) = Ret (JArr cs) ->
  obj_get "name" category = Some (JStr name) ->
  c ∈ cs -> prop "name" c = Ret (Some (JStr n)) ->
  toLowerCase n = toLowerCase name ->
  addCategory now category w = (Ret false, w).
Proof.
  intros Hcs Hcat Hin Hc Hlow. apply listCategories_value in Hcs.
  rewrite addCategory_eq, Hcs. simpl.
  destruct (some_list_found (same_name category) cs c Hin
              (same_name_true _ _ _ _ Hcat Hc Hlow)) as [-> | [e ->]];
    reflexivity.
Qed.

(** C7.  A category whose name equals, case-insensitively, the name of a
    category already in the collection is rejected: [addCategory] returns
    [false] and the world is as before.  In particular, when no category is
    named (case-insensitively) [n1] and [addCategory] of a category named
    [n1] succeeds, a following [addCategory] of a category named [n2], equal
    to [n1] case-insensitively, returns [false], changes nothing, and the
    collection holds exactly one category with that name. *)
Theorem addCategory_rejects_duplicate_name :
  (forall now category name w cs c n,
      fst (listCategories w) = Ret (JArr cs) ->
      obj_get "name" category = Some (JStr name) ->
      c ∈ cs -> prop "name" c = Ret (Some (JStr n)) ->
      toLowerCase n = toLowerCase name ->
      addCategory now category w = (Ret false, w))
  /\ (forall now1 now2 first second n1 n2 w w1 cs,
         wf_world w -> wf_obj first = true ->
         fst (listCategories w) = Ret (JArr cs) ->
         obj_get "name" first = Some (JStr n1) ->
         obj_get "name" second = Some (JStr n2) ->
         toLowerCase n1 = toLowerCase n2 ->
         List.filter (named n1) cs = [] ->
         addCategory now1 first w = (Ret true, w1) ->
         addCategory now2 second w1 = (Ret false, w1)
         /\ exists cs1 c,
             fst (listCategories w1) = Ret (JArr cs1)
             /\ List.filter (named n1) cs1 = [c]).
Proof.
  split; [intros; eapply addCategory_duplicate; eassumption |].
  intros now1 now2 first second n1 n2 w w1 cs Hw Hf Hcs Hn1 Hn2 Hlow Hnone Hadd.
  apply listCategories_value in Hcs.
  set (c := JObj (new_category now1 first)).
  assert (prop "name" c = Ret (Some (JStr n1))) as Hc.
  { simpl. unfold new_category. rewrite obj_get_set_ne by discriminate.
    now rewrite Hn1. }
  assert (categories_of w1 = JArr (cs ++ [c])) as Hcs1.
  { rewrite addCategory_eq, Hcs in Hadd. simpl in Hadd.
    destruct (some_list _ cs) as [[] | e]; try discriminate.
    fold c in Hadd.
    assert (wf_value (JArr (cs ++ [c])) = true) as Hwf.
    { pose proof (categories_of_wf w Hw) as Wc. rewrite Hcs in Wc.
      apply wf_arr_spec in Wc. apply wf_arr_spec, Forall_app. split; [exact Wc |].
      repeat constructor. now apply wf_obj_set. }
    apply (saved_stored _ _ _ _ Hwf) in Hadd as (Hst & _).
    unfold categories_of. now rewrite Hst. }
  split.
  - apply (addCategory_duplicate now2 second n2 w1 (cs ++ [c]) c n1); auto.
    + now apply listCategories_value.
    + apply elem_of_app. right. now apply list_elem_of_singleton.
  - exists (cs ++ [c]), c. split; [now apply listCategories_value |].
    rewrite List.filter_app, Hnone. simpl. unfold named at 1. rewrite Hc.
    now rewrite String.eqb_refl.
Qed.

(** ** The task operations on a stored array *)

Lemma has_id_true taskId t :
  has_id taskId t = Ret true ->
  exists o, t = JObj o /\ obj_get "id" o = Some (JStr taskId).
Proof.
  unfold has_id. destruct t as [| b | n | s | xs | o]; simpl; try discriminate.
  destruct (obj_get "id" o) as [[| b | n | s | xs | o'] |] eqn:Eid; simpl;
    try discriminate.
  intros [= E]. apply String.eqb_eq in E. subst. eauto.
Qed.

Lemma Array_find_has_id taskId ts i t :
  Array_find (has_id taskId) (JArr ts) = Ret (Some (i, t)) ->
  exists o, t = JObj o /\ ts !! i = Some (JObj o)
            /\ obj_get "id" o = Some (JStr taskId).
Proof.
  simpl. intros Hf. apply find_from_Some in Hf as (k & -> & Hk & Hp).
  apply has_id_true in Hp as (o & -> & Hid). eauto.
Qed.

Lemma filter_list_Ret p l r :
  filter_list p l = Ret r ->
  r = List.filter (fun x => match p x with Ret true => true | _ => false end) l
  /\ Forall (fun x => exists b, p x = Ret b) l.
Proof.
  revert r. induction l as [| x l IH]; intros r; simpl.
  - intros [= <-]. auto.
  - destruct (p x) as [b | e] eqn:Ep; simpl; [| discriminate].
    destruct (filter_list p l) as [r' | e]; simpl; [| discriminate].
    intros [= <-]. destruct (IH _ eq_refl) as [-> Hall].
    split; [destruct b; reflexivity | constructor; eauto].
Qed.

Lemma filter_sublist {A} (f : A -> bool) (l : list A) : sublist (List.filter f l) l.
Proof.
  induction l as [| x l IH]; simpl; [constructor |].
  destruct (f x); now constructor.
Qed.

Lemma wf_lookup ts i t :
  wf_value (JArr ts) = true -> ts !! i = Some t -> wf_value t = true.
Proof.
  rewrite wf_arr_spec, Forall_forall. intros Hall Hi.
  apply Hall. eapply list_elem_of_lookup_2, Hi.
Qed.

Lemma wf_insert ts i t :
  wf_value (JArr ts) = true -> wf_value t = true ->
  wf_value (JArr (<[i := t]> ts)) = true.
Proof. rewrite !wf_arr_spec. intros Hall Ht. now apply Forall_insert. Qed.

Lemma wf_filter f ts :
  wf_value (JArr ts) = true -> wf_value (JArr (List.filter f ts)) = true.
Proof.
  rewrite !wf_arr_spec, !Forall_forall. intros Hall x Hx.
  apply Hall. apply list_elem_of_In. apply list_elem_of_In, filter_In in Hx. tauto.
Qed.

Lemma wf_new_task now suffix stamp task :
  wf_obj task = true -> wf_obj (new_task now suffix stamp task) = true.
Proof. intros Ht. unfold new_task. repeat apply wf_obj_set; auto. Qed.

Lemma obj_spread_wf (o updates : JSObject) :
  wf_obj o = true -> obj_spread o updates = obj_assign o updates.
Proof. intros Ho. unfold obj_spread. now rewrite obj_spread_nil. Qed.

Lemma addTask_success now suffix stamp task w w' ts :
  tasks_of w = JArr ts -> wf_obj task = true ->
  addTask now suffix stamp task w = (Ret true, w') ->
  tasks_of w' = JArr (ts ++ [JObj (new_task now suffix stamp task)])
  /\ categories_of w' = categories_of w /\ settings_of w' = settings_of w.
Proof.
  intros Hts Ht. rewrite addTask_eq, Hts. apply saved_tasks.
  pose proof (tasks_of_wf w) as Wt. rewrite Hts in Wt. apply wf_arr_spec in Wt.
  apply wf_arr_spec, Forall_app. split; [exact Wt |].
  repeat constructor. now apply wf_new_task.
Qed.

Lemma updateTask_success taskId updates w w' ts :
  tasks_of w = JArr ts -> wf_obj updates = true ->
  updateTask taskId updates w = (Ret true, w') ->
  exists i o,
    ts !! i = Some (JObj o) /\ obj_get "id" o = Some (JStr taskId)
    /\ tasks_of w' = JArr (<[i := JObj (obj_assign o updates)]> ts)
    /\ categories_of w' = categories_of w /\ settings_of w' = settings_of w.
Proof.
  intros Hts Hu. rewrite updateTask_eq, Hts.
  destruct (Array_find _ _) as [[[i t] |] | e] eqn:Ef; try discriminate.
  apply Array_find_has_id in Ef as (o & -> & Hi & Hid).
  pose proof (tasks_of_wf w) as Wt. rewrite Hts in Wt.
  pose proof (wf_lookup _ _ _ Wt Hi) as Wo.
  cbn [own_props Array_set]. rewrite (obj_spread_wf _ _ Wo). intros Hs.
  apply saved_tasks in Hs.
  - exists i, o. tauto.
  - apply wf_insert; [exact Wt |]. apply wf_obj_assign; [exact Wo |].
    apply wf_obj_spec in Hu. tauto.
Qed.

(** The record [toggleTaskComplete] stores for a task object [o]. *)
Definition toggled_task (stamp : Z) (o : JSObject) : JSObject :=
  let done := negb (truthy (obj_get "completed" o)) in
  obj_set "completedAt" (if done then JStr (toISOString stamp) else JNull)
          (obj_set "completed" (JBool done) o).

Lemma toggled_obj stamp o : toggled stamp (JObj o) = Ret (JObj (toggled_task stamp o)).
Proof.
  unfold toggled, toggled_task. simpl. rewrite obj_get_set_eq. simpl.
  reflexivity.
Qed.

Lemma toggleTaskComplete_success stamp taskId w w' ts :
  tasks_of w = JArr ts ->
  toggleTaskComplete stamp taskId w = (Ret true, w') ->
  exists i o,
    ts !! i = Some (JObj o) /\ obj_get "id" o = Some (JStr taskId)
    /\ tasks_of w' = JArr (<[i := JObj (toggled_task stamp o)]> ts)
    /\ categories_of w' = categories_of w /\ settings_of w' = settings_of w.
Proof.
  intros Hts. rewrite toggleTaskComplete_eq, Hts.
  destruct (Array_find _ _) as [[[i t] |] | e] eqn:Ef; try discriminate.
  apply Array_find_has_id in Ef as (o & -> & Hi & Hid).
  pose proof (tasks_of_wf w) as Wt. rewrite Hts in Wt.
  pose proof (wf_lookup _ _ _ Wt Hi) as Wo.
  cbn [truthy negb]. rewrite toggled_obj. cbn [Array_set]. intros Hs.
  apply saved_tasks in Hs.
  - exists i, o. tauto.
  - apply wf_insert; [exact Wt |]. unfold toggled_task.
    apply wf_obj_set; [apply wf_obj_set; [exact Wo | reflexivity] |].
    destruct (negb _); reflexivity.
Qed.

(** [t.id !== taskId], for a task [t] whose [id] can be read. *)
Definition other_than (taskId : string) (t : JSValue) : bool :=
  match has_id taskId t with
  | Ret false => true
  | _ => false
  end.

(** [!t.completed], for a task [t] whose [completed] can be read. *)
Definition active (t : JSValue) : bool :=
  match prop "completed" t with
  | Ret c => negb (truthy c)
  | Throw _ => false
  end.

Lemma deleteTask_success taskId w w' ts :
  tasks_of w = JArr ts ->
  deleteTask taskId w = (Ret true, w') ->
  tasks_of w' = JArr (List.filter (other_than taskId) ts)
  /\ categories_of w' = categories_of w /\ settings_of w' = settings_of w.
Proof.
  intros Hts. rewrite deleteTask_eq, Hts. cbn [Array_filter].
  destruct (filter_list _ ts) as [r | e] eqn:Ef; [| discriminate].
  apply filter_list_Ret in Ef as [-> _]. cbn [obind].
  destruct (Nat.eqb _ _); [discriminate |].
  assert (List.filter
            (fun x => match obind (has_id taskId x) (fun b => Ret (negb b)) with
                      | Ret true => true
                      | _ => false
                      end) ts
          = List.filter (other_than taskId) ts) as ->.
  { apply List.filter_ext. intros t. unfold other_than.
    destruct (has_id taskId t) as [[] | e]; reflexivity. }
  apply saved_tasks, wf_filter. rewrite <- Hts. apply tasks_of_wf.
Qed.

Lemma clearCompletedTasks_success w w' ts :
  tasks_of w = JArr ts ->
  clearCompletedTasks w = (Ret true, w') ->
  tasks_of w' = JArr (List.filter active ts)
  /\ categories_of w' = categories_of w /\ settings_of w' = settings_of w.
Proof.
  intros Hts. rewrite clearCompletedTasks_eq, Hts. cbn [Array_filter].
  destruct (filter_list _ ts) as [r | e] eqn:Ef; [| discriminate].
  apply filter_list_Ret in Ef as [-> _]. cbn [obind].
  assert (List.filter
            (fun x => match obind (prop "completed" x)
                              (fun c => Ret (negb (truthy c))) with
                      | Ret true => true
                      | _ => false
                      end) ts
          = List.filter active ts) as ->.
  { apply List.filter_ext. intros t. unfold active.
    destruct (prop "completed" t) as [c | e]; [| reflexivity].
    simpl. destruct (negb (truthy c)); reflexivity. }
  apply saved_tasks, wf_filter. rewrite <- Hts. apply tasks_of_wf.
Qed.

(** A task operation that reports failure has changed nothing. *)
Lemma task_operation_failure w w' :
  (exists now suffix stamp task, addTask now suffix stamp task w = (Ret false, w'))
  \/ (exists taskId updates, updateTask taskId updates w = (Ret false, w'))
  \/ (exists stamp taskId, toggleTaskComplete stamp taskId w = (Ret false, w'))
  \/ (exists taskId, deleteTask taskId w = (Ret false, w'))
  \/ clearCompletedTasks w = (Ret false, w') ->
  w' = w.
Proof.
  intros [(now & suffix & stamp & task & E) | [(taskId & updates & E)
         | [(stamp & taskId & E) | [(taskId & E) | E]]]].
  - rewrite addTask_eq in E.
    destruct (tasks_of w); try (now injection E); now apply saved_false in E.
  - rewrite updateTask_eq in E.
    destruct (Array_find _ _) as [[[i t] |] | e]; try (now injection E).
    now apply saved_false in E.
  - rewrite toggleTaskComplete_eq in E.
    destruct (Array_find _ _) as [[[i t] |] | e]; try (now injection E).
    destruct (negb _); [now injection E |].
    destruct (toggled stamp t); [now apply saved_false in E | now injection E].
  - rewrite deleteTask_eq in E.
    destruct (Array_filter _ _) as [r | e]; [| now injection E].
    destruct (Nat.eqb _ _); [now injection E | now apply saved_false in E].
  - rewrite clearCompletedTasks_eq in E.
    destruct (Array_filter _ _) as [r | e]; [| now injection E].
    now apply saved_false in E.
Qed.

(** ** Stored order *)

(** C10.  On a stored array of tasks, every mutating operation keeps the
    tasks it does not remove in their order: a successful [addTask] appends
    one task at the end; a successful [updateTask] or [toggleTaskComplete]
    replaces one task at its index; a successful [deleteTask] or
    [clearCompletedTasks] leaves the sub-list of the tasks it keeps; and an
    operation that reports failure leaves the world as it was. *)
Theorem task_operations_preserve_order (w : World) (ts : list JSValue) :
  fst (listTasks w) = Ret (JArr ts) ->
  (forall now suffix stamp task w',
      wf_obj task = true ->
      addTask now suffix stamp task w = (Ret true, w') ->
      exists t, fst (listTasks w') = Ret (JArr (ts ++ [t])))
  /\ (forall taskId updates w',
         wf_obj updates = true ->
         updateTask taskId updates w = (Ret true, w') ->
         exists i t t',
           ts !! i = Some t /\ fst (listTasks w') = Ret (JArr (<[i := t']> ts)))
  /\ (forall stamp taskId w',
         toggleTaskComplete stamp taskId w = (Ret true, w') ->
         exists i t t',
           ts !! i = Some t /\ fst (listTasks w') = Ret (JArr (<[i := t']> ts)))
  /\ (forall taskId w',
         deleteTask taskId w = (Ret true, w') ->
         fst (listTasks w') = Ret (JArr (List.filter (other_than taskId) ts))
         /\ sublist (List.filter (other_than taskId) ts) ts)
  /\ (forall w',
         clearCompletedTasks w = (Ret true, w') ->
         fst (listTasks w') = Ret (JArr (List.filter active ts))
         /\ sublist (List.filter active ts) ts)
  /\ (forall now suffix stamp task taskId updates w',
         addTask now suffix stamp task w = (Ret false, w')
         \/ updateTask taskId updates w = (Ret false, w')
         \/ toggleTaskComplete stamp taskId w = (Ret false, w')
         \/ deleteTask taskId w = (Ret false, w')
         \/ clearCompletedTasks w = (Ret false, w') ->
         w' = w).
Proof.
  intros Hts. apply listTasks_value in Hts. repeat split.
  - intros now suffix stamp task w' Ht Hop.
    apply (addTask_success _ _ _ _ _ _ ts Hts Ht) in Hop as (E & _).
    eexists. apply listTasks_value, E.
  - intros taskId updates w' Hu Hop.
    apply (updateTask_success _ _ _ _ ts Hts Hu) in Hop as (i & o & Hi & _ & E & _).
    exists i, (JObj o). eexists. split; [exact Hi |]. apply listTasks_value, E.
  - intros stamp taskId w' Hop.
    apply (toggleTaskComplete_success _ _ _ _ ts Hts) in Hop
      as (i & o & Hi & _ & E & _).
    exists i, (JObj o). eexists. split; [exact Hi |]. apply listTasks_value, E.
  - apply listTasks_value. now apply (deleteTask_success _ _ _ ts Hts).
  - apply filter_sublist.
  - apply listTasks_value. now apply (clearCompletedTasks_success _ _ ts Hts).
  - apply filter_sublist.
  - intros now suffix stamp task taskId updates w' Hop.
    apply task_operation_failure. destruct Hop as [E | [E | [E | [E | E]]]]; eauto 10.
Qed.

(** ** Identity fields *)

(** C3 (as the code has it).  [updateTask(taskId, updates)] replaces the
    task by the merge of [updates] over it: a field that [updates] does not
    contain keeps its value, so [id] and [createdAt] stay as they were
    whenever [updates] contains neither, and a field that [updates] contains
    takes the caller's value, [id] and [createdAt] included.
    [toggleTaskComplete] leaves [id] and [createdAt] as they were. *)
Theorem identity_fields_kept_unless_supplied (w : World) (ts : list JSValue) :
  fst (listTasks w) = Ret (JArr ts) ->
  (forall taskId updates w',
      wf_obj updates = true ->
      updateTask taskId updates w = (Ret true, w') ->
      exists i o o',
        ts !! i = Some (JObj o) /\ obj_get "id" o = Some (JStr taskId)
        /\ fst (listTasks w') = Ret (JArr (<[i := JObj o']> ts))
        /\ (obj_get "id" updates = None -> obj_get "id" o' = obj_get "id" o)
        /\ (obj_get "createdAt" updates = None ->
            obj_get "createdAt" o' = obj_get "createdAt" o)
        /\ (forall k, obj_get k updates = None -> obj_get k o' = obj_get k o)
        /\ (forall k v, obj_get k updates = Some v -> obj_get k o' = Some v))
  /\ (forall stamp taskId w',
         toggleTaskComplete stamp taskId w = (Ret true, w') ->
         exists i o o',
           ts !! i = Some (JObj o) /\ obj_get "id" o = Some (JStr taskId)
           /\ fst (listTasks w') = Ret (JArr (<[i := JObj o']> ts))
           /\ obj_get "id" o' = obj_get "id" o
           /\ obj_get "createdAt" o' = obj_get "createdAt" o).
Proof.
  intros Hts. apply listTasks_value in Hts. split.
  - intros taskId updates w' Hu Hop.
    apply (updateTask_success _ _ _ _ ts Hts Hu) in Hop
      as (i & o & Hi & Hid & E & _).
    exists i, o, (obj_assign o updates).
    split; [exact Hi |]. split; [exact Hid |].
    split; [apply listTasks_value, E |].
    split; [apply obj_get_assign_None |]. split; [apply obj_get_assign_None |].
    split; [intros k; apply obj_get_assign_None |].
    intros k v. apply obj_get_assign_Some. apply wf_obj_spec in Hu. tauto.
  - intros stamp taskId w' Hop.
    apply (toggleTaskComplete_success _ _ _ _ ts Hts) in Hop
      as (i & o & Hi & Hid & E & _).
    exists i, o, (toggled_task stamp o).
    split; [exact Hi |]. split; [exact Hid |].
    split; [apply listTasks_value, E |].
    unfold toggled_task. rewrite !obj_get_set_ne by discriminate. auto.
Qed.

(** ** Fresh identifiers *)

Definition task_id (now : Z) (suffix : string) : string :=
  "task_" +:+ Z_toString now +:+ "_" +:+ suffix.

Definition category_id (now : Z) : string := "cat_" +:+ Z_toString now.

Lemma Z_toString_inj a b : Z_toString a = Z_toString b -> a = b.
Proof.
  intros E. pose proof (Reference.number_of_literal_toString a) as Ha.
  rewrite E, Reference.number_of_literal_toString in Ha. congruence.
Qed.

Lemma list_ascii_app a b :
  list_ascii_of_string (a +:+ b) = list_ascii_of_string a ++ list_ascii_of_string b.
Proof. induction a as [| c a IH]; simpl; [reflexivity | now rewrite IH]. Qed.

Lemma list_ascii_inj a b : list_ascii_of_string a = list_ascii_of_string b -> a = b.
Proof.
  intros E. rewrite <- (string_of_list_ascii_of_string a), E.
  apply string_of_list_ascii_of_string.
Qed.

(** A separator that occurs in neither prefix splits a text in one way. *)
Lemma split_at_separator (sep : ascii) (l1 l2 r1 r2 : list ascii) :
  sep ∉ l1 -> sep ∉ l2 -> l1 ++ sep :: r1 = l2 ++ sep :: r2 ->
  l1 = l2 /\ r1 = r2.
Proof.
  revert l2. induction l1 as [| c l1 IH]; intros [| c2 l2] H1 H2; simpl.
  - intros [= ->]. auto.
  - intros [= <- _]. exfalso. apply H2. left.
  - intros [= -> _]. exfalso. apply H1. left.
  - intros [= -> E]. apply not_elem_of_cons in H1 as [_ H1].
    apply not_elem_of_cons in H2 as [_ H2].
    destruct (IH _ H1 H2 E) as [-> ->]. auto.
Qed.

Lemma underscore_not_in_number z : "_"%char ∉ list_ascii_of_string (Z_toString z).
Proof.
  destruct (Reference.numchar_toString z) as (c & l & -> & Hf).
  intros Hin. rewrite Forall_forall in Hf. specialize (Hf _ Hin). discriminate.
Qed.

Lemma task_id_inj now suffix now' suffix' :
  task_id now suffix = task_id now' suffix' -> now = now' /\ suffix = suffix'.
Proof.
  unfold task_id. intros E. apply (f_equal list_ascii_of_string) in E.
  rewrite !list_ascii_app in E. apply app_inv_head in E.
  change (list_ascii_of_string "_") with ["_"%char] in E. simpl in E.
  apply split_at_separator in E as [E1 E2]; try apply underscore_not_in_number.
  split; [apply Z_toString_inj | ]; now apply list_ascii_inj.
Qed.

Lemma category_id_inj now now' : category_id now = category_id now' -> now = now'.
Proof.
  unfold category_id. intros E. apply (f_equal list_ascii_of_string) in E.
  rewrite !list_ascii_app in E. apply app_inv_head in E.
  now apply Z_toString_inj, list_ascii_inj.
Qed.

Lemma addCategory_success now category w w' cs :
  wf_world w -> wf_obj category = true ->
  categories_of w = JArr cs ->
  addCategory now category w = (Ret true, w') ->
  categories_of w' = JArr (cs ++ [JObj (new_category now category)]).
Proof.
  intros Hw Hc Hcs Hadd. rewrite addCategory_eq, Hcs in Hadd. simpl in Hadd.
  destruct (some_list _ cs) as [[] | e]; try discriminate.
  assert (wf_value (JArr (cs ++ [JObj (new_category now category)])) = true) as Hwf.
  { pose proof (categories_of_wf w Hw) as Wc. rewrite Hcs in Wc.
    apply wf_arr_spec in Wc. apply wf_arr_spec, Forall_app. split; [exact Wc |].
    repeat constructor. now apply wf_obj_set. }
  apply (saved_stored _ _ _ _ Hwf) in Hadd as (Hst & _).
  unfold categories_of. now rewrite Hst.
Qed.

(** C8 (as the code has it).  [addTask] gives the new task the identifier
    [task_<now>_<suffix>], built from the clock reading and the random
    suffix of the call, and [addCategory] gives the new category the
    identifier [cat_<now>], built from the clock reading alone.  Two task
    identifiers so built are equal only when both the clock reading and the
    suffix are; two category identifiers so built are equal only when the
    clock readings are. *)
Theorem assigned_ids :
  (forall now suffix stamp task w w' ts,
      fst (listTasks w) = Ret (JArr ts) -> wf_obj task = true ->
      addTask now suffix stamp task w = (Ret true, w') ->
      exists t,
        fst (listTasks w') = Ret (JArr (ts ++ [JObj t]))
        /\ obj_get "id" t = Some (JStr (task_id now suffix)))
  /\ (forall now suffix now' suffix',
         task_id now suffix = task_id now' suffix' ->
         now = now' /\ suffix = suffix')
  /\ (forall now category w w' cs,
         wf_world w -> wf_obj category = true ->
         fst (listCategories w) = Ret (JArr cs) ->
         addCategory now category w = (Ret true, w') ->
         exists c,
           fst (listCategories w') = Ret (JArr (cs ++ [JObj c]))
           /\ obj_get "id" c = Some (JStr (category_id now)))
  /\ (forall now now', category_id now = category_id now' -> now = now').
Proof.
  split; [| split; [exact task_id_inj | split; [| exact category_id_inj]]].
  - intros now suffix stamp task w w' ts Hts Ht Hop.
    apply listTasks_value in Hts.
    apply (addTask_success _ _ _ _ _ _ ts Hts Ht) in Hop as (E & _).
    exists (new_task now suffix stamp task).
    split; [apply listTasks_value, E |].
    unfold new_task. rewrite !obj_get_set_ne by discriminate.
    apply obj_get_set_eq.
  - intros now category w w' cs Hw Hc Hcs Hop.
    apply listCategories_value in Hcs.
    apply (addCategory_success _ _ _ _ cs Hw Hc Hcs) in Hop.
    exists (new_category now category).
    split; [apply listCategories_value, Hop | apply obj_get_set_eq].
Qed.

(** ** Completion and its time stamp *)

(** The invariant of the data model: a task that is not completed has no
    [completedAt], a completed task has a [completedAt] not earlier than its
    [createdAt]. *)
Definition completion_invariant (t : JSValue) : Prop :=
  (prop "completed" t = Ret (Some (JBool false)) ->
   prop "completedAt" t = Ret None \/ prop "completedAt" t = Ret (Some JNull))
  /\ (prop "completed" t = Ret (Some (JBool true)) ->
      exists created completed,
        prop "createdAt" t = Ret (Some (JStr (toISOString created)))
        /\ prop "completedAt" t = Ret (Some (JStr (toISOString completed)))
        /\ created <= completed).

(** What the invariant needs to survive a toggle: the task satisfies it and,
    being an object, carries a [createdAt] time not later than [clock]. *)
Definition sound_task (clock : Z) (t : JSValue) : Prop :=
  completion_invariant t
  /\ forall o, t = JObj o ->
               exists created,
                 obj_get "createdAt" o = Some (JStr (toISOString created))
                 /\ created <= clock.

Lemma sound_task_invariant clock t : sound_task clock t -> completion_invariant t.
Proof. now intros [Hi _]. Qed.

Lemma sound_task_later clock clock' t :
  clock <= clock' -> sound_task clock t -> sound_task clock' t.
Proof.
  intros Hle [Hi Hc]. split; [exact Hi |].
  intros o Ho. destruct (Hc o Ho) as (c & Hc1 & Hc2). exists c. split; [auto | lia].
Qed.

(** A session: the latest clock reading so far, and the world.  The clock
    does not run backwards; [updateTask] is given none of [completed],
    [completedAt], [createdAt]; a document that is imported carries tasks
    that satisfy the invariant and were created not later than the clock
    reads. *)
Inductive step : Z * World -> Z * World -> Prop :=
| step_addTask clock w now suffix stamp task :
    wf_obj task = true -> clock <= stamp ->
    step (clock, w) (stamp, snd (addTask now suffix stamp task w))
| step_updateTask clock w taskId updates :
    wf_obj updates = true ->
    obj_get "completed" updates = None ->
    obj_get "completedAt" updates = None ->
    obj_get "createdAt" updates = None ->
    step (clock, w) (clock, snd (updateTask taskId updates w))
| step_toggleTaskComplete clock w stamp taskId :
    clock <= stamp ->
    step (clock, w) (stamp, snd (toggleTaskComplete stamp taskId w))
| step_deleteTask clock w taskId :
    step (clock, w) (clock, snd (deleteTask taskId w))
| step_clearCompletedTasks clock w :
    step (clock, w) (clock, snd (clearCompletedTasks w))
| step_importData clock w jsonData :
    (forall data t,
        JSON_parse jsonData = Some data -> field "tasks" data = Some t ->
        exists ts, t = JArr ts /\ Forall (sound_task clock) ts) ->
    step (clock, w) (clock, snd (importData jsonData w))
| step_addCategory clock w now category :
    step (clock, w) (clock, snd (addCategory now category w))
| step_updateSetting clock w key value :
    step (clock, w) (clock, snd (updateSetting key value w)).

Definition sound (s : Z * World) : Prop :=
  exists ts, tasks_of (snd s) = JArr ts /\ Forall (sound_task (fst s)) ts.

Lemma sound_later clock clock' w :
  clock <= clock' -> sound (clock, w) -> sound (clock', w).
Proof.
  intros Hle (ts & Hts & Hall). exists ts. split; [exact Hts |].
  eapply Forall_impl; [exact Hall |]. intros t. now apply sound_task_later.
Qed.

(** Every operation returns [true] or [false], never throws. *)
Lemma saved_bool k v w : exists b w', saved k v w = (Ret b, w').
Proof. unfold saved. destruct (written _ _ w); eauto. Qed.

Lemma sound_new_task now suffix stamp task :
  sound_task stamp (JObj (new_task now suffix stamp task)).
Proof.
  assert (obj_get "createdAt" (new_task now suffix stamp task)
          = Some (JStr (toISOString stamp))) as Hc
      by (unfold new_task; rewrite !obj_get_set_ne by discriminate;
          apply obj_get_set_eq).
  assert (obj_get "completed" (new_task now suffix stamp task)
          = Some (JBool false)) as Hf
      by (unfold new_task; rewrite obj_get_set_ne by discriminate;
          apply obj_get_set_eq).
  assert (obj_get "completedAt" (new_task now suffix stamp task) = Some JNull)
    as Hn by (unfold new_task; apply obj_get_set_eq).
  split.
  - split; cbn [prop]; rewrite Hf, ?Hn; [auto | discriminate].
  - intros o [= <-]. exists stamp. split; [exact Hc | lia].
Qed.

Lemma sound_toggled clock stamp o :
  clock <= stamp -> sound_task clock (JObj o) ->
  sound_task stamp (JObj (toggled_task stamp o)).
Proof.
  intros Hle [_ Hc]. destruct (Hc o eq_refl) as (c & Hc1 & Hc2).
  assert (obj_get "createdAt" (toggled_task stamp o)
          = Some (JStr (toISOString c))) as Hcreated
      by (unfold toggled_task; now rewrite !obj_get_set_ne by discriminate).
  assert (obj_get "completed" (toggled_task stamp o)
          = Some (JBool (negb (truthy (obj_get "completed" o))))) as Hdone
      by (unfold toggled_task; rewrite obj_get_set_ne by discriminate;
          apply obj_get_set_eq).
  assert (obj_get "completedAt" (toggled_task stamp o)
          = Some (if negb (truthy (obj_get "completed" o))
                  then JStr (toISOString stamp) else JNull)) as Hat
      by (unfold toggled_task; apply obj_get_set_eq).
  split.
  - split; cbn [prop]; rewrite Hdone, Hat, ?Hcreated;
      destruct (negb (truthy (obj_get "completed" o)));
      try discriminate; intros _; [now right |].
    exists c, stamp. repeat split; lia.
  - intros o' [= <-]. exists c. split; [exact Hcreated | lia].
Qed.

Lemma sound_updated clock o updates :
  obj_get "completed" updates = None ->
  obj_get "completedAt" updates = None ->
  obj_get "createdAt" updates = None ->
  sound_task clock (JObj o) -> sound_task clock (JObj (obj_assign o updates)).
Proof.
  intros H1 H2 H3 [Hi Hc]. split.
  - unfold completion_invariant in *. cbn [prop] in *.
    now rewrite !obj_get_assign_None by assumption.
  - intros o' [= <-]. rewrite obj_get_assign_None by assumption. now apply Hc.
Qed.

Lemma task_operation_total w :
  (forall now suffix stamp task,
      exists b w', addTask now suffix stamp task w = (Ret b, w'))
  /\ (forall taskId updates, exists b w', updateTask taskId updates w = (Ret b, w'))
  /\ (forall stamp taskId, exists b w', toggleTaskComplete stamp taskId w = (Ret b, w'))
  /\ (forall taskId, exists b w', deleteTask taskId w = (Ret b, w'))
  /\ (exists b w', clearCompletedTasks w = (Ret b, w')).
Proof.
  repeat split; intros.
  - rewrite addTask_eq. destruct (tasks_of w); eauto using saved_bool.
  - rewrite updateTask_eq.
    destruct (Array_find _ _) as [[[i t] |] | e]; eauto using saved_bool.
  - rewrite toggleTaskComplete_eq.
    destruct (Array_find _ _) as [[[i t] |] | e]; eauto.
    destruct (negb _); eauto. destruct (toggled stamp t); eauto using saved_bool.
  - rewrite deleteTask_eq. destruct (Array_filter _ _) as [r | e]; eauto.
    destruct (Nat.eqb _ _); eauto using saved_bool.
  - rewrite clearCompletedTasks_eq.
    destruct (Array_filter _ _) as [r | e]; eauto using saved_bool.
Qed.

Lemma Forall_List_filter {A} (P : A -> Prop) f (l : list A) :
  Forall P l -> Forall P (List.filter f l).
Proof.
  rewrite !Forall_forall. intros Hall x Hx. apply Hall.
  apply list_elem_of_In. apply list_elem_of_In, filter_In in Hx. tauto.
Qed.

Lemma saved_other k v w k' :
  k <> k' -> stored k' (snd (saved k v w)) = stored k' w.
Proof.
  intros Hne. unfold saved. destruct (written _ _ w) as [w' |] eqn:E; [| reflexivity].
  exact (stored_written_ne _ _ _ _ _ Hne E).
Qed.

Lemma wf_obj_get k (o : JSObject) v :
  wf_obj o = true -> obj_get k o = Some v -> wf_value v = true.
Proof.
  rewrite wf_obj_spec. intros [_ Hall]. induction Hall as [| [k' v'] o Hv _ IH];
    simpl; [discriminate |].
  destruct (String.eqb k k'); [now intros [= <-] | exact IH].
Qed.

(** After an import the tasks are the old ones or those of the document. *)
Lemma importData_tasks jsonData w :
  tasks_of (snd (importData jsonData w)) = tasks_of w
  \/ exists data t,
      JSON_parse jsonData = Some data /\ field "tasks" data = Some t
      /\ tasks_of (snd (importData jsonData w)) = t.
Proof.
  rewrite importData_eq.
  destruct (JSON_parse jsonData) as [data |] eqn:Ep; [| now left].
  cbn [mbind option_bind]. destruct (import_fields data) as [[[t c] s] |] eqn:Ef;
    [| now left].
  destruct data as [| b | n | s0 | xs | o]; try (cbn in Ef; discriminate).
  unfold import_fields in Ef.
  destruct (obj_get "tasks" o) as [t' |] eqn:Et; [| discriminate].
  destruct (obj_get "categories" o) as [c' |]; [| discriminate].
  destruct (truthy (Some t') && truthy (Some c')); [| discriminate].
  injection Ef as -> -> <-.
  assert (wf_value t = true) as Wt.
  { apply (wf_obj_get "tasks" o); [| exact Et]. exact (JSON_parse_wf _ _ Ep). }
  destruct keys_distinct as (Htc & Hts & Hcs).
  cbn [snd imported]. unfold tasks_of.
  assert (forall w0,
             stored STORAGE_KEYS_TASKS
               match (if truthy (obj_get "settings" o)
                      then obj_get "settings" o else None) with
               | Some s => snd (saved STORAGE_KEYS_SETTINGS s w0)
               | None => w0
               end = stored STORAGE_KEYS_TASKS w0) as ->.
  { intros w0. destruct (if truthy _ then _ else _); [| reflexivity].
    apply saved_other. congruence. }
  rewrite saved_other by congruence.
  destruct (saved_cases STORAGE_KEYS_TASKS t w) as [(w' & E & ->) | [_ ->]];
    [| now left].
  right. exists (JObj o), t. cbn [snd]. rewrite (stored_written _ _ _ _ Wt E). auto.
Qed.

Lemma addCategory_tasks now category w :
  tasks_of (snd (addCategory now category w)) = tasks_of w.
Proof.
  rewrite addCategory_eq.
  destruct (Array_some _ _) as [[] | e]; try reflexivity.
  destruct (Array_push _ _) as [cs | e]; [| reflexivity].
  unfold tasks_of. rewrite saved_other by discriminate.
  unfold categories_mutated. destruct (stored STORAGE_KEYS_CATEGORIES w); reflexivity.
Qed.

Lemma updateSetting_tasks key value w :
  tasks_of (snd (updateSetting key value w)) = tasks_of w.
Proof.
  rewrite updateSetting_eq. destruct (assign_key key value _) as [s | e]; [| reflexivity].
  unfold tasks_of. rewrite saved_other by discriminate.
  unfold settings_mutated. destruct (stored STORAGE_KEYS_SETTINGS w); reflexivity.
Qed.

Lemma step_sound s s' : step s s' -> sound s -> sound s'.
Proof.
  intros Hstep. destruct Hstep as
      [clock w now suffix stamp task Ht Hle
      | clock w taskId updates Hu Hc1 Hc2 Hc3
      | clock w stamp taskId Hle
      | clock w taskId | clock w | clock w jsonData Hdoc
      | clock w now category | clock w key value];
    intros (ts & Hts & Hall); simpl in Hts, Hall.
  - destruct (proj1 (task_operation_total w) now suffix stamp task)
      as ([] & w' & E); rewrite E; cbn [snd].
    + apply (addTask_success _ _ _ _ _ _ ts Hts Ht) in E as (E & _).
      eexists. split; [exact E |]. apply Forall_app. split.
      * eapply Forall_impl; [exact Hall |]. intros t. now apply sound_task_later.
      * constructor; [apply sound_new_task | constructor].
    + rewrite (task_operation_failure w w') by eauto 10.
      apply (sound_later clock); [exact Hle |]. now exists ts.
  - destruct (proj1 (proj2 (task_operation_total w)) taskId updates)
      as ([] & w' & E); rewrite E; cbn [snd].
    + apply (updateTask_success _ _ _ _ ts Hts Hu) in E as (i & o & Hi & _ & E & _).
      eexists. split; [exact E |]. apply Forall_insert; [exact Hall |].
      apply sound_updated; auto. exact (Forall_lookup_1 _ _ _ _ Hall Hi).
    + rewrite (task_operation_failure w w') by eauto 10. now exists ts.
  - destruct (proj1 (proj2 (proj2 (task_operation_total w))) stamp taskId)
      as ([] & w' & E); rewrite E; cbn [snd].
    + apply (toggleTaskComplete_success _ _ _ _ ts Hts) in E
        as (i & o & Hi & _ & E & _).
      eexists. split; [exact E |]. apply Forall_insert.
      * eapply Forall_impl; [exact Hall |]. intros t. now apply sound_task_later.
      * apply (sound_toggled clock); [exact Hle |].
        exact (Forall_lookup_1 _ _ _ _ Hall Hi).
    + rewrite (task_operation_failure w w') by eauto 10.
      apply (sound_later clock); [exact Hle |]. now exists ts.
  - destruct (proj1 (proj2 (proj2 (proj2 (task_operation_total w)))) taskId)
      as ([] & w' & E); rewrite E; cbn [snd].
    + apply (deleteTask_success _ _ _ ts Hts) in E as (E & _).
      eexists. split; [exact E |]. now apply Forall_List_filter.
    + rewrite (task_operation_failure w w') by eauto 10. now exists ts.
  - destruct (proj2 (proj2 (proj2 (proj2 (task_operation_total w)))))
      as ([] & w' & E); rewrite E; cbn [snd].
    + apply (clearCompletedTasks_success _ _ ts Hts) in E as (E & _).
      eexists. split; [exact E |]. now apply Forall_List_filter.
    + rewrite (task_operation_failure w w') by eauto 10. now exists ts.
  - destruct (importData_tasks jsonData w) as [E | (data & t & Ep & Ef & E)].
    + exists ts. split; [simpl; congruence | exact Hall].
    + destruct (Hdoc _ _ Ep Ef) as (ts' & -> & Hall').
      exists ts'. split; [exact E | exact Hall'].
  - exists ts. split; [simpl; rewrite addCategory_tasks; exact Hts | exact Hall].
  - exists ts. split; [simpl; rewrite updateSetting_tasks; exact Hts | exact Hall].
Qed.

(** C2 (as the code has it).  In every state that a session reaches from a
    state whose tasks satisfy the invariant and carry a [createdAt] time not
    later than the clock reads, every task satisfies the invariant, provided
    the clock does not run backwards, [updateTask] is given none of
    [completed], [completedAt] and [createdAt] (what it is given it merges
    into the task), and the documents imported carry tasks that satisfy the
    invariant with a [createdAt] time not later than the clock reads (what
    it is given [importData] stores as it is). *)
Theorem reachable_tasks_satisfy_invariant (s s' : Z * World) :
  sound s -> rtc step s s' ->
  exists ts,
    fst (listTasks (snd s')) = Ret (JArr ts) /\ Forall completion_invariant ts.
Proof.
  intros Hs Hreach.
  assert (sound s') as (ts & Hts & Hall).
  { induction Hreach as [| s1 s2 s3 Hstep _ IH]; [exact Hs |].
    apply IH. eapply step_sound; eassumption. }
  exists ts. split; [now apply listTasks_value |].
  eapply Forall_impl; [exact Hall |]. intros t. apply sound_task_invariant.
Qed.

(** ** The derived view *)

Import AppController.

(** A task as the data model has it, as far as sorting by [sortBy] looks:
    [completed] is a boolean, and the key [sortBy] selects is present and of
    its type. *)
Definition typed_task (sortBy : string) (t : JSValue) : Prop :=
  exists o,
    t = JObj o
    /\ (exists b, obj_get "completed" o = Some (JBool b))
    /\ (sortBy = "date" ->
        exists s d, obj_get "dueDate" o = Some (JStr s) /\ Date_parse s = Some d)
    /\ (sortBy = "priority" ->
        exists p, obj_get "priority" o = Some (JStr p)
                  /\ (p = "high" \/ p = "medium" \/ p = "low"))
    /\ (sortBy = "alphabetical" -> exists s, obj_get "title" o = Some (JStr s)).

Definition completed_of (t : JSValue) : bool :=
  match prop "completed" t with
  | Ret c => truthy c
  | Throw _ => false
  end.

(** The time value of [dueDate]. *)
Definition due_of (t : JSValue) : Z :=
  match prop "dueDate" t with
  | Ret d => nan_to_zero (Date_of d)
  | Throw _ => 0
  end.

(** [0] for high, [1] for medium, [2] for low. *)
Definition rank_of (t : JSValue) : Z :=
  match prop "priority" t with
  | Ret p => nan_to_zero (priorityOrder p)
  | Throw _ => 0
  end.

Definition title_of (t : JSValue) : string :=
  match prop "title" t with
  | Ret (Some (JStr s)) => s
  | _ => ""
  end.

Definition secondary (sortBy : string) (a b : JSValue) : Z :=
  if String.eqb sortBy "date" then due_of a - due_of b
  else if String.eqb sortBy "priority" then rank_of a - rank_of b
  else if String.eqb sortBy "alphabetical"
       then localeCompare (title_of a) (title_of b)
  else 0.

(** The comparison on typed tasks: completion first, then the key. *)
Definition order (sortBy : string) (a b : JSValue) : Z :=
  if Bool.eqb (completed_of a) (completed_of b) then secondary sortBy a b
  else if completed_of a then 1 else -1.

Lemma compareTasks_typed sortBy a b :
  typed_task sortBy a -> typed_task sortBy b ->
  compareTasks sortBy a b = Ret (Some (order sortBy a b)).
Proof.
  intros (oa & -> & [ca Hca] & Da & Pa & Ta) (ob & -> & [cb Hcb] & Db & Pb & Tb).
  unfold compareTasks, order, secondary, completed_of, due_of, rank_of, title_of.
  cbn [prop obind]. rewrite Hca, Hcb. cbn [strict_eq truthy].
  destruct (Bool.eqb ca cb); cbn [negb]; [| reflexivity].
  destruct (String.eqb_spec sortBy "date") as [E | _].
  { destruct (Da E) as (sa & da & -> & Hda). destruct (Db E) as (sb & db & -> & Hdb).
    cbn [Date_of]. rewrite Hda, Hdb. reflexivity. }
  destruct (String.eqb_spec sortBy "priority") as [E | _].
  { destruct (Pa E) as (pa & -> & Hpa). destruct (Pb E) as (pb & -> & Hpb).
    destruct Hpa as [-> | [-> | ->]], Hpb as [-> | [-> | ->]]; reflexivity. }
  destruct (String.eqb_spec sortBy "alphabetical") as [E | _]; [| reflexivity].
  destruct (Ta E) as (sa & ->). destruct (Tb E) as (sb & ->). reflexivity.
Qed.

Lemma insert_typed sortBy x l :
  typed_task sortBy x -> Forall (typed_task sortBy) l ->
  insert (compareTasks sortBy) x l = Ret (insert_by (order sortBy) x l).
Proof.
  intros Hx Hl. induction Hl as [| y l Hy _ IH]; [reflexivity |].
  cbn [insert insert_by]. rewrite (compareTasks_typed _ _ _ Hx Hy).
  cbn [obind nan_to_zero]. destruct (0 <? order sortBy x y); [| reflexivity].
  rewrite IH. reflexivity.
Qed.

Lemma Array_sort_typed sortBy l :
  Forall (typed_task sortBy) l ->
  Array_sort (compareTasks sortBy) l = Ret (sort_by (order sortBy) l).
Proof.
  induction 1 as [| x l Hx Hl IH]; [reflexivity |].
  cbn [Array_sort sort_by]. rewrite IH. cbn [obind].
  apply insert_typed; [exact Hx | now apply sort_by_Forall].
Qed.

Lemma secondary_antisym sortBy a b :
  Z.sgn (secondary sortBy b a) = - Z.sgn (secondary sortBy a b).
Proof.
  unfold secondary.
  destruct (String.eqb sortBy "date");
    [rewrite <- Z.sgn_opp; f_equal; lia |].
  destruct (String.eqb sortBy "priority");
    [rewrite <- Z.sgn_opp; f_equal; lia |].
  destruct (String.eqb sortBy "alphabetical");
    [apply localeCompare_antisym | reflexivity].
Qed.

Lemma secondary_trans sortBy a b d :
  secondary sortBy a b <= 0 -> secondary sortBy b d <= 0 -> secondary sortBy a d <= 0.
Proof.
  unfold secondary.
  destruct (String.eqb sortBy "date"); [lia |].
  destruct (String.eqb sortBy "priority"); [lia |].
  destruct (String.eqb sortBy "alphabetical"); [apply localeCompare_trans | lia].
Qed.

Lemma order_antisym sortBy a b :
  Z.sgn (order sortBy b a) = - Z.sgn (order sortBy a b).
Proof.
  unfold order. destruct (completed_of a), (completed_of b); simpl;
    auto using secondary_antisym.
Qed.

Lemma order_trans sortBy a b d :
  order sortBy a b <= 0 -> order sortBy b d <= 0 -> order sortBy a d <= 0.
Proof.
  unfold order. destruct (completed_of a), (completed_of b), (completed_of d);
    simpl; try lia; apply secondary_trans.
Qed.


(** A list sorted by [order] is its pending tasks followed by its completed
    tasks. *)
Lemma sorted_groups sortBy l :
  StronglySorted (fun a b => order sortBy a b <= 0) l ->
  exists pending done,
    l = pending ++ done
    /\ Forall (fun t => completed_of t = false) pending
    /\ Forall (fun t => completed_of t = true) done.
Proof.
  induction 1 as [| x l _ IH Hx].
  - exists [], []. repeat split; constructor.
  - destruct (completed_of x) eqn:Ex.
    + exists [], (x :: l). repeat split; [constructor |].
      constructor; [exact Ex |]. eapply Forall_impl; [exact Hx |].
      intros y. unfold order. rewrite Ex.
      destruct (completed_of y); [reflexivity | simpl; lia].
    + destruct IH as (pending & done & -> & Hp & Hd).
      exists (x :: pending), done. repeat split; [| exact Hd]. now constructor.
Qed.

(** Whether [y] is in the completion group of [t] and ties with it under the
    key that [sortBy] selects. *)
Definition ties (sortBy : string) (t y : JSValue) : bool :=
  Bool.eqb (completed_of t) (completed_of y) && (secondary sortBy t y =? 0).

Lemma ties_order sortBy t y : (order sortBy t y =? 0) = ties sortBy t y.
Proof.
  unfold order, ties. destruct (Bool.eqb _ _); [reflexivity |].
  destruct (completed_of t); reflexivity.
Qed.


End Properties.

(** * The store over the life of a page *)

Section Lifecycle.
Context `{JH : JSONHost} `{SH : StringHost} `{DH : DateHost}.

(** ** The probe *)

Definition PROBE_KEY : string := "__localStorage_test__".

(** The probe returns; when it returns [true] the store is accessible and no
    item is left under the probe's key, and in either case every other item
    and the two defaults are as before. *)
Lemma probe_outcome w :
  exists b w',
    isLocalStorageAvailable w = (Ret b, w')
    /\ (forall k, k <> PROBE_KEY -> slot k w' = slot k w)
    /\ DEFAULT_CATEGORIES w' = DEFAULT_CATEGORIES w
    /\ DEFAULT_SETTINGS w' = DEFAULT_SETTINGS w
    /\ (b = true ->
        (exists cap, access (storage w') = Quota cap) /\ slot PROBE_KEY w' = None)
    /\ (b = false -> w' = w).
Proof.
  rewrite isLocalStorageAvailable_eq. fold PROBE_KEY.
  destruct (written PROBE_KEY PROBE_KEY w) as [w1 |] eqn:E.
  - apply written_access in E as (cap & Ha & ->).
    eexists true, _. split; [reflexivity |]. unfold slot. simpl. rewrite Ha.
    split; [intros k Hk; now rewrite lookup_delete_ne, lookup_insert_ne by congruence |].
    split; [reflexivity |]. split; [reflexivity |].
    split; [intros _; split; [eauto | apply lookup_delete_eq] | discriminate].
  - exists false, w. repeat split; auto; discriminate.
Qed.

(** ** [initialize] *)

(** [initialize] on one slot: a slot without text receives the default. *)
Definition filled (k : string) (v : JSValue) (w : World) : World :=
  if text_truthy (slot k w) then w else snd (saved k v w).

Lemma saved_frame k v w :
  (forall k', k <> k' -> slot k' (snd (saved k v w)) = slot k' w)
  /\ access (storage (snd (saved k v w))) = access (storage w)
  /\ DEFAULT_CATEGORIES (snd (saved k v w)) = DEFAULT_CATEGORIES w
  /\ DEFAULT_SETTINGS (snd (saved k v w)) = DEFAULT_SETTINGS w.
Proof.
  unfold saved. destruct (written _ _ w) as [w' |] eqn:E; [| simpl; auto].
  apply written_access in E as (cap & Ha & ->). unfold slot. simpl. rewrite Ha.
  repeat split; auto. intros k' Hk. now rewrite lookup_insert_ne.
Qed.

Lemma filled_frame k v w :
  (forall k', k <> k' -> slot k' (filled k v w) = slot k' w)
  /\ access (storage (filled k v w)) = access (storage w)
  /\ DEFAULT_CATEGORIES (filled k v w) = DEFAULT_CATEGORIES w
  /\ DEFAULT_SETTINGS (filled k v w) = DEFAULT_SETTINGS w.
Proof.
  unfold filled. destruct (text_truthy _); [auto | apply saved_frame].
Qed.

Lemma filled_kept k v w s :
  slot k w = Some s -> s <> "" -> slot k (filled k v w) = Some s.
Proof.
  intros Hs Hne. unfold filled. rewrite Hs. simpl.
  destruct (String.eqb_spec s ""); [contradiction | exact Hs].
Qed.

(** What [initialize] amounts to: the probe, then the three slots in turn. *)
Definition initialized (w : World) : World :=
  match isLocalStorageAvailable w with
  | (Ret true, w0) =>
      let w1 := filled STORAGE_KEYS_TASKS (JArr []) w0 in
      let w2 := filled STORAGE_KEYS_CATEGORIES (DEFAULT_CATEGORIES w1) w1 in
      filled STORAGE_KEYS_SETTINGS (DEFAULT_SETTINGS w2) w2
  | (_, w0) => w0
  end.

Lemma fill_run k v (save : JS bool) w :
  save w = saved k v w ->
  exists b,
    (if negb (text_truthy (slot k w)) then save else ret true) w
    = (Ret b, filled k v w).
Proof.
  intros Hsave. unfold filled. destruct (text_truthy (slot k w)); simpl; [eauto |].
  rewrite Hsave. destruct (saved_Ret k v w) as [b Hb].
  exists b. destruct (saved k v w) as [r w']. simpl in *. now subst.
Qed.

Lemma initialize_eq w : initialize w = (Ret tt, initialized w).
Proof.
  unfold initialize, initialized, bind.
  destruct (probe_outcome w) as (b & w0 & -> & _ & _ & _ & Htrue & _).
  destruct b; [| reflexivity]. destruct (Htrue eq_refl) as [[cap Ha] _].
  cbn [negb]. unfold try_catch, bind.
  set (w1 := filled STORAGE_KEYS_TASKS (JArr []) w0).
  set (w2 := filled STORAGE_KEYS_CATEGORIES (DEFAULT_CATEGORIES w1) w1).
  assert (access (storage w1) = Quota cap) as Ha1
      by (subst w1; now rewrite (proj1 (proj2 (filled_frame _ _ _)))).
  assert (access (storage w2) = Quota cap) as Ha2
      by (subst w2; now rewrite (proj1 (proj2 (filled_frame _ _ _)))).
  rewrite getItem_slot, Ha.
  destruct (fill_run STORAGE_KEYS_TASKS (JArr []) (saveTasks (JArr [])) w0
              (saveTasks_saved _ _)) as [b1 ->]. fold w1.
  rewrite getItem_slot, Ha1.
  destruct (fill_run STORAGE_KEYS_CATEGORIES (DEFAULT_CATEGORIES w1)
              (d <- deref DefaultCategoriesRef ;; saveCategories d) w1
              (saveCategories_saved _ _)) as [b2 E2].
  unfold bind in E2. rewrite E2. fold w2.
  rewrite getItem_slot, Ha2.
  destruct (fill_run STORAGE_KEYS_SETTINGS (DEFAULT_SETTINGS w2)
              (d <- deref DefaultSettingsRef ;; saveSettings d) w2
              (saveSettings_saved _ _)) as [b3 E3].
  unfold bind in E3. rewrite E3. reflexivity.
Qed.

Lemma stored_slot k w w' : slot k w' = slot k w -> stored k w' = stored k w.
Proof. unfold stored. now intros ->. Qed.

Lemma stored_falsy k w : text_truthy (slot k w) = false -> stored k w = None.
Proof.
  unfold stored, text_truthy. destruct (slot k w) as [s |]; [| reflexivity].
  destruct (String.eqb s ""); [reflexivity | discriminate].
Qed.

(** The three collections depend on the three slots and the two defaults. *)
Lemma collections_frame w w' :
  slot STORAGE_KEYS_TASKS w' = slot STORAGE_KEYS_TASKS w ->
  slot STORAGE_KEYS_CATEGORIES w' = slot STORAGE_KEYS_CATEGORIES w ->
  slot STORAGE_KEYS_SETTINGS w' = slot STORAGE_KEYS_SETTINGS w ->
  DEFAULT_CATEGORIES w' = DEFAULT_CATEGORIES w ->
  DEFAULT_SETTINGS w' = DEFAULT_SETTINGS w ->
  tasks_of w' = tasks_of w /\ categories_of w' = categories_of w
  /\ settings_of w' = settings_of w.
Proof.
  intros Ht Hc Hs Hdc Hds. unfold tasks_of, categories_of, settings_of.
  rewrite (stored_slot _ _ _ Ht), (stored_slot _ _ _ Hc), (stored_slot _ _ _ Hs).
  rewrite Hdc, Hds. auto.
Qed.

(** Filling a slot with the value its getter falls back to shows in none of
    the collections. *)
Lemma filled_collections k v w :
  wf_value v = true ->
  (k = STORAGE_KEYS_TASKS /\ v = JArr [])
  \/ (k = STORAGE_KEYS_CATEGORIES /\ v = DEFAULT_CATEGORIES w)
  \/ (k = STORAGE_KEYS_SETTINGS /\ v = DEFAULT_SETTINGS w) ->
  tasks_of (filled k v w) = tasks_of w
  /\ categories_of (filled k v w) = categories_of w
  /\ settings_of (filled k v w) = settings_of w.
Proof.
  intros Hwf Hk. unfold filled.
  destruct (text_truthy (slot k w)) eqn:E; [auto |].
  apply stored_falsy in E. apply resaved; [exact Hwf |].
  unfold tasks_of, categories_of, settings_of.
  destruct Hk as [[-> ->] | [[-> ->] | [-> ->]]]; rewrite E; auto.
Qed.

Lemma initialized_collections w :
  wf_world w ->
  tasks_of (initialized w) = tasks_of w
  /\ categories_of (initialized w) = categories_of w
  /\ settings_of (initialized w) = settings_of w
  /\ DEFAULT_CATEGORIES (initialized w) = DEFAULT_CATEGORIES w
  /\ DEFAULT_SETTINGS (initialized w) = DEFAULT_SETTINGS w.
Proof.
  intros [Wc Ws]. unfold initialized.
  destruct (probe_outcome w) as (b & w0 & -> & Hslot & Hdc & Hds & _ & Hfalse).
  assert (tasks_of w0 = tasks_of w /\ categories_of w0 = categories_of w
          /\ settings_of w0 = settings_of w) as (T0 & C0 & S0)
      by (apply collections_frame; auto; apply Hslot; discriminate).
  destruct b; [| auto].
  set (w1 := filled STORAGE_KEYS_TASKS (JArr []) w0).
  set (w2 := filled STORAGE_KEYS_CATEGORIES (DEFAULT_CATEGORIES w1) w1).
  set (w3 := filled STORAGE_KEYS_SETTINGS (DEFAULT_SETTINGS w2) w2).
  destruct (filled_frame STORAGE_KEYS_TASKS (JArr []) w0) as (_ & _ & Hdc1 & Hds1).
  destruct (filled_frame STORAGE_KEYS_CATEGORIES (DEFAULT_CATEGORIES w1) w1)
    as (_ & _ & Hdc2 & Hds2).
  destruct (filled_frame STORAGE_KEYS_SETTINGS (DEFAULT_SETTINGS w2) w2)
    as (_ & _ & Hdc3 & Hds3).
  fold w1 in Hdc1, Hds1. fold w2 in Hdc2, Hds2. fold w3 in Hdc3, Hds3.
  destruct (filled_collections STORAGE_KEYS_TASKS (JArr []) w0 eq_refl)
    as (T1 & C1 & S1); [auto |].
  destruct (filled_collections STORAGE_KEYS_CATEGORIES (DEFAULT_CATEGORIES w1) w1)
    as (T2 & C2 & S2); [congruence | auto |].
  destruct (filled_collections STORAGE_KEYS_SETTINGS (DEFAULT_SETTINGS w2) w2)
    as (T3 & C3 & S3); [congruence | auto |].
  fold w1 in T1, C1, S1. fold w2 in T2, C2, S2. fold w3 in T3, C3, S3.
  repeat split; congruence.
Qed.

(** [initialize] returns without throwing, and each of the three getters
    returns after it what it returned before it: a slot that [initialize]
    fills receives the very value the getter fell back to while the slot
    was empty.  The two in-memory defaults are not modified. *)
Theorem initialize_keeps_collections (w : World) :
  wf_world w ->
  fst (initialize w) = Ret tt
  /\ fst (listTasks (snd (initialize w))) = fst (listTasks w)
  /\ fst (listCategories (snd (initialize w))) = fst (listCategories w)
  /\ fst (listSettings (snd (initialize w))) = fst (listSettings w)
  /\ DEFAULT_CATEGORIES (snd (initialize w)) = DEFAULT_CATEGORIES w
  /\ DEFAULT_SETTINGS (snd (initialize w)) = DEFAULT_SETTINGS w.
Proof.
  intros Hw. rewrite initialize_eq. cbn [fst snd].
  destruct (initialized_collections w Hw) as (T & C & S & Hdc & Hds).
  rewrite !listTasks_of, !listCategories_of, !listSettings_of. cbn [fst].
  rewrite T, C, S. repeat split; assumption.
Qed.

Lemma filled_slot k k' v w s :
  slot k' w = Some s -> s <> "" \/ k <> k' -> slot k' (filled k v w) = Some s.
Proof.
  intros Hs [Hne | Hk].
  - destruct (String.eqb_spec k k') as [-> | Hk]; [now apply filled_kept |].
    now rewrite (proj1 (filled_frame k v w)).
  - now rewrite (proj1 (filled_frame k v w)).
Qed.

(** [initialize] writes into a slot only when the slot holds no text: an
    item under one of the three keys that holds text, parsable or not, keeps
    it, and so does every item under another key, the key of the probe
    excepted. *)
Theorem initialize_never_overwrites (w : World) (k s : string) :
  k <> PROBE_KEY -> slot k w = Some s ->
  s <> ""
  \/ (k <> STORAGE_KEYS_TASKS /\ k <> STORAGE_KEYS_CATEGORIES
      /\ k <> STORAGE_KEYS_SETTINGS) ->
  slot k (snd (initialize w)) = Some s.
Proof.
  intros Hk Hs Hcase. rewrite initialize_eq. cbn [snd]. unfold initialized.
  destruct (probe_outcome w) as (b & w0 & -> & Hslot & _).
  rewrite <- (Hslot k Hk) in Hs. destruct b; [| exact Hs].
  repeat apply filled_slot; try exact Hs;
    (destruct Hcase as [Hne | (Ht & Hc & Hst)]; [now left | right; congruence]).
Qed.

(** ** [clearAllData] *)

(** The world after the three [removeItem] calls. *)
Definition removed (cap : N) (w : World) : World :=
  with_storage
    {| items := delete STORAGE_KEYS_SETTINGS
                  (delete STORAGE_KEYS_CATEGORIES
                     (delete STORAGE_KEYS_TASKS (items (storage w))));
       access := Quota cap |} w.

Lemma clearAllData_eq w :
  clearAllData w
  = match access (storage w) with
    | Denied => (Ret false, w)
    | Quota cap => (Ret true, initialized (removed cap w))
    end.
Proof.
  unfold clearAllData, try_catch, bind, localStorage_removeItem.
  destruct (access (storage w)) as [| cap] eqn:Ha; [reflexivity |].
  cbn [storage access items with_storage]. rewrite initialize_eq. reflexivity.
Qed.

(** With the store accessible, [clearAllData] returns [true] and the
    getters then return the empty task list and the two in-memory defaults
    as they are at that moment, whether or not [initialize] could write them
    back; with access denied it returns [false] and changes nothing. *)
Theorem clearAllData_resets_to_defaults (w : World) :
  wf_world w ->
  (access (storage w) = Denied -> clearAllData w = (Ret false, w))
  /\ (forall cap, access (storage w) = Quota cap ->
        fst (clearAllData w) = Ret true
        /\ fst (listTasks (snd (clearAllData w))) = Ret (JArr [])
        /\ fst (listCategories (snd (clearAllData w))) = Ret (DEFAULT_CATEGORIES w)
        /\ fst (listSettings (snd (clearAllData w))) = Ret (DEFAULT_SETTINGS w)).
Proof.
  intros Hw. rewrite clearAllData_eq. split; [now intros -> |].
  intros cap ->. cbn [fst snd].
  assert (wf_world (removed cap w)) as Hw' by exact Hw.
  destruct (initialized_collections _ Hw') as (T & C & S & _).
  rewrite listTasks_of, listCategories_of, listSettings_of. cbn [fst].
  rewrite T, C, S. unfold tasks_of, categories_of, settings_of, stored, slot.
  cbn [removed with_storage storage access items DEFAULT_CATEGORIES DEFAULT_SETTINGS].
  rewrite lookup_delete_ne, lookup_delete_ne, lookup_delete_eq by discriminate.
  rewrite lookup_delete_ne, lookup_delete_eq by discriminate.
  rewrite lookup_delete_eq. auto.
Qed.

End Lifecycle.

(** * Looking tasks and categories up *)

Section Lookup.
Context `{JH : JSONHost} `{SH : StringHost} `{DH : DateHost}.

Lemma find_from_none p i l :
  Forall (fun t => p t = Ret false) l -> find_from p i l = Ret None.
Proof.
  intros Hall. revert i. induction Hall as [| x l Hx _ IH]; intros i; simpl;
    [reflexivity |].
  rewrite Hx. simpl. apply IH.
Qed.

Lemma find_from_first p i l1 x l2 :
  Forall (fun t => p t = Ret false) l1 -> p x = Ret true ->
  find_from p i (l1 ++ x :: l2) = Ret (Some ((i + length l1)%nat, x)).
Proof.
  intros Hall Hx. revert i. induction Hall as [| y l1 Hy _ IH]; intros i; simpl.
  - rewrite Hx. simpl. now rewrite Nat.add_0_r.
  - rewrite Hy. simpl. rewrite IH. now rewrite Nat.add_succ_r.
Qed.

(** What [find] returns is the first element that satisfies the test. *)
Lemma find_from_split p i l j t :
  find_from p i l = Ret (Some (j, t)) ->
  exists l1 l2,
    l = l1 ++ t :: l2 /\ j = (i + length l1)%nat
    /\ Forall (fun y => p y = Ret false) l1 /\ p t = Ret true.
Proof.
  revert i. induction l as [| x l IH]; intros i; simpl; [discriminate |].
  destruct (p x) as [[] | e] eqn:E; simpl; try discriminate.
  - intros [= <- <-]. exists [], l. simpl. rewrite Nat.add_0_r. auto.
  - intros Hf. destruct (IH _ Hf) as (l1 & l2 & -> & -> & Hall & Ht).
    exists (x :: l1), l2. simpl. rewrite Nat.add_succ_r. repeat split; auto.
Qed.

Lemma filter_list_all p l :
  Forall (fun t => p t = Ret true) l -> filter_list p l = Ret l.
Proof.
  induction 1 as [| x l Hx _ IH]; simpl; [reflexivity |].
  now rewrite Hx, IH.
Qed.

Lemma getTaskById_eq taskId w :
  getTaskById taskId w
  = (Ret match Array_find (has_id taskId) (tasks_of w) with
         | Ret (Some (_, t)) => if truthy (Some t) then t else JNull
         | _ => JNull
         end, w).
Proof.
  unfold getTaskById, try_catch, bind, lift. rewrite getTasks_stored.
  fold (tasks_of w). destruct (Array_find _ _) as [[[i t] |] | e]; reflexivity.
Qed.

Lemma getCategoryById_eq categoryId w :
  getCategoryById categoryId w
  = (Ret match Array_find (has_id categoryId) (categories_of w) with
         | Ret (Some (_, c)) => if truthy (Some c) then c else JNull
         | _ => JNull
         end, w).
Proof.
  unfold getCategoryById, try_catch, bind, lift, deref.
  rewrite getCategories_stored. unfold categories_of.
  destruct (stored STORAGE_KEYS_CATEGORIES w) as [v |]; simpl;
    destruct (Array_find _ _) as [[[i t] |] | e]; reflexivity.
Qed.

Lemma getTaskById_absent taskId w ts :
  tasks_of w = JArr ts ->
  Forall (fun t => has_id taskId t = Ret false) ts ->
  getTaskById taskId w = (Ret JNull, w).
Proof.
  intros Hts Hall. rewrite getTaskById_eq, Hts. cbn [Array_find].
  now rewrite find_from_none.
Qed.

Lemma deleteTask_absent taskId w ts :
  tasks_of w = JArr ts ->
  Forall (fun t => has_id taskId t = Ret false) ts ->
  deleteTask taskId w = (Ret false, w).
Proof.
  intros Hts Hall. rewrite deleteTask_eq, Hts. cbn [Array_filter].
  rewrite filter_list_all.
  - cbn [obind Array_length]. now rewrite Nat.eqb_refl.
  - eapply Forall_impl; [exact Hall |]. intros t Ht. cbn beta. now rewrite Ht.
Qed.

(** When no stored task bears the identifier (each task is an object, or at
    least not [null], and its [id] is not the identifier), [getTaskById]
    returns [null], and [updateTask], [toggleTaskComplete] and [deleteTask]
    return [false]; none of them changes the world. *)
Theorem absent_id_is_reported (taskId : string) (w : World) (ts : list JSValue) :
  fst (listTasks w) = Ret (JArr ts) ->
  Forall (fun t => has_id taskId t = Ret false) ts ->
  getTaskById taskId w = (Ret JNull, w)
  /\ (forall updates, updateTask taskId updates w = (Ret false, w))
  /\ (forall stamp, toggleTaskComplete stamp taskId w = (Ret false, w))
  /\ deleteTask taskId w = (Ret false, w).
Proof.
  intros Hts Hall. apply listTasks_value in Hts.
  assert (Array_find (has_id taskId) (JArr ts) = Ret None) as Hf
      by now apply find_from_none.
  split; [now apply (getTaskById_absent _ _ ts) |].
  split; [intros updates; rewrite updateTask_eq, Hts, Hf; reflexivity |].
  split; [intros stamp; rewrite toggleTaskComplete_eq, Hts, Hf; reflexivity |].
  now apply (deleteTask_absent _ _ ts).
Qed.

(** After a successful [addTask], [getTaskById] of the identifier it built
    returns the task just stored, provided no task stored before bears that
    identifier: the caller's fields, except that [id], [createdAt],
    [completed] and [completedAt] are the ones [addTask] sets, whatever the
    caller supplied under these names. *)
Theorem added_task_is_found (now : Z) (suffix : string) (stamp : Z)
    (task : JSObject) (w w' : World) (ts : list JSValue) :
  fst (listTasks w) = Ret (JArr ts) -> wf_obj task = true ->
  Forall (fun t => has_id (task_id now suffix) t = Ret false) ts ->
  addTask now suffix stamp task w = (Ret true, w') ->
  exists t,
    getTaskById (task_id now suffix) w' = (Ret (JObj t), w')
    /\ obj_get "id" t = Some (JStr (task_id now suffix))
    /\ obj_get "createdAt" t = Some (JStr (toISOString stamp))
    /\ obj_get "completed" t = Some (JBool false)
    /\ obj_get "completedAt" t = Some JNull
    /\ forall k, k <> "id" -> k <> "createdAt" -> k <> "completed" ->
                 k <> "completedAt" -> obj_get k t = obj_get k task.
Proof.
  intros Hts Ht Hall Hadd. apply listTasks_value in Hts.
  apply (addTask_success _ _ _ _ _ _ ts Hts Ht) in Hadd as (E & _).
  exists (new_task now suffix stamp task).
  assert (obj_get "id" (new_task now suffix stamp task)
          = Some (JStr (task_id now suffix))) as Hid.
  { unfold new_task. rewrite !obj_get_set_ne by discriminate. apply obj_get_set_eq. }
  split; [| split; [exact Hid |]].
  - rewrite getTaskById_eq, E. cbn [Array_find].
    rewrite (find_from_first _ _ ts _ [] Hall); [reflexivity |].
    unfold has_id. cbn [prop obind]. rewrite Hid. cbn [strict_eq].
    now rewrite String.eqb_refl.
  - unfold new_task.
    split; [rewrite !obj_get_set_ne by discriminate; apply obj_get_set_eq |].
    split; [rewrite obj_get_set_ne by discriminate; apply obj_get_set_eq |].
    split; [apply obj_get_set_eq |].
    intros k H1 H2 H3 H4. rewrite !obj_get_set_ne by congruence. reflexivity.
Qed.

Lemma other_than_spec taskId t :
  other_than taskId t = true <-> has_id taskId t = Ret false.
Proof.
  unfold other_than. destruct (has_id taskId t) as [[] | e]; split;
    congruence.
Qed.

Lemma Forall_filtered {A} (f : A -> bool) (l : list A) :
  Forall (fun x => f x = true) (List.filter f l).
Proof.
  apply Forall_forall. intros x Hx.
  apply list_elem_of_In, filter_In in Hx. tauto.
Qed.

(** After a successful [deleteTask] no stored task bears the identifier,
    however many did: [getTaskById] returns [null], a second [deleteTask]
    returns [false] and changes nothing, and the stored list is shorter. *)
Theorem deleted_task_is_gone (taskId : string) (w w' : World) (ts : list JSValue) :
  fst (listTasks w) = Ret (JArr ts) ->
  deleteTask taskId w = (Ret true, w') ->
  getTaskById taskId w' = (Ret JNull, w')
  /\ deleteTask taskId w' = (Ret false, w')
  /\ exists ts',
      fst (listTasks w') = Ret (JArr ts')
      /\ Forall (fun t => has_id taskId t = Ret false) ts'
      /\ (length ts' < length ts)%nat.
Proof.
  intros Hts Hdel. apply listTasks_value in Hts.
  pose proof (deleteTask_success _ _ _ ts Hts Hdel) as (E & _).
  assert (Forall (fun t => has_id taskId t = Ret false)
                 (List.filter (other_than taskId) ts)) as Hall.
  { eapply Forall_impl; [apply Forall_filtered |].
    intros t. apply other_than_spec. }
  assert (length (List.filter (other_than taskId) ts) < length ts)%nat as Hlen.
  { rewrite deleteTask_eq, Hts in Hdel. cbn [Array_filter] in Hdel.
    destruct (filter_list _ ts) as [r | e] eqn:Ef; [| discriminate].
    cbn [obind Array_length] in Hdel.
    destruct (Nat.eqb_spec (length r) (length ts)) as [| Hne]; [discriminate |].
    apply filter_list_Ret in Ef as [-> _].
    rewrite (List.filter_ext _ (other_than taskId)) in Hne.
    - pose proof (List.filter_length_le (other_than taskId) ts). lia.
    - intros t. unfold other_than. destruct (has_id taskId t) as [[] | e];
        reflexivity. }
  split; [exact (getTaskById_absent _ _ _ E Hall) |].
  split; [exact (deleteTask_absent _ _ _ E Hall) |].
  eexists. split; [apply listTasks_value, E |]. split; [exact Hall | exact Hlen].
Qed.

Lemma insert_middle {A} (l1 : list A) (x y : A) (l2 : list A) :
  <[length l1 := y]> (l1 ++ x :: l2) = l1 ++ y :: l2.
Proof. induction l1 as [| a l1 IH]; simpl; [reflexivity | now rewrite IH]. Qed.

(** The element that [find] and [findIndex] stop at, in an array of which
    this element was replaced by one that passes the test as well. *)
Lemma Array_find_replaced p ts i t t' :
  Array_find p (JArr ts) = Ret (Some (i, t)) -> p t' = Ret true ->
  Array_find p (JArr (<[i := t']> ts)) = Ret (Some (i, t')).
Proof.
  cbn [Array_find]. intros Hf Ht'.
  apply find_from_split in Hf as (l1 & l2 & -> & -> & Hall & _).
  cbn [Nat.add]. rewrite insert_middle. now apply (find_from_first p 0%nat).
Qed.

Lemma has_id_obj taskId o :
  obj_get "id" o = Some (JStr taskId) -> has_id taskId (JObj o) = Ret true.
Proof.
  intros Hid. unfold has_id. cbn [prop obind]. rewrite Hid. cbn [strict_eq].
  now rewrite String.eqb_refl.
Qed.

(** [updateTask] changes the task that [getTaskById] returns, the first one
    that bears the identifier: when the update succeeds and does not supply
    an [id], [getTaskById] afterwards returns that task with every supplied
    field at the caller's value and every other field as it was. *)
Theorem updated_task_is_found (taskId : string) (updates : JSObject)
    (w w' : World) (ts : list JSValue) :
  fst (listTasks w) = Ret (JArr ts) -> wf_obj updates = true ->
  obj_get "id" updates = None ->
  updateTask taskId updates w = (Ret true, w') ->
  exists o o',
    getTaskById taskId w = (Ret (JObj o), w)
    /\ getTaskById taskId w' = (Ret (JObj o'), w')
    /\ (forall k v, obj_get k updates = Some v -> obj_get k o' = Some v)
    /\ (forall k, obj_get k updates = None -> obj_get k o' = obj_get k o).
Proof.
  intros Hts Hu Hnoid Hup. apply listTasks_value in Hts.
  rewrite updateTask_eq, Hts in Hup.
  destruct (Array_find _ _) as [[[i t] |] | e] eqn:Ef; try discriminate.
  pose proof (Array_find_has_id _ _ _ _ Ef) as (o & -> & Hi & Hid).
  pose proof (tasks_of_wf w) as Wt. rewrite Hts in Wt.
  pose proof (wf_lookup _ _ _ Wt Hi) as Wo.
  cbn [own_props Array_set] in Hup. rewrite (obj_spread_wf _ _ Wo) in Hup.
  assert (obj_get "id" (obj_assign o updates) = Some (JStr taskId)) as Hid'
      by now rewrite obj_get_assign_None.
  apply saved_tasks in Hup as (E & _).
  2:{ apply wf_insert; [exact Wt |]. apply wf_obj_assign; [exact Wo |].
      apply wf_obj_spec in Hu. tauto. }
  exists o, (obj_assign o updates).
  split; [rewrite getTaskById_eq, Hts, Ef; reflexivity |].
  split; [rewrite getTaskById_eq, E,
            (Array_find_replaced _ _ _ _ _ Ef (has_id_obj _ _ Hid')); reflexivity |].
  split; [| intros k; apply obj_get_assign_None].
  intros k v. apply obj_get_assign_Some. apply wf_obj_spec in Hu. tauto.
Qed.

(** [getCategoryById] returns [null] for an identifier that no category
    bears; and after a successful [addCategory] it returns, for the
    identifier built, the category just added with the caller's fields,
    provided no category bore that identifier before. *)
Theorem category_lookup (w : World) (cs : list JSValue) :
  fst (listCategories w) = Ret (JArr cs) ->
  (forall categoryId,
      Forall (fun c => has_id categoryId c = Ret false) cs ->
      getCategoryById categoryId w = (Ret JNull, w))
  /\ (forall now category w',
         wf_world w -> wf_obj category = true ->
         Forall (fun c => has_id (category_id now) c = Ret false) cs ->
         addCategory now category w = (Ret true, w') ->
         exists c,
           getCategoryById (category_id now) w' = (Ret (JObj c), w')
           /\ obj_get "id" c = Some (JStr (category_id now))
           /\ forall k, k <> "id" -> obj_get k c = obj_get k category).
Proof.
  intros Hcs. apply listCategories_value in Hcs. split.
  - intros categoryId Hall. rewrite getCategoryById_eq, Hcs. cbn [Array_find].
    now rewrite find_from_none.
  - intros now category w' Hw Hc Hall Hadd.
    apply (addCategory_success _ _ _ _ cs Hw Hc Hcs) in Hadd.
    exists (new_category now category).
    assert (obj_get "id" (new_category now category)
            = Some (JStr (category_id now))) as Hid by apply obj_get_set_eq.
    split; [| split; [exact Hid |]].
    + rewrite getCategoryById_eq, Hadd. cbn [Array_find].
      rewrite (find_from_first _ _ cs _ [] Hall (has_id_obj _ _ Hid)).
      reflexivity.
    + intros k Hk. unfold new_category. apply obj_get_set_ne. congruence.
Qed.

(** ** Toggling twice *)

Lemma obj_set_same k v (o : JSObject) : obj_get k o = Some v -> obj_set k v o = o.
Proof.
  induction o as [| [k' v'] o IH]; simpl; [discriminate |].
  destruct (String.eqb k k'); [now intros [= ->] | intros H; now rewrite IH].
Qed.

Lemma obj_set_twice k v v' (o : JSObject) :
  obj_set k v (obj_set k v' o) = obj_set k v o.
Proof.
  induction o as [| [k' v0] o IH]; simpl.
  - now rewrite String.eqb_refl.
  - destruct (String.eqb k k') eqn:E; simpl; rewrite E; [reflexivity |].
    now rewrite IH.
Qed.

(** Two assignments to different properties can be swapped when the
    property assigned last is there already, so that neither creates it. *)
Lemma obj_set_swap k k' v v' (o : JSObject) :
  k <> k' -> k ∈ map fst o ->
  obj_set k v (obj_set k' v' o) = obj_set k' v' (obj_set k v o).
Proof.
  intros Hne. induction o as [| [k0 v0] o IH]; simpl.
  - intros Hin. now apply elem_of_nil in Hin.
  - intros Hin.
    destruct (String.eqb_spec k' k0) as [-> | Hk']; simpl.
    + destruct (String.eqb_spec k k0) as [-> | Hk]; [congruence |]. simpl.
      rewrite String.eqb_refl.
      apply elem_of_cons in Hin as [-> | Hin]; [congruence |].
      reflexivity.
    + destruct (String.eqb_spec k k0) as [-> | Hk]; simpl.
      * destruct (String.eqb_spec k' k0); [congruence | reflexivity].
      * destruct (String.eqb_spec k' k0); [congruence |].
        apply elem_of_cons in Hin as [-> | Hin]; [congruence |].
        now rewrite IH.
Qed.

(** The task after two toggles. *)
Lemma toggled_twice stamp1 stamp2 o :
  toggled_task stamp2 (toggled_task stamp1 o)
  = obj_set "completedAt"
      (if truthy (obj_get "completed" o) then JStr (toISOString stamp2) else JNull)
      (obj_set "completed" (JBool (truthy (obj_get "completed" o))) o).
Proof.
  unfold toggled_task.
  rewrite obj_get_set_ne by discriminate. rewrite obj_get_set_eq.
  cbn [truthy]. rewrite negb_involutive.
  rewrite (obj_set_swap "completed" "completedAt") by
      (try discriminate; apply keys_obj_set; now left).
  now rewrite !obj_set_twice.
Qed.

(** Two successful toggles of the same identifier act on the same task and
    leave every field of it as it was except [completed], which is again
    what it was (as a boolean), and [completedAt], which is the time of the
    second toggle when the task was completed and [null] otherwise.  A
    task that was pending with [completedAt] [null], as [addTask] creates
    it, is restored exactly; of a completed task the original completion
    time is lost. *)
Theorem toggle_twice (stamp1 stamp2 : Z) (taskId : string)
    (w w1 w2 : World) (ts : list JSValue) :
  fst (listTasks w) = Ret (JArr ts) ->
  toggleTaskComplete stamp1 taskId w = (Ret true, w1) ->
  toggleTaskComplete stamp2 taskId w1 = (Ret true, w2) ->
  exists i o o2,
    ts !! i = Some (JObj o) /\ obj_get "id" o = Some (JStr taskId)
    /\ fst (listTasks w2) = Ret (JArr (<[i := JObj o2]> ts))
    /\ obj_get "completed" o2 = Some (JBool (truthy (obj_get "completed" o)))
    /\ obj_get "completedAt" o2
       = Some (if truthy (obj_get "completed" o)
               then JStr (toISOString stamp2) else JNull)
    /\ (forall k, k <> "completed" -> k <> "completedAt" ->
                  obj_get k o2 = obj_get k o)
    /\ (obj_get "completed" o = Some (JBool false) ->
        obj_get "completedAt" o = Some JNull ->
        fst (listTasks w2) = Ret (JArr ts)).
Proof.
  intros Hts H1 H2. apply listTasks_value in Hts.
  rewrite toggleTaskComplete_eq, Hts in H1.
  destruct (Array_find _ (JArr ts)) as [[[i t] |] | e] eqn:Ef; try discriminate.
  pose proof (Array_find_has_id _ _ _ _ Ef) as (o & -> & Hi & Hid).
  pose proof (tasks_of_wf w) as Wt. rewrite Hts in Wt.
  pose proof (wf_lookup _ _ _ Wt Hi) as Wo.
  cbn [truthy negb] in H1. rewrite toggled_obj in H1. cbn [Array_set] in H1.
  assert (wf_obj (toggled_task stamp1 o) = true) as Wo1.
  { unfold toggled_task. apply wf_obj_set; [apply wf_obj_set; [exact Wo | reflexivity] |].
    destruct (negb _); reflexivity. }
  apply saved_tasks in H1 as (E1 & _); [| now apply wf_insert].
  assert (obj_get "id" (toggled_task stamp1 o) = Some (JStr taskId)) as Hid1.
  { unfold toggled_task. now rewrite !obj_get_set_ne by discriminate. }
  rewrite toggleTaskComplete_eq, E1,
    (Array_find_replaced _ _ _ _ _ Ef (has_id_obj _ _ Hid1)) in H2.
  cbn [truthy negb] in H2. rewrite toggled_obj in H2. cbn [Array_set] in H2.
  rewrite list_insert_insert_eq, toggled_twice in H2.
  set (o2 := obj_set "completedAt" _ _) in H2.
  assert (wf_obj o2 = true) as Wo2.
  { subst o2. apply wf_obj_set; [apply wf_obj_set; [exact Wo | reflexivity] |].
    destruct (truthy _); reflexivity. }
  apply saved_tasks in H2 as (E2 & _); [| now apply wf_insert].
  exists i, o, o2. split; [exact Hi |]. split; [exact Hid |].
  split; [apply listTasks_value, E2 |]. subst o2.
  split; [rewrite obj_get_set_ne by discriminate; apply obj_get_set_eq |].
  split; [apply obj_get_set_eq |].
  split; [intros k Hk1 Hk2; now rewrite !obj_get_set_ne by congruence |].
  intros Hc Hn. apply listTasks_value. rewrite E2, Hc. cbn [truthy].
  rewrite (obj_set_same "completed") by exact Hc.
  rewrite (obj_set_same "completedAt") by exact Hn.
  now rewrite list_insert_id.
Qed.

(** ** Clearing twice *)

(** After a successful [clearCompletedTasks] every stored task is pending
    ([completed] reads falsy), and clearing again changes nothing that
    [getTasks] returns, whether or not the second write goes through. *)
Theorem clearCompletedTasks_idempotent (w w1 : World) (ts : list JSValue) :
  fst (listTasks w) = Ret (JArr ts) ->
  clearCompletedTasks w = (Ret true, w1) ->
  fst (listTasks w1) = Ret (JArr (List.filter active ts))
  /\ Forall (fun t => exists c, prop "completed" t = Ret c /\ truthy c = false)
            (List.filter active ts)
  /\ fst (listTasks (snd (clearCompletedTasks w1))) = fst (listTasks w1).
Proof.
  intros Hts Hclear. apply listTasks_value in Hts.
  pose proof (clearCompletedTasks_success _ _ ts Hts Hclear) as (E & _).
  split; [apply listTasks_value, E |]. split.
  - eapply Forall_impl; [apply Forall_filtered |].
    intros t. unfold active. destruct (prop "completed" t) as [c | e];
      [| discriminate].
    intros Hc. exists c. split; [reflexivity |]. now apply negb_true_iff.
  - rewrite clearCompletedTasks_eq, E. cbn [Array_filter].
    assert (filter_list (fun t => obind (prop "completed" t)
                                    (fun c => Ret (negb (truthy c))))
                        (List.filter active ts)
            = Ret (List.filter active ts)) as ->.
    { apply filter_list_all. eapply Forall_impl; [apply Forall_filtered |].
      intros t. unfold active. destruct (prop "completed" t) as [c | e];
        [| discriminate]. intros Hc. cbn [obind]. now rewrite Hc. }
    cbn [obind]. rewrite !listTasks_of. cbn [fst]. f_equal.
    apply resaved; [| auto]. rewrite <- E. apply tasks_of_wf.
Qed.

End Lookup.

(** * The shared defaults, corrupt slots, and import *)

Section Robustness.
Context `{JH : JSONHost} `{SH : StringHost} `{DH : DateHost}.

(** ** Writes through a default *)



(** ** Import *)


Lemma saved_denied k v w :
  access (storage w) = Denied -> saved k v w = (Ret false, w).
Proof. intros Hd. unfold saved. now rewrite denied_written. Qed.

Lemma import_fields_spec data t c s :
  import_fields data = Some (t, c, s)
  <-> field "tasks" data = Some t /\ field "categories" data = Some c
      /\ truthy (Some t) = true /\ truthy (Some c) = true
      /\ s = (if truthy (field "settings" data) then field "settings" data
              else None).
Proof.
  destruct data as [| b | n | s0 | xs | o]; cbn [import_fields field];
    try (split; [discriminate | intros (H & _); discriminate]).
  destruct (obj_get "tasks" o) as [t' |];
    [| split; [discriminate | intros (H & _); discriminate]].
  destruct (obj_get "categories" o) as [c' |];
    [| split; [discriminate | intros (_ & H & _); discriminate]].
  destruct (truthy (Some t')) eqn:Et, (truthy (Some c')) eqn:Ec; cbn [andb];
    split; try discriminate.
  - intros [= <- <- <-]. auto.
  - intros ([= <-] & [= <-] & _ & _ & ->). reflexivity.
  - intros ([= <-] & [= <-] & _ & H & _). congruence.
  - intros ([= <-] & [= <-] & H & _). congruence.
  - intros ([= <-] & [= <-] & H & _). congruence.
Qed.

(** [importData] returns [true] exactly when the text parses to a document
    whose [tasks] and [categories] are truthy, arrays or not; the outcome of
    the writes does not enter into it.  When it returns [false] nothing has
    changed; with access denied nothing changes either, and a well-formed
    document is still reported as imported. *)
Theorem importData_judges_the_text_only (jsonData : string) (w : World) :
  (fst (importData jsonData w) = Ret true
   <-> exists data t c,
        JSON_parse jsonData = Some data
        /\ field "tasks" data = Some t /\ field "categories" data = Some c
        /\ truthy (Some t) = true /\ truthy (Some c) = true)
  /\ (fst (importData jsonData w) = Ret true
      \/ importData jsonData w = (Ret false, w))
  /\ (access (storage w) = Denied -> snd (importData jsonData w) = w).
Proof.
  rewrite importData_eq.
  destruct (JSON_parse jsonData) as [data |] eqn:Ep; cbn [mbind option_bind].
  2:{ split; [split; [discriminate | intros (d & _ & _ & H & _); discriminate] |].
      split; [now right | reflexivity]. }
  destruct (import_fields data) as [[[t c] s] |] eqn:Ef.
  - pose proof (proj1 (import_fields_spec _ _ _ _) Ef) as (Ht & Hc & Tt & Tc & _).
    split; [split; [intros _; exists data, t, c; auto | reflexivity] |].
    split; [now left |]. intros Hd. cbn [snd imported].
    rewrite !(saved_denied _ _ w) by exact Hd. cbn [snd].
    destruct s; [| reflexivity]. now rewrite saved_denied.
  - split; [| split; [now right | reflexivity]].
    split; [discriminate |]. intros (d & t & c & [= <-] & Ht & Hc & Tt & Tc).
    pose proof (proj2 (import_fields_spec data t c _)
                  (conj Ht (conj Hc (conj Tt (conj Tc eq_refl))))) as H.
    congruence.
Qed.


(** ** A task slot that does not hold an array *)

(** Text in the task slot that [JSON.parse] rejects counts as the empty
    list: [getTasks] returns [[]], and the next successful [addTask] stores
    a list of one task in its place. *)
Theorem unreadable_tasks_read_as_empty (w : World) (text : string) :
  slot STORAGE_KEYS_TASKS w = Some text -> JSON_parse text = None ->
  fst (listTasks w) = Ret (JArr [])
  /\ forall now suffix stamp task w',
      wf_obj task = true ->
      addTask now suffix stamp task w = (Ret true, w') ->
      fst (listTasks w') = Ret (JArr [JObj (new_task now suffix stamp task)])
      /\ slot STORAGE_KEYS_TASKS w'
         = Some (JSON_stringify (JArr [JObj (new_task now suffix stamp task)])).
Proof.
  intros Hs Hp.
  assert (tasks_of w = JArr []) as Hts.
  { unfold tasks_of, stored. rewrite Hs, Hp. now destruct (String.eqb text ""). }
  split; [now apply listTasks_value |].
  intros now suffix stamp task w' Ht Hadd.
  pose proof (addTask_success _ _ _ _ _ _ [] Hts Ht Hadd) as (E & _).
  split; [now apply listTasks_value |].
  rewrite addTask_eq, Hts in Hadd. cbn [app] in Hadd. unfold saved in Hadd.
  destruct (written _ _ w) as [w1 |] eqn:Ew; [| discriminate].
  injection Hadd as <-. apply written_access in Ew as (cap & Ha & ->).
  unfold slot. cbn. now rewrite lookup_insert_eq.
Qed.

(** When the task slot holds JSON that is not an array, every task
    operation gives up: each of the five mutating operations returns
    [false], [getTaskById] returns [null], and nothing is written, so the
    slot stays as it is. *)
Theorem non_array_tasks_disable_operations (w : World) (v : JSValue) :
  fst (listTasks w) = Ret v -> (forall ts, v <> JArr ts) ->
  (forall now suffix stamp task,
      addTask now suffix stamp task w = (Ret false, w))
  /\ (forall taskId updates, updateTask taskId updates w = (Ret false, w))
  /\ (forall stamp taskId, toggleTaskComplete stamp taskId w = (Ret false, w))
  /\ (forall taskId, deleteTask taskId w = (Ret false, w))
  /\ clearCompletedTasks w = (Ret false, w)
  /\ (forall taskId, getTaskById taskId w = (Ret JNull, w)).
Proof.
  intros Hv Hna. apply listTasks_value in Hv.
  assert (forall p, Array_find p v = Throw TypeError) as Hfind
      by (intros p; destruct v as [| | | | ts |]; try reflexivity;
          now destruct (Hna ts)).
  assert (forall p, Array_filter p v = Throw TypeError) as Hfilter
      by (intros p; destruct v as [| | | | ts |]; try reflexivity;
          now destruct (Hna ts)).
  split; [intros; rewrite addTask_eq, Hv; destruct v as [| | | | ts |];
          try reflexivity; now destruct (Hna ts) |].
  split; [intros; now rewrite updateTask_eq, Hv, Hfind |].
  split; [intros; now rewrite toggleTaskComplete_eq, Hv, Hfind |].
  split; [intros; now rewrite deleteTask_eq, Hv, Hfilter |].
  split; [now rewrite clearCompletedTasks_eq, Hv, Hfilter |].
  intros. now rewrite getTaskById_eq, Hv, Hfind.
Qed.

End Robustness.

(** * More on the sorted view *)

Section Sorting.
Context `{SH : StringHost} `{DH : DateHost}.
Import AppController.

Lemma sort_by_order_typed sortBy l :
  Forall (typed_task sortBy) l ->
  StronglySorted (fun a b => order sortBy a b <= 0) (sort_by (order sortBy) l)
  /\ Forall (typed_task sortBy) (sort_by (order sortBy) l).
Proof.
  intros Hl. split; [| now apply sort_by_Forall].
  apply (sort_by_sorted _ (fun _ => True)).
  - intros a b _ _. apply order_antisym.
  - intros a b d _ _ _. apply order_trans.
  - apply Forall_forall. auto.
Qed.

(** A list that is sorted already is what the stable sort returns. *)
Lemma sort_by_order_sorted sortBy l :
  StronglySorted (fun a b => order sortBy a b <= 0) l ->
  sort_by (order sortBy) l = l.
Proof.
  intros Hs. symmetry. apply (sort_by_unique _ (fun _ => True)); auto.
  - intros a b _ _. apply order_antisym.
  - intros a b d _ _ _. apply order_trans.
  - apply Forall_forall. auto.
Qed.

(** Sorting a sorted view again returns it unchanged: on tasks of the data
    model, [sortTasks] applied to its own result is the identity. *)
Theorem sortTasks_idempotent (tasks view : list JSValue) (sortBy : string) :
  Forall (typed_task sortBy) tasks ->
  sortTasks tasks sortBy = Ret view ->
  sortTasks view sortBy = Ret view.
Proof.
  intros Htyped Hsort. unfold sortTasks in *.
  rewrite Array_sort_typed in Hsort by exact Htyped. injection Hsort as <-.
  destruct (sort_by_order_typed sortBy tasks Htyped) as [Hsorted Hall].
  rewrite Array_sort_typed by exact Hall. f_equal.
  now apply sort_by_order_sorted.
Qed.

Lemma Forall_filter_none {A} (f : A -> bool) (l : list A) :
  Forall (fun x => f x = false) l -> List.filter f l = [].
Proof.
  induction 1 as [| x l Hx _ IH]; simpl; [reflexivity |]. now rewrite Hx, IH.
Qed.

(** The pending tasks of a list followed by its completed ones. *)
Definition pending_first (tasks : list JSValue) : list JSValue :=
  List.filter (fun t => negb (completed_of t)) tasks
  ++ List.filter completed_of tasks.

Lemma sorted_app {A} (R : A -> A -> Prop) l1 l2 :
  StronglySorted R l1 -> StronglySorted R l2 ->
  (forall a b, In a l1 -> In b l2 -> R a b) ->
  StronglySorted R (l1 ++ l2).
Proof.
  intros H1 H2 Hcross. induction H1 as [| x l1 _ IH Hx]; simpl; [exact H2 |].
  constructor.
  - apply IH. intros a b Ha. apply Hcross. now right.
  - apply Forall_app. split; [exact Hx |].
    apply Forall_forall. intros b Hb. apply Hcross; [now left |].
    now apply list_elem_of_In.
Qed.

Lemma sorted_all {A} (R : A -> A -> Prop) l :
  (forall a b, In a l -> In b l -> R a b) -> StronglySorted R l.
Proof.
  induction l as [| x l IH]; intros Hall; constructor.
  - apply IH. intros a b Ha Hb. apply Hall; now right.
  - apply Forall_forall. intros b Hb. apply Hall; [now left | right].
    now apply list_elem_of_In.
Qed.

Lemma filter_both {A} (f g : A -> bool) (l : list A) :
  List.filter g (List.filter f l) = List.filter (fun x => f x && g x) l.
Proof.
  induction l as [| x l IH]; simpl; [reflexivity |].
  destruct (f x); simpl; [destruct (g x) |]; now rewrite IH.
Qed.

Lemma partition_perm {A} (f : A -> bool) (l : list A) :
  Permutation l (List.filter (fun x => negb (f x)) l ++ List.filter f l).
Proof.
  induction l as [| x l IH]; simpl; [constructor |].
  destruct (f x); simpl.
  - now apply Permutation_cons_app.
  - now constructor.
Qed.

Lemma pending_first_sorted sortBy tasks :
  (forall a b, secondary sortBy a b = 0) ->
  StronglySorted (fun a b => order sortBy a b <= 0) (pending_first tasks).
Proof.
  intros Hsec.
  assert (forall a b, completed_of a = completed_of b -> order sortBy a b <= 0)
    as Hsame.
  { intros a b E. unfold order. rewrite E, Hsec.
    destruct (completed_of b); simpl; lia. }
  unfold pending_first. apply sorted_app.
  - apply sorted_all. intros a b Ha Hb.
    apply filter_In in Ha as [_ Ha]. apply filter_In in Hb as [_ Hb].
    apply Hsame. apply negb_true_iff in Ha, Hb. congruence.
  - apply sorted_all. intros a b Ha Hb.
    apply filter_In in Ha as [_ Ha]. apply filter_In in Hb as [_ Hb].
    apply Hsame. congruence.
  - intros a b Ha Hb.
    apply filter_In in Ha as [_ Ha]. apply filter_In in Hb as [_ Hb].
    apply negb_true_iff in Ha. unfold order. rewrite Ha, Hb. simpl. lia.
Qed.

Lemma pending_first_ties sortBy tasks t :
  (forall a b, secondary sortBy a b = 0) ->
  List.filter (fun y => order sortBy t y =? 0) (pending_first tasks)
  = List.filter (fun y => order sortBy t y =? 0) tasks.
Proof.
  intros Hsec. unfold pending_first.
  rewrite List.filter_app, !filter_both.
  assert (forall y, (order sortBy t y =? 0)
                    = Bool.eqb (completed_of t) (completed_of y)) as Ho.
  { intros y. rewrite ties_order. unfold ties. rewrite Hsec.
    apply andb_true_r. }
  destruct (completed_of t) eqn:Et.
  - rewrite Forall_filter_none, app_nil_l.
    + apply List.filter_ext. intros y. rewrite Ho.
      now destruct (completed_of y).
    + apply Forall_forall. intros y _. rewrite Ho.
      now destruct (completed_of y).
  - rewrite (Forall_filter_none (fun x => completed_of x && _)), app_nil_r.
    + apply List.filter_ext. intros y. rewrite Ho.
      now destruct (completed_of y).
    + apply Forall_forall. intros y _. rewrite Ho.
      now destruct (completed_of y).
Qed.

(** With a criterion other than [date], [priority] and [alphabetical] the
    comparison looks at completion only: [sortTasks] returns the pending
    tasks in the order they had, followed by the completed tasks in the
    order they had. *)
Theorem sortTasks_unknown_criterion (tasks : list JSValue) (sortBy : string) :
  sortBy <> "date" -> sortBy <> "priority" -> sortBy <> "alphabetical" ->
  Forall (fun t => exists o b, t = JObj o
                               /\ obj_get "completed" o = Some (JBool b)) tasks ->
  sortTasks tasks sortBy = Ret (pending_first tasks).
Proof.
  intros Hd Hp Ha Hall.
  assert (Forall (typed_task sortBy) tasks) as Htyped.
  { eapply Forall_impl; [exact Hall |]. intros t (o & b & -> & Hb).
    exists o. split; [reflexivity |]. split; [eauto |].
    repeat split; intros ->; congruence. }
  assert (forall a b, secondary sortBy a b = 0) as Hsec.
  { intros a b. unfold secondary.
    destruct (String.eqb_spec sortBy "date"); [congruence |].
    destruct (String.eqb_spec sortBy "priority"); [congruence |].
    destruct (String.eqb_spec sortBy "alphabetical"); [congruence | reflexivity]. }
  unfold sortTasks. rewrite Array_sort_typed by exact Htyped. f_equal. symmetry.
  apply (sort_by_unique _ (fun _ => True)).
  - intros a b _ _. apply order_antisym.
  - intros a b d _ _ _. apply order_trans.
  - apply Forall_forall. auto.
  - apply partition_perm.
  - now apply pending_first_sorted.
  - intros t _. now apply pending_first_ties.
Qed.

End Sorting.

(** * The page *)

Section Labels.
Context `{DH : DateHost} `{TH : TextHost}.

Ltac div_lia := Z.to_euclidean_division_equations; lia.

Ltac range_case diff :=
  intros;
  repeat match goal with
         | |- context [?a <? ?b] => destruct (Z.ltb_spec a b); try div_lia
         end;
  try (split; [| div_lia]);
  try (replace (diff / 3600000) with 1 by div_lia);
  try (replace (diff / 86400000) with 1 by div_lia);
  reflexivity.

(** The label [getRelativeTime] gives to a valid creation time, by the
    time elapsed: [just now] below one minute, a creation time in the
    future included; then whole minutes from 1 to 59, whole hours from 1 to
    23 and whole days from 1 to 29, in the plural from 2 on; from thirty
    days on, and for an invalid creation time, the date as
    [toLocaleDateString] writes it.  This for what [new Date] can convert:
    an object with a property [toString], alone or in an array, makes
    [getRelativeTime] throw a [TypeError]. *)
Theorem getRelativeTime_ranges (now : Z) (dateString : option JSValue) :
  (converts_opt dateString = true ->
   (forall date,
       AppController.Date_of dateString = Some date ->
       (now - date < 60000 ->
        UIManager.getRelativeTime now dateString = Ret "just now")
       /\ (60000 <= now - date < 3600000 ->
           UIManager.getRelativeTime now dateString
           = Ret (Z_toString ((now - date) / 60000) +:+ " min ago")
           /\ 1 <= (now - date) / 60000 <= 59)
       /\ (3600000 <= now - date < 7200000 ->
           UIManager.getRelativeTime now dateString = Ret "1 hour ago")
       /\ (7200000 <= now - date < 86400000 ->
           UIManager.getRelativeTime now dateString
           = Ret (Z_toString ((now - date) / 3600000) +:+ " hours ago")
           /\ 2 <= (now - date) / 3600000 <= 23)
       /\ (86400000 <= now - date < 172800000 ->
           UIManager.getRelativeTime now dateString = Ret "1 day ago")
       /\ (172800000 <= now - date < 2592000000 ->
           UIManager.getRelativeTime now dateString
           = Ret (Z_toString ((now - date) / 86400000) +:+ " days ago")
           /\ 2 <= (now - date) / 86400000 <= 29)
       /\ (2592000000 <= now - date ->
           UIManager.getRelativeTime now dateString
           = Ret (toLocaleDateString (Some date))))
   /\ (AppController.Date_of dateString = None ->
       UIManager.getRelativeTime now dateString
       = Ret (toLocaleDateString None)))
  /\ (converts_opt dateString = false ->
      UIManager.getRelativeTime now dateString = Throw TypeError).
Proof.
  split; [| intros Hc; unfold UIManager.getRelativeTime, ToString;
            now rewrite Hc].
  intros Hc. split.
  - intros date Hd. unfold UIManager.getRelativeTime, ToString.
    rewrite Hc, Hd. cbn [obind AppController.minus].
    generalize (now - date). intros diff.
    repeat (split; [range_case diff |]). range_case diff.
  - intros Hd. unfold UIManager.getRelativeTime, ToString.
    now rewrite Hc, Hd.
Qed.

End Labels.

Create HintDb page.

Section PageLogic.
Context `{JH : JSONHost} `{SH : StringHost} `{DH : DateHost} `{TH : TextHost}.
Import Page.
Local Open Scope ui_scope.

(** ** Reasoning about computations of the page *)

(** From a session that satisfies [P], [m] returns a value and a session
    that satisfy [Q], or throws and leaves a session that satisfies [E]. *)
Definition hoare {A} (P : Session -> Prop) (m : UI A)
    (Q : A -> Session -> Prop) (E : Session -> Prop) : Prop :=
  forall s, P s -> match m s with
                   | (Ret a, s') => Q a s'
                   | (Throw _, s') => E s'
                   end.

Lemma hoare_bind {A B} P (m : UI A) Q (k : A -> UI B) R E :
  hoare P m Q E -> (forall a, hoare (Q a) (k a) R E) ->
  hoare P (ui_bind m k) R E.
Proof.
  intros Hm Hk s Hs. unfold ui_bind. specialize (Hm s Hs).
  destruct (m s) as [[a | e] s']; [exact (Hk a s' Hm) | exact Hm].
Qed.

Lemma hoare_weaken {A} (P P' : Session -> Prop) (m : UI A)
    (Q Q' : A -> Session -> Prop) (E E' : Session -> Prop) :
  hoare P' m Q' E' ->
  (forall s, P s -> P' s) -> (forall a s, Q' a s -> Q a s) ->
  (forall s, E' s -> E s) ->
  hoare P m Q E.
Proof.
  intros Hm HP HQ HE s Hs. specialize (Hm s (HP s Hs)).
  destruct (m s) as [[a | e] s']; auto.
Qed.

Lemma hoare_if {A} (b : bool) (m1 m2 : UI A) P Q E :
  (b = true -> hoare P m1 Q E) -> (b = false -> hoare P m2 Q E) ->
  hoare P (if b then m1 else m2) Q E.
Proof. destruct b; auto. Qed.

(** A computation that only adds calls: the world and the state are, at
    the end, what they were, whether it returns or throws. *)
Definition calls_only {A} (m : UI A) : Prop :=
  forall s, world (snd (m s)) = world s /\ state (snd (m s)) = state s.

Lemma calls_only_ret {A} (a : A) : calls_only (ui_ret a).
Proof. intros s. auto. Qed.

Lemma calls_only_call c : calls_only (call c).
Proof. intros s. auto. Qed.

Lemma calls_only_outcome {A} (o : Outcome A) : calls_only (outcome o).
Proof. intros s. auto. Qed.

Lemma calls_only_get : calls_only get_state.
Proof. intros s. auto. Qed.

Lemma calls_only_bind {A B} (m : UI A) (k : A -> UI B) :
  calls_only m -> (forall a, calls_only (k a)) -> calls_only (ui_bind m k).
Proof.
  intros Hm Hk s. unfold ui_bind. specialize (Hm s).
  destruct (m s) as [[a | e] s']; [| exact Hm].
  destruct (Hk a s') as [Hw Hst]. cbn [snd] in *. destruct Hm as [Hw' Hst'].
  split; congruence.
Qed.

Lemma calls_only_if {A} (b : bool) (m1 m2 : UI A) :
  calls_only m1 -> calls_only m2 -> calls_only (if b then m1 else m2).
Proof. destruct b; auto. Qed.

Lemma calls_only_forEach {A} (f : A -> UI unit) l :
  (forall x, calls_only (f x)) -> calls_only (forEach f l).
Proof.
  intros Hf. induction l as [| x l IH]; [apply calls_only_ret |].
  apply calls_only_bind; auto.
Qed.

#[local] Hint Resolve calls_only_ret calls_only_call calls_only_outcome calls_only_get
  calls_only_bind calls_only_if calls_only_forEach : page.

(** A [StorageManager] method that only reads. *)
Lemma calls_only_reader {A} (m : JS A) :
  (forall w, snd (m w) = w) -> calls_only (run m).
Proof.
  intros Hm s. unfold run. specialize (Hm (world s)).
  destruct (m (world s)) as [r w]. cbn in *. now subst.
Qed.

(** The category that [createTaskCard] finds for a task. *)
Definition found_category (categoryId : option JSValue) (w : World) : JSValue :=
  match Array_find (fun c => obind (prop "id" c)
                                   (fun i => Ret (strict_eq i categoryId)))
                   (categories_of w) with
  | Ret (Some (_, c)) => if truthy (Some c) then c else JNull
  | _ => JNull
  end.

Lemma getCategoryBy_eq categoryId w :
  getCategoryBy categoryId w = (Ret (found_category categoryId w), w).
Proof.
  unfold getCategoryBy, found_category, try_catch, bind, lift, deref.
  rewrite getCategories_stored. unfold categories_of.
  destruct (stored STORAGE_KEYS_CATEGORIES w) as [v |]; simpl;
    destruct (Array_find _ _) as [[[i t] |] | e]; reflexivity.
Qed.

Lemma calls_only_getCategoryBy categoryId :
  calls_only (run (getCategoryBy categoryId)).
Proof. apply calls_only_reader. intros w. now rewrite getCategoryBy_eq. Qed.

#[local] Hint Resolve calls_only_getCategoryBy : page.

Ltac calls_only_steps :=
  repeat (apply calls_only_bind; [solve [auto with page] | intros ?]);
  auto with page.

Lemma calls_only_createTaskCard task :
  calls_only (UIManager.createTaskCard task).
Proof. unfold UIManager.createTaskCard. calls_only_steps. Qed.

#[local] Hint Resolve calls_only_createTaskCard : page.

Lemma calls_only_renderTasks tasks : calls_only (UIManager.renderTasks tasks).
Proof. unfold UIManager.renderTasks. auto 10 with page. Qed.

Lemma calls_only_showTaskModal task : calls_only (UIManager.showTaskModal task).
Proof. unfold UIManager.showTaskModal. calls_only_steps. Qed.

Lemma calls_only_removeTaskCard taskId :
  calls_only (UIManager.removeTaskCard taskId).
Proof. unfold UIManager.removeTaskCard. auto with page. Qed.

#[local] Hint Resolve calls_only_showTaskModal calls_only_removeTaskCard : page.

Lemma calls_only_updateStats tasks : calls_only (UIManager.updateStats tasks).
Proof. unfold UIManager.updateStats. destruct tasks; auto 10 with page. Qed.

Lemma calls_only_populateCategories cs :
  calls_only (UIManager.populateCategories cs).
Proof.
  unfold UIManager.populateCategories.
  apply calls_only_bind; [auto with page |]. intros _.
  destruct cs; auto with page.
  apply calls_only_forEach. intros category. calls_only_steps.
Qed.

Lemma calls_only_applyFiltersAndSort page :
  calls_only (App.applyFiltersAndSort page).
Proof.
  unfold App.applyFiltersAndSort.
  repeat (apply calls_only_bind; [auto with page |]; intros ?).
  apply calls_only_renderTasks.
Qed.

#[local] Hint Resolve calls_only_renderTasks calls_only_updateStats
  calls_only_populateCategories calls_only_applyFiltersAndSort : page.

(** What [AppController] believes the tasks to be is what [getTasks]
    returns. *)
Definition in_sync (s : Session) : Prop :=
  currentTasks (state s) = tasks_of (world s).

Lemma calls_only_hoare {A} (m : UI A) (I : Session -> Prop) :
  calls_only m ->
  (forall s s', world s' = world s -> state s' = state s -> I s -> I s') ->
  hoare I m (fun _ => I) I.
Proof.
  intros Hm HI s Hs. destruct (Hm s) as [Hw Hst].
  destruct (m s) as [[a | e] s']; cbn [snd] in *; eauto.
Qed.

Lemma in_sync_frame s s' :
  world s' = world s -> state s' = state s -> in_sync s -> in_sync s'.
Proof. unfold in_sync. now intros -> ->. Qed.

Lemma hoare_calls_only {A} (m : UI A) :
  calls_only m -> hoare in_sync m (fun _ => in_sync) in_sync.
Proof. intros Hm. apply calls_only_hoare; [exact Hm | exact in_sync_frame]. Qed.

(** A [StorageManager] method on the session. *)
Lemma hoare_run {A} (m : JS A) (P : Session -> Prop)
    (Q : A -> Session -> Prop) (E : Session -> Prop) :
  (forall s, P s ->
             match m (world s) with
             | (Ret a, w) => Q a {| world := w; state := state s; calls := calls s |}
             | (Throw _, w) => E {| world := w; state := state s; calls := calls s |}
             end) ->
  hoare P (run m) Q E.
Proof.
  intros Hm s Hs. unfold run. specialize (Hm s Hs).
  destruct (m (world s)) as [[a | e] w]; exact Hm.
Qed.

(** *** [loadData] *)

Definition loaded (w : World) (st : State) : State :=
  {| currentTasks := tasks_of w;
     currentCategories := match stored STORAGE_KEYS_CATEGORIES w with
                          | Some v => Fresh v
                          | None => DefaultCategoriesRef
                          end;
     settings := match stored STORAGE_KEYS_SETTINGS w with
                 | Some v => Fresh v
                 | None => DefaultSettingsRef
                 end;
     editingTaskId := editingTaskId st |}.

Lemma loadData_eq s :
  App.loadData s
  = (Ret tt, {| world := world s; state := loaded (world s) (state s);
                calls := calls s |}).
Proof.
  unfold App.loadData, ui_bind, run, get_state, set_state.
  rewrite getTasks_stored. cbn [world state calls].
  rewrite getCategories_stored. cbn [world state calls].
  rewrite getSettings_stored. reflexivity.
Qed.

Lemma hoare_loadData P :
  hoare P App.loadData (fun _ => in_sync) in_sync.
Proof. intros s _. rewrite loadData_eq. reflexivity. Qed.

(** *** The handlers keep the state in step with the store *)

(** A property of the world and the state, whatever the calls so far. *)
Definition framed (P : Session -> Prop) : Prop :=
  forall s s', world s' = world s -> state s' = state s -> P s -> P s'.

Lemma framed_in_sync : framed in_sync.
Proof. exact in_sync_frame. Qed.

Lemma framed_implies (b : Prop) : framed (fun s => b -> in_sync s).
Proof. intros s s' Hw Hst H Hb. exact (in_sync_frame s s' Hw Hst (H Hb)). Qed.

Lemma framed_True : framed (fun _ => True).
Proof. intros s s' _ _ _. exact I. Qed.

Lemma hoare_call P c E : framed P -> hoare P (call c) (fun _ => P) E.
Proof. intros HP s Hs. simpl. eapply HP; [| | exact Hs]; reflexivity. Qed.

Lemma hoare_get (P : Session -> Prop) E :
  hoare P get_state (fun st s => st = state s /\ P s) E.
Proof. intros s Hs. simpl. auto. Qed.

(** A task operation returns a boolean and, when that is [false], has
    left the world as it was. *)
Definition reports_failure (m : JS bool) : Prop :=
  forall w, exists b w', m w = (Ret b, w') /\ (b = false -> w' = w).

Lemma hoare_reporting (m : JS bool) :
  reports_failure m ->
  hoare in_sync (run m) (fun b s => b = false -> in_sync s) in_sync.
Proof.
  intros Hm. apply hoare_run. intros s Hs.
  destruct (Hm (world s)) as (b & w' & -> & Hb). intros ->.
  rewrite Hb by reflexivity. exact Hs.
Qed.

Lemma reports_addTask now suffix stamp task :
  reports_failure (addTask now suffix stamp task).
Proof.
  intros w. destruct (proj1 (task_operation_total w) now suffix stamp task)
    as (b & w' & E).
  exists b, w'. split; [exact E |]. intros ->.
  apply task_operation_failure. left. eauto.
Qed.

Lemma reports_updateTask taskId updates :
  reports_failure (updateTask taskId updates).
Proof.
  intros w. destruct (proj1 (proj2 (task_operation_total w)) taskId updates)
    as (b & w' & E).
  exists b, w'. split; [exact E |]. intros ->.
  apply task_operation_failure. right. left. eauto.
Qed.

Lemma reports_toggleTaskComplete stamp taskId :
  reports_failure (toggleTaskComplete stamp taskId).
Proof.
  intros w.
  destruct (proj1 (proj2 (proj2 (task_operation_total w))) stamp taskId)
    as (b & w' & E).
  exists b, w'. split; [exact E |]. intros ->.
  apply task_operation_failure. right. right. left. eauto.
Qed.

Lemma reports_deleteTask taskId : reports_failure (deleteTask taskId).
Proof.
  intros w.
  destruct (proj1 (proj2 (proj2 (proj2 (task_operation_total w)))) taskId)
    as (b & w' & E).
  exists b, w'. split; [exact E |]. intros ->.
  apply task_operation_failure. right. right. right. left. eauto.
Qed.

Lemma reports_clearCompletedTasks : reports_failure clearCompletedTasks.
Proof.
  intros w.
  destruct (proj2 (proj2 (proj2 (proj2 (task_operation_total w)))))
    as (b & w' & E).
  exists b, w'. split; [exact E |]. intros ->.
  apply task_operation_failure. right. right. right. right. exact E.
Qed.

Lemma reports_importData jsonData : reports_failure (importData jsonData).
Proof.
  intros w. rewrite importData_eq.
  destruct (JSON_parse jsonData ≫= import_fields); eauto.
  eexists _, _. split; [reflexivity | discriminate].
Qed.

(** A method that leaves the tasks alone. *)
Definition keeps_tasks {A} (m : JS A) : Prop :=
  forall w, tasks_of (snd (m w)) = tasks_of w.

Lemma hoare_keeping {A} (m : JS A) :
  keeps_tasks m -> hoare in_sync (run m) (fun _ => in_sync) in_sync.
Proof.
  intros Hm. apply hoare_run. intros s Hs. specialize (Hm (world s)).
  unfold in_sync in *. destruct (m (world s)) as [[a | e] w]; cbn in *; congruence.
Qed.

Lemma keeps_getCategories : keeps_tasks getCategories.
Proof. intros w. now rewrite getCategories_stored. Qed.

Lemma keeps_deref r : keeps_tasks (deref r).
Proof. intros w. reflexivity. Qed.

Lemma keeps_mutate r v : keeps_tasks (mutate r v).
Proof. intros w. destruct r; reflexivity. Qed.

Lemma keeps_getTaskById taskId : keeps_tasks (getTaskById taskId).
Proof. intros w. now rewrite getTaskById_eq. Qed.

Lemma keeps_exportData stamp : keeps_tasks (exportData stamp).
Proof. intros w. now rewrite exportData_eq. Qed.

Lemma keeps_addCategory now category : keeps_tasks (addCategory now category).
Proof. intros w. apply addCategory_tasks. Qed.

Lemma keeps_updateSetting key value : keeps_tasks (updateSetting key value).
Proof. intros w. apply updateSetting_tasks. Qed.

#[local] Hint Resolve framed_in_sync framed_implies framed_True
  keeps_getCategories keeps_deref keeps_mutate keeps_getTaskById
  keeps_exportData keeps_addCategory keeps_updateSetting
  reports_addTask reports_updateTask reports_toggleTaskComplete
  reports_deleteTask reports_clearCompletedTasks reports_importData : page.

(** A step that cannot disturb the invariant, in a sequence. *)
Lemma hoare_then {A B} (m : UI A) (k : A -> UI B) :
  hoare in_sync m (fun _ => in_sync) in_sync ->
  (forall a, hoare in_sync (k a) (fun _ => in_sync) in_sync) ->
  hoare in_sync (ui_bind m k) (fun _ => in_sync) in_sync.
Proof. intros Hm Hk. eapply hoare_bind; [exact Hm | exact Hk]. Qed.

(** Assigning to a field of the state other than [currentTasks]. *)
Lemma hoare_set_other (f : State -> State) :
  (forall st, currentTasks (f st) = currentTasks st) ->
  hoare in_sync (st <- get_state ;; set_state (f st)) (fun _ => in_sync) in_sync.
Proof. intros Hf s Hs. unfold in_sync in *. cbn. now rewrite Hf. Qed.

Lemma hoare_op_notified (m : JS bool) (c : Call) :
  reports_failure m ->
  hoare in_sync
    (success <- run m ;;
     (if (success : bool) then call c else ui_ret tt) ;;;
     ui_ret success)
    (fun b s => b = false -> in_sync s) in_sync.
Proof.
  intros Hm s Hs. unfold ui_bind, run.
  destruct (Hm (world s)) as (b & w' & -> & Hb).
  destruct b; cbn; [discriminate |]. intros _. rewrite Hb by reflexivity.
  exact Hs.
Qed.

Lemma hoare_on_success {A} (m : UI bool) (refresh failed : UI A) :
  hoare in_sync m (fun b s => b = false -> in_sync s) in_sync ->
  hoare (fun _ => True) refresh (fun _ => in_sync) in_sync ->
  hoare in_sync failed (fun _ => in_sync) in_sync ->
  hoare in_sync (success <- m ;; if (success : bool) then refresh else failed)
        (fun _ => in_sync) in_sync.
Proof.
  intros Hm Hr Hf. eapply hoare_bind; [exact Hm |]. intros [].
  - eapply hoare_weaken; [exact Hr | | |]; cbn beta; auto.
  - eapply hoare_weaken; [exact Hf | | |]; cbn beta; auto.
Qed.

(** Calls, then [loadData], then steps that keep the invariant. *)
Lemma hoare_reload {A} (rest : UI A) :
  hoare in_sync rest (fun _ => in_sync) in_sync ->
  hoare (fun _ => True) (App.loadData ;;; rest) (fun _ => in_sync) in_sync.
Proof. intros Hr. eapply hoare_bind; [apply hoare_loadData | intros ?; exact Hr]. Qed.

Lemma hoare_call_first {A} c (rest : UI A) :
  hoare (fun _ => True) rest (fun _ => in_sync) in_sync ->
  hoare (fun _ => True) (call c ;;; rest) (fun _ => in_sync) in_sync.
Proof.
  intros Hr. eapply hoare_bind; [apply hoare_call, framed_True | intros ?; exact Hr].
Qed.

Ltac in_sync_step :=
  first
    [ apply hoare_calls_only; solve [auto 10 with page]
    | apply hoare_keeping; solve [auto with page]
    | apply hoare_set_other; reflexivity
    | apply hoare_then; [| intros ?]
    | apply hoare_if; intros _ ].

Ltac keep_in_sync := repeat in_sync_step.

Lemma in_sync_handleTaskSubmit now suffix stamp page :
  hoare in_sync (App.handleTaskSubmit now suffix stamp page)
        (fun _ => in_sync) in_sync.
Proof.
  unfold App.handleTaskSubmit. apply hoare_if; intros _; [keep_in_sync |].
  apply hoare_on_success.
  - apply hoare_if; intros _; apply hoare_op_notified; auto with page.
  - apply hoare_reload. keep_in_sync.
  - keep_in_sync.
Qed.

Lemma in_sync_initializeUI page :
  hoare in_sync (App.initializeUI page) (fun _ => in_sync) in_sync.
Proof. unfold App.initializeUI. keep_in_sync. Qed.

Lemma in_sync_handleCategorySubmit now page :
  hoare in_sync (App.handleCategorySubmit now page) (fun _ => in_sync) in_sync.
Proof.
  unfold App.handleCategorySubmit. apply hoare_if; intros _; [keep_in_sync |].
  apply hoare_then; [keep_in_sync |]. intros success. apply hoare_if; intros _; [| keep_in_sync].
  apply hoare_then; [keep_in_sync |]. intros ?.
  apply hoare_then; [keep_in_sync |]. intros categories.
  eapply hoare_bind
    with (Q := fun st s => st = state s /\ in_sync s);
    [apply hoare_get |]. intros st.
  eapply hoare_bind with (Q := fun _ => in_sync).
  - intros s [-> Hs]. unfold in_sync in *. exact Hs.
  - intros ?. keep_in_sync.
Qed.

Lemma in_sync_toggleTheme :
  hoare in_sync App.toggleTheme (fun _ => in_sync) in_sync.
Proof.
  unfold App.toggleTheme.
  eapply hoare_bind
    with (Q := fun st s => st = state s /\ in_sync s);
    [apply hoare_get |]. intros st.
  eapply hoare_weaken with (P' := in_sync) (Q' := fun _ => in_sync) (E' := in_sync);
    [| now intros s [_ Hs] | auto | auto].
  do 6 (apply hoare_then; [keep_in_sync |]; intros ?).
  - unfold App.store_settings. destruct (settings st); keep_in_sync.
  - keep_in_sync.
Qed.

(** The events whose handler can be followed to its end: a confirmed
    deletion looks the card up by a selector built from the identifier, and
    [querySelector] must accept it. *)
Definition selectable (e : App.Event) : Prop :=
  match e with
  | App.ConfirmClick (ConfirmDeleteTask taskId) =>
      valid_selector (UIManager.card_selector taskId) = true
  | _ => True
  end.

Lemma in_sync_confirmAction page onConfirm :
  selectable (App.ConfirmClick onConfirm) ->
  hoare in_sync (App.confirmAction page onConfirm) (fun _ => in_sync) in_sync.
Proof.
  intros Hsel.
  unfold App.confirmAction. apply hoare_then; [| intros ?; keep_in_sync].
  destruct onConfirm as [taskId |].
  - apply hoare_on_success; [apply hoare_reporting; auto with page | | keep_in_sync].
    unfold UIManager.removeTaskCard. cbn [selectable] in Hsel. rewrite Hsel.
    do 2 apply hoare_call_first. apply hoare_reload. keep_in_sync.
  - apply hoare_on_success; [apply hoare_reporting; auto with page | | keep_in_sync].
    apply hoare_call_first. apply hoare_reload. keep_in_sync.
Qed.

Lemma in_sync_dispatch page e :
  selectable e ->
  hoare in_sync (App.dispatch page e) (fun _ => in_sync) in_sync.
Proof.
  intros Hsel. destruct e; cbn [App.dispatch].
  - apply in_sync_handleTaskSubmit.
  - apply in_sync_handleCategorySubmit.
  - unfold App.clearCompletedTasks. keep_in_sync.
  - apply in_sync_toggleTheme.
  - keep_in_sync.
  - keep_in_sync.
  - keep_in_sync.
  - keep_in_sync.
  - unfold App.exportData. keep_in_sync.
  - unfold App.importData.
    apply hoare_on_success; [apply hoare_reporting; auto with page | | keep_in_sync].
    apply hoare_call_first. apply hoare_reload. apply in_sync_initializeUI.
  - unfold App.toggleComplete.
    apply hoare_on_success; [apply hoare_reporting; auto with page | | keep_in_sync].
    apply hoare_reload. keep_in_sync.
  - unfold App.editTask. keep_in_sync.
  - unfold App.deleteTask. keep_in_sync.
  - now apply in_sync_confirmAction.
Qed.

Lemma in_sync_init page :
  hoare (fun _ => True) (App.init page) (fun _ => in_sync) in_sync.
Proof.
  unfold App.init. apply hoare_reload.
  apply hoare_then; [apply in_sync_initializeUI |]. intros ?. keep_in_sync.
Qed.

(** The page after a sequence of events, each with the values the controls
    hold when it occurs.  A handler that throws ends there; the page goes
    on with the session it left. *)
Definition after (events : list (Controls * App.Event)) (s : Session) : Session :=
  fold_left (fun s e => snd (App.dispatch (fst e) (snd e) s)) events s.

Lemma hoare_snd {A} (P : Session -> Prop) (m : UI A) (Q : Session -> Prop) s :
  hoare P m (fun _ => Q) Q -> P s -> Q (snd (m s)).
Proof. intros Hm Hs. specialize (Hm s Hs). now destruct (m s) as [[a | e] s']. Qed.

(** From [init] on, and after every event, [state.currentTasks] is what
    [getTasks] returns: each handler that changes the stored tasks loads
    them again before anything else can fail, and a handler whose store
    operation fails has changed nothing.  One handler can fail in between:
    a confirmed deletion, when [querySelector] rejects the selector built
    from the identifier; the events are taken to name no such
    identifier. *)
Theorem currentTasks_follow_the_store (page : Controls)
    (events : list (Controls * App.Event)) (s0 : Session) :
  Forall (fun e => selectable (snd e)) events ->
  Ret (currentTasks (state (after events (snd (App.init page s0)))))
  = fst (listTasks (world (after events (snd (App.init page s0))))).
Proof.
  intros Hsel. rewrite listTasks_of. cbn [fst]. f_equal.
  change (in_sync (after events (snd (App.init page s0)))).
  assert (in_sync (snd (App.init page s0))) as Hs
      by (apply (hoare_snd (fun _ => True)); [apply in_sync_init | exact I]).
  revert Hs. generalize (snd (App.init page s0)).
  induction Hsel as [| [p e] events He _ IH]; intros s Hs; [exact Hs |].
  cbn [after fold_left fst snd]. apply IH.
  apply (hoare_snd in_sync); [now apply in_sync_dispatch | exact Hs].
Qed.

(** With an identifier that [querySelector] rejects, a confirmed deletion
    that succeeds in the store stops before the tasks are loaded again: the
    store has lost the task and the state still lists it. *)
Lemma rejected_selector_leaves_the_state taskId page s w' :
  valid_selector (UIManager.card_selector taskId) = false ->
  deleteTask taskId (world s) = (Ret true, w') ->
  App.confirmAction page (ConfirmDeleteTask taskId) s
  = (Throw SyntaxError,
     {| world := w'; state := state s;
        calls := calls s
                 ++ [showNotification "Task deleted successfully" "success"] |}).
Proof.
  intros Hsel Hdel. unfold App.confirmAction, ui_bind, run. rewrite Hdel.
  unfold UIManager.removeTaskCard. rewrite Hsel. reflexivity.
Qed.

(** ** What is shown *)

(** The session after further calls. *)
Definition said (l : list Call) (s : Session) : Session :=
  {| world := world s; state := state s; calls := calls s ++ l |}.

Lemma said_nil s : said [] s = s.
Proof. destruct s. unfold said. cbn. now rewrite app_nil_r. Qed.

Lemma said_said l1 l2 s : said l2 (said l1 s) = said (l1 ++ l2) s.
Proof. unfold said. cbn. now rewrite app_assoc. Qed.

(** Whether a test returns [true] on a task; a test that throws does not. *)
Definition passes (p : JSValue -> Outcome bool) (t : JSValue) : bool :=
  match p t with
  | Ret true => true
  | _ => false
  end.

Lemma filter_list_passes p l r :
  filter_list p l = Ret r -> r = List.filter (passes p) l.
Proof. intros Hf. now apply filter_list_Ret in Hf as [-> _]. Qed.

Lemma filter_list_returns p l :
  Forall (fun t => exists b, p t = Ret b) l ->
  filter_list p l = Ret (List.filter (passes p) l).
Proof.
  induction 1 as [| x l [b Hx] _ IH]; [reflexivity |].
  cbn [filter_list List.filter]. unfold passes at 1. rewrite Hx, IH.
  now destruct b.
Qed.

Lemma filter_list_throws p l e :
  Exists (fun t => p t = Throw e) l ->
  Forall (fun t => forall e', p t = Throw e' -> e' = e) l ->
  filter_list p l = Throw e.
Proof.
  intros Hex Hall. induction Hall as [| x l Hx Hall IH];
    [now apply Exists_nil in Hex |].
  cbn [filter_list]. destruct (p x) as [b | e'] eqn:Ex.
  - apply Exists_cons in Hex as [Hex | Hex]; [congruence |].
    now rewrite (IH Hex).
  - cbn. f_equal. now apply Hx.
Qed.

Lemma is_completed_not_null t :
  t <> JNull -> UIManager.is_completed t = Ret (completed_of t).
Proof.
  intros Ht. unfold UIManager.is_completed, completed_of.
  destruct t; try contradiction; reflexivity.
Qed.

Lemma is_pending_not_null t : t <> JNull -> App.is_pending t = Ret (active t).
Proof.
  intros Ht. unfold App.is_pending, active.
  destruct t; try contradiction; reflexivity.
Qed.

Lemma active_not_completed t : t <> JNull -> active t = negb (completed_of t).
Proof.
  intros Ht. unfold active, completed_of. destruct t; try contradiction;
    reflexivity.
Qed.

Lemma partition_length {A} (f : A -> bool) (l : list A) :
  (length (List.filter (fun x => negb (f x)) l) + length (List.filter f l))%nat
  = length l.
Proof.
  rewrite <- length_app. symmetry. apply Permutation_length, partition_perm.
Qed.

(** The completed tasks and the pending tasks of a list without [null]. *)
Lemma completed_and_active ts :
  Forall (fun t => t <> JNull) ts ->
  filter_list UIManager.is_completed ts = Ret (List.filter completed_of ts)
  /\ filter_list App.is_pending ts = Ret (List.filter active ts)
  /\ (length (List.filter active ts) + length (List.filter completed_of ts))%nat
     = length ts.
Proof.
  intros Hall.
  assert (forall p f, (forall t, t <> JNull -> p t = Ret (f t)) ->
                      filter_list p ts = Ret (List.filter f ts)) as Hf.
  { intros p f Hp. rewrite filter_list_returns.
    - f_equal. apply List.filter_ext_in. intros t Ht. unfold passes.
      rewrite Hp; [now destruct (f t) |].
      rewrite Forall_forall in Hall. apply Hall. now apply list_elem_of_In.
    - eapply Forall_impl; [exact Hall |]. intros t Ht. rewrite (Hp t Ht). eauto. }
  split; [apply Hf, is_completed_not_null |].
  split; [apply Hf, is_pending_not_null |].
  rewrite <- (partition_length completed_of ts). do 2 f_equal.
  apply List.filter_ext_in. intros t Ht. apply active_not_completed.
  rewrite Forall_forall in Hall. apply Hall. now apply list_elem_of_In.
Qed.

(** [updateStats] on a list of tasks none of which is [null] shows three
    numbers: the length of the list, the number of tasks whose [completed]
    is truthy, and their difference, which is the number of tasks that the
    pending filter keeps and that [clearCompletedTasks] would keep.  When a
    task is [null] it throws and shows nothing. *)
Theorem updateStats_shows_the_counts (ts : list JSValue) (s : Session) :
  (Forall (fun t => t <> JNull) ts ->
   UIManager.updateStats (JArr ts) s
   = (Ret tt,
      said [ animateNumber "totalTasks" (Z.of_nat (length ts));
             animateNumber "completedTasks"
               (Z.of_nat (length (List.filter completed_of ts)));
             animateNumber "pendingTasks"
               (Z.of_nat (length (List.filter active ts))) ] s)
   /\ filter_list App.is_pending ts = Ret (List.filter active ts))
  /\ (JNull ∈ ts -> UIManager.updateStats (JArr ts) s = (Throw TypeError, s)).
Proof.
  split.
  - intros Hall. destruct (completed_and_active ts Hall) as (Hc & Hp & Hlen).
    split; [| exact Hp].
    unfold UIManager.updateStats, ui_bind, outcome, call, said. rewrite Hc.
    cbn [fst snd world state calls]. rewrite <- !app_assoc. cbn [app].
    repeat f_equal. lia.
  - intros Hin. unfold UIManager.updateStats, ui_bind, outcome.
    rewrite (filter_list_throws _ _ TypeError); [reflexivity | |].
    + apply Exists_exists. exists JNull. split; [exact Hin | reflexivity].
    + apply Forall_forall. intros t _ e'. unfold UIManager.is_completed.
      destruct t; cbn; congruence.
Qed.

Lemma insert_perm cmp x l r :
  AppController.insert cmp x l = Ret r -> Permutation (x :: l) r.
Proof.
  revert r. induction l as [| y l IH]; intros r; cbn [AppController.insert].
  - now intros [= <-].
  - destruct (cmp x y) as [c | e]; cbn [obind]; [| discriminate].
    destruct (0 <? AppController.nan_to_zero c); [| now intros [= <-]].
    destruct (AppController.insert cmp x l) as [r' | e]; cbn [obind];
      [| discriminate].
    intros [= <-]. rewrite perm_swap. apply perm_skip. now apply IH.
Qed.

(** Whatever the comparison answers, what [sort] returns holds the
    elements it was given. *)
Lemma Array_sort_perm cmp l r :
  AppController.Array_sort cmp l = Ret r -> Permutation l r.
Proof.
  revert r. induction l as [| x l IH]; intros r; cbn [AppController.Array_sort].
  - now intros [= <-].
  - destruct (AppController.Array_sort cmp l) as [r' | e]; cbn [obind];
      [| discriminate].
    intros Hi. apply insert_perm in Hi. rewrite <- Hi. apply perm_skip.
    now apply IH.
Qed.

(** The calls by which [renderTasks] shows a list. *)
Definition rendering (view : list JSValue) : list Call :=
  match view with
  | [] => [showEmptyState]
  | _ => clearTasksContainer :: map (fun t => appendChild (TaskCard t)) view
  end.

Lemma forEach_cons {A} (f : A -> UI unit) x l s :
  forEach f (x :: l) s
  = match f x s with
    | (Ret _, s') => forEach f l s'
    | (Throw e, s') => (Throw e, s')
    end.
Proof. reflexivity. Qed.

Lemma ui_bind_outcome {A B} (o : Outcome A) (k : A -> UI B) s :
  ui_bind (outcome o) k s
  = match o with
    | Ret a => k a s
    | Throw e => (Throw e, s)
    end.
Proof. unfold ui_bind, outcome. now destruct o. Qed.

Lemma ui_bind_found {B} categoryId (k : JSValue -> UI B) s :
  ui_bind (run (getCategoryBy categoryId)) k s
  = k (found_category categoryId (world s)) s.
Proof.
  unfold ui_bind, run. rewrite getCategoryBy_eq. now destruct s.
Qed.

(** What [createTaskCard] returns in a world: the card of the task, or the
    [TypeError] of the first step that throws. *)
Definition card (w : World) (task : JSValue) : Outcome Element :=
  obind (prop "completed" task) (fun _ =>
  obind (prop "id" task) (fun id =>
  obind (ToString id) (fun _ =>
  obind (prop "priority" task) (fun priority =>
  obind (ToString priority) (fun _ =>
  obind (prop "category" task) (fun categoryId =>
  let category := found_category categoryId w in
  obind (UIManager.of_category "color" "#6b7280" category) (fun categoryColor =>
  obind (prop "dueDate" task) (fun dueDate =>
  obind (ToString dueDate) (fun _ =>
  obind (prop "title" task) (fun title =>
  obind (ToString title) (fun _ =>
  obind (ToString categoryColor) (fun _ =>
  obind (UIManager.of_category "name" "Uncategorized" category)
        (fun categoryName =>
  obind (ToString categoryName) (fun _ =>
  obind (prop "description" task) (fun description =>
  obind (if truthy description then ToString description else Ret "")
        (fun _ =>
  obind (prop "createdAt" task) (fun createdAt =>
  obind (ToString createdAt) (fun _ =>
  Ret (TaskCard task))))))))))))))))))).

Lemma createTaskCard_eq task s :
  UIManager.createTaskCard task s = (card (world s) task, s).
Proof.
  unfold UIManager.createTaskCard, card.
  repeat first
    [ rewrite ui_bind_found; cbv zeta
    | rewrite ui_bind_outcome;
      lazymatch goal with
      | |- match ?o with Ret _ => _ | Throw _ => _ end = _ =>
          destruct o; cbn [obind]; [| reflexivity]
      end ].
  reflexivity.
Qed.

Lemma card_Ret w task c : card w task = Ret c -> c = TaskCard task.
Proof.
  unfold card.
  repeat lazymatch goal with
         | |- obind ?o _ = _ -> _ => destruct o; cbn [obind]; [| discriminate]
         | |- (let _ := _ in _) = _ -> _ => cbv zeta
         end.
  now intros [= <-].
Qed.

Lemma card_step t s :
  (taskCard <- UIManager.createTaskCard t ;; call (appendChild taskCard)) s
  = match card (world s) t with
    | Ret _ => (Ret tt, said [appendChild (TaskCard t)] s)
    | Throw e => (Throw e, s)
    end.
Proof.
  unfold ui_bind at 1. rewrite createTaskCard_eq.
  destruct (card (world s) t) as [c | e] eqn:E; [| reflexivity].
  now rewrite (card_Ret _ _ _ E).
Qed.

Lemma forEach_cards l s :
  fst (forEach (fun task => taskCard <- UIManager.createTaskCard task ;;
                           call (appendChild taskCard)) l s) = Ret tt ->
  snd (forEach (fun task => taskCard <- UIManager.createTaskCard task ;;
                           call (appendChild taskCard)) l s)
  = said (map (fun t => appendChild (TaskCard t)) l) s.
Proof.
  revert s. induction l as [| t l IH]; intros s.
  - intros _. cbn [forEach map]. now rewrite said_nil.
  - rewrite forEach_cons, card_step.
    destruct (card (world s) t) as [c | e]; [| discriminate].
    intros Hr. rewrite (IH _ Hr), said_said. reflexivity.
Qed.

Lemma renderTasks_returns view s :
  fst (UIManager.renderTasks view s) = Ret tt ->
  snd (UIManager.renderTasks view s) = said (rendering view) s.
Proof.
  unfold UIManager.renderTasks, rendering. destruct view as [| t view];
    [reflexivity |].
  cbn [length Nat.eqb]. unfold ui_bind at 1 3. cbn [call].
  intros Hr. rewrite (forEach_cards _ _ Hr). apply said_said.
Qed.

(** The tasks that pass the filters set on the page. *)
Definition shown (page : Controls) (t : JSValue) : bool :=
  let searchTerm := trim (toLowerCase (searchInput page)) in
  (String.eqb searchTerm "" || passes (App.matches_search searchTerm) t)
  && (String.eqb (categoryFilter page) "all"
      || passes (App.in_category (categoryFilter page)) t)
  && (if String.eqb (statusFilter page) "pending" then passes App.is_pending t
      else if String.eqb (statusFilter page) "completed"
           then passes UIManager.is_completed t
           else true).

(** The three filters and the sort, on the elements of the state's tasks. *)
Definition selection (page : Controls) (ts : list JSValue)
  : Outcome (list JSValue) :=
  let searchTerm := trim (toLowerCase (searchInput page)) in
  obind (if negb (String.eqb searchTerm "")
         then filter_list (App.matches_search searchTerm) ts else Ret ts)
        (fun l1 =>
  obind (if negb (String.eqb (categoryFilter page) "all")
         then filter_list (App.in_category (categoryFilter page)) l1 else Ret l1)
        (fun l2 =>
  obind (if String.eqb (statusFilter page) "pending"
         then filter_list App.is_pending l2
         else if String.eqb (statusFilter page) "completed"
              then filter_list UIManager.is_completed l2
              else Ret l2)
        (fun l3 => AppController.sortTasks l3 (sortSelect page)))).

Lemma applyFiltersAndSort_eq page s ts :
  currentTasks (state s) = JArr ts ->
  App.applyFiltersAndSort page s
  = match selection page ts with
    | Ret view => UIManager.renderTasks view s
    | Throw e => (Throw e, s)
    end.
Proof.
  intros Hts. unfold App.applyFiltersAndSort, selection.
  unfold ui_bind at 1. cbn [get_state]. unfold ui_bind at 1.
  rewrite Hts. cbn [App.spread outcome].
  set (term := trim (toLowerCase (searchInput page))).
  unfold ui_bind at 1.
  destruct (negb (String.eqb term "")); cbn [outcome ui_ret];
    [destruct (filter_list _ ts) as [l1 | e]; cbn [obind]; [| reflexivity] |
     cbn [obind]];
    (unfold ui_bind at 1;
     destruct (negb (String.eqb (categoryFilter page) "all"));
     cbn [outcome ui_ret];
     [destruct (filter_list (App.in_category _) _) as [l2 | e]; cbn [obind];
      [| reflexivity] | cbn [obind]];
     (unfold ui_bind at 1;
      destruct (String.eqb (statusFilter page) "pending");
      [| destruct (String.eqb (statusFilter page) "completed")];
      cbn [outcome ui_ret];
      try (destruct (filter_list _ _) as [l3 | e]; cbn [obind]; [| reflexivity]);
      cbn [obind]; unfold ui_bind at 1; cbn [outcome];
      destruct (AppController.sortTasks _ _); reflexivity)).
Qed.

Lemma filter_true {A} (l : list A) : List.filter (fun _ => true) l = l.
Proof. induction l as [| x l IH]; [reflexivity |]. cbn. now rewrite IH. Qed.

Lemma selection_shown page ts view :
  selection page ts = Ret view ->
  AppController.sortTasks (List.filter (shown page) ts) (sortSelect page)
  = Ret view.
Proof.
  unfold selection.
  set (term := trim (toLowerCase (searchInput page))).
  assert (forall (c : bool) p l r,
             (if c then filter_list p l else Ret l) = Ret r ->
             r = List.filter (fun t => negb c || passes p t) l) as Hstep.
  { intros [] p l r; cbn [negb orb].
    - apply filter_list_passes.
    - intros [= <-]. symmetry. apply filter_true. }
  destruct (if negb (String.eqb term "") then _ else _) as [l1 | e] eqn:E1;
    cbn [obind]; [| discriminate].
  destruct (if negb (String.eqb (categoryFilter page) "all") then _ else _)
    as [l2 | e] eqn:E2; cbn [obind]; [| discriminate].
  destruct (if String.eqb (statusFilter page) "pending" then _ else _)
    as [l3 | e] eqn:E3; cbn [obind]; [| discriminate].
  apply Hstep in E1, E2. rewrite negb_involutive in E1, E2.
  assert (l3 = List.filter
                 (fun t => if String.eqb (statusFilter page) "pending"
                           then passes App.is_pending t
                           else if String.eqb (statusFilter page) "completed"
                                then passes UIManager.is_completed t
                                else true) l2) as ->.
  { destruct (String.eqb (statusFilter page) "pending");
      [now apply filter_list_passes |].
    destruct (String.eqb (statusFilter page) "completed");
      [now apply filter_list_passes |].
    injection E3 as <-. symmetry. apply filter_true. }
  subst l2 l1. rewrite !filter_both. intros <-. f_equal.
  apply List.filter_ext. intros t. unfold shown. fold term.
  now rewrite andb_assoc.
Qed.

(** On tasks of the data model, [applyFiltersAndSort], when it returns, has
    handed to [renderTasks] the sorted list of exactly the tasks of the
    state that pass the search, the category filter and the status filter
    set on the page: none is added, lost or repeated, the pending ones come
    first, and an empty result shows the empty state.  It changes neither
    the store nor the state. *)
Theorem applyFiltersAndSort_shows_the_matching_tasks
    (page : Controls) (s : Session) (ts : list JSValue) :
  currentTasks (state s) = JArr ts ->
  Forall (typed_task (sortSelect page)) (List.filter (shown page) ts) ->
  fst (App.applyFiltersAndSort page s) = Ret tt ->
  exists view pending done,
    AppController.sortTasks (List.filter (shown page) ts) (sortSelect page)
    = Ret view
    /\ Permutation (List.filter (shown page) ts) view
    /\ view = pending ++ done
    /\ Forall (fun t => completed_of t = false) pending
    /\ Forall (fun t => completed_of t = true) done
    /\ snd (App.applyFiltersAndSort page s) = said (rendering view) s.
Proof.
  intros Hts Htyped Hret. rewrite (applyFiltersAndSort_eq _ _ _ Hts) in *.
  destruct (selection page ts) as [view | e] eqn:Esel; [| discriminate].
  pose proof (selection_shown _ _ _ Esel) as Hsort.
  assert (view = sort_by (order (sortSelect page)) (List.filter (shown page) ts))
    as Hview.
  { unfold AppController.sortTasks in Hsort.
    rewrite (Array_sort_typed _ _ Htyped) in Hsort. now injection Hsort. }
  destruct (sorted_groups (sortSelect page) view) as (pending & done & Hg).
  { rewrite Hview. now apply sort_by_order_typed. }
  exists view, pending, done.
  split; [exact Hsort |]. split; [now apply Array_sort_perm in Hsort |].
  destruct Hg as (Hv & Hp & Hd). repeat (split; [assumption |]).
  now apply renderTasks_returns.
Qed.

(** A task as the form and [addTask] make it, as far as the filters, the
    sort by [sortBy] and the card look: a task of the data model whose
    [title] is a string, whose [description], if any, is a string, and whose
    [id], [priority], [dueDate] and [createdAt] can be converted to
    strings, as every string, number and boolean can. *)
Definition form_task (sortBy : string) (t : JSValue) : Prop :=
  typed_task sortBy t
  /\ exists o title,
      t = JObj o /\ obj_get "title" o = Some (JStr title)
      /\ (obj_get "description" o = None
          \/ exists d, obj_get "description" o = Some (JStr d))
      /\ converts_opt (obj_get "id" o) = true
      /\ converts_opt (obj_get "priority" o) = true
      /\ converts_opt (obj_get "dueDate" o) = true
      /\ converts_opt (obj_get "createdAt" o) = true.

(** The stored categories have a [color] and a [name] that can be converted
    to strings, as those of the defaults and of the category form. *)
Definition plain_categories (w : World) : Prop :=
  forall cs,
    categories_of w = JArr cs ->
    Forall (fun c => forall o, c = JObj o ->
                               converts_opt (obj_get "color" o) = true
                               /\ converts_opt (obj_get "name" o) = true) cs.

Lemma of_category_plain w categoryId k d :
  plain_categories w -> k = "color" \/ k = "name" ->
  exists v, UIManager.of_category k d (found_category categoryId w) = Ret v
            /\ converts_opt v = true.
Proof.
  intros Hw Hk. unfold found_category.
  assert (exists v, UIManager.of_category k d JNull = Ret v
                    /\ converts_opt v = true) as Hnull
      by (eexists; split; reflexivity).
  destruct (categories_of w) as [| | | | cs |] eqn:Ecs; try exact Hnull.
  cbn [Array_find].
  destruct (find_from _ 0 cs) as [[[i c] |] | e] eqn:Ef; try exact Hnull.
  apply find_from_Some in Ef as (j & _ & Hj & _).
  specialize (Hw cs Ecs). pose proof (Forall_lookup_1 _ _ _ _ Hw Hj) as Hc.
  destruct (truthy (Some c)) eqn:Et; [| exact Hnull].
  unfold UIManager.of_category. rewrite Et.
  destruct c as [| b | n | x | xs | o]; try discriminate;
    try (eexists; split; reflexivity).
  cbn [prop]. eexists. split; [reflexivity |].
  destruct (Hc o eq_refl) as [Hcolor Hname]. now destruct Hk as [-> | ->].
Qed.

Lemma matches_search_returns term sortBy t :
  form_task sortBy t -> exists b, App.matches_search term t = Ret b.
Proof.
  intros (_ & o & title & -> & Ht & Hd & _). unfold App.matches_search.
  cbn [prop obind]. rewrite Ht. cbn [lowered obind].
  destruct (includes _ term); [eauto |].
  destruct Hd as [-> | [d ->]]; cbn [truthy]; [eauto |].
  destruct (negb (String.eqb d "")); cbn [lowered obind]; eauto.
Qed.

Lemma object_tests_return sortBy t :
  form_task sortBy t ->
  (forall c, exists b, App.in_category c t = Ret b)
  /\ (exists b, App.is_pending t = Ret b)
  /\ (exists b, UIManager.is_completed t = Ret b).
Proof.
  intros (_ & o & title & -> & _).
  unfold App.in_category, App.is_pending, UIManager.is_completed.
  cbn [prop obind]. eauto 10.
Qed.

(** The card of such a task is built. *)
Lemma card_of_form_task w sortBy t :
  plain_categories w -> form_task sortBy t -> card w t = Ret (TaskCard t).
Proof.
  intros Hw (_ & o & title & -> & Ht & Hd & Hid & Hp & Hdue & Hc).
  unfold card. cbn [prop obind]. unfold ToString at 1 2.
  rewrite Hid, Hp. cbn [obind]. cbv zeta.
  destruct (of_category_plain w (obj_get "category" o) "color" "#6b7280" Hw)
    as (color & -> & Hcolor); [now left |].
  destruct (of_category_plain w (obj_get "category" o) "name" "Uncategorized" Hw)
    as (name & Hn & Hname); [now right |].
  cbn [obind]. unfold ToString at 1. rewrite Hdue. cbn [obind].
  rewrite Ht. unfold ToString at 1 2. cbn [converts_opt converts].
  rewrite Hcolor. cbn [obind]. rewrite Hn. cbn [obind].
  unfold ToString at 1. rewrite Hname. cbn [obind].
  assert ((if truthy (obj_get "description" o)
           then ToString (obj_get "description" o) else Ret "")
          = Ret (if truthy (obj_get "description" o)
                 then toString_opt (obj_get "description" o) else "")) as ->.
  { destruct Hd as [-> | [d ->]]; [reflexivity |].
    unfold ToString. cbn [converts_opt converts]. now destruct (truthy _). }
  cbn [obind]. unfold ToString. now rewrite Hc.
Qed.

Lemma forEach_cards_return l s :
  Forall (fun t => card (world s) t = Ret (TaskCard t)) l ->
  fst (forEach (fun task => taskCard <- UIManager.createTaskCard task ;;
                           call (appendChild taskCard)) l s) = Ret tt.
Proof.
  intros Hall. revert s Hall. induction l as [| t l IH]; intros s Hall;
    [reflexivity |].
  apply Forall_cons in Hall as [Ht Hall].
  rewrite forEach_cons, card_step, Ht. now apply IH.
Qed.

Lemma renderTasks_builds view s :
  Forall (fun t => card (world s) t = Ret (TaskCard t)) view ->
  fst (UIManager.renderTasks view s) = Ret tt.
Proof.
  intros Hall. unfold UIManager.renderTasks. destruct view as [| t view];
    [reflexivity |].
  cbn [length Nat.eqb]. unfold ui_bind at 1. cbn [call].
  now apply forEach_cards_return.
Qed.

Lemma matches_search_throws term t e :
  App.matches_search term t = Throw e -> e = TypeError.
Proof.
  unfold App.matches_search.
  destruct (prop "title" t) as [title | e1] eqn:E1; cbn [obind].
  2:{ destruct t; cbn in E1; congruence. }
  destruct (lowered title) as [l | e2] eqn:E2; cbn [obind].
  2:{ unfold lowered in E2. destruct title as [[] |]; congruence. }
  destruct (includes l term); [discriminate |].
  destruct (prop "description" t) as [d | e3] eqn:E3; cbn [obind].
  2:{ destruct t; cbn in E3; congruence. }
  destruct (truthy d); [| discriminate].
  destruct (lowered d) as [ld | e4] eqn:E4; cbn [obind]; [discriminate |].
  unfold lowered in E4. destruct d as [[] |]; congruence.
Qed.

(** [applyFiltersAndSort] returns whenever every task of the state is as
    the form and [addTask] make it and the stored categories have a [color]
    and a [name] that can be converted to strings.  With a search term on
    the page, one task whose [title] is not a string makes it throw a
    [TypeError] before anything is rendered, whatever the other filters. *)
Theorem applyFiltersAndSort_returns_or_throws
    (page : Controls) (s : Session) (ts : list JSValue) :
  currentTasks (state s) = JArr ts ->
  (Forall (form_task (sortSelect page)) ts -> plain_categories (world s) ->
   fst (App.applyFiltersAndSort page s) = Ret tt)
  /\ (trim (toLowerCase (searchInput page)) <> "" ->
      Exists (fun t => forall title, prop "title" t <> Ret (Some (JStr title))) ts ->
      App.applyFiltersAndSort page s = (Throw TypeError, s)).
Proof.
  intros Hts. rewrite (applyFiltersAndSort_eq _ _ _ Hts). split.
  - intros Hall Hcats. unfold selection.
    set (term := trim (toLowerCase (searchInput page))).
    assert (forall (c : bool) p l,
               Forall (form_task (sortSelect page)) l ->
               (forall t, form_task (sortSelect page) t -> exists b, p t = Ret b) ->
               exists r, (if c then filter_list p l else Ret l) = Ret r
                         /\ Forall (form_task (sortSelect page)) r) as Hstep.
    { intros c p l Hl Hp. destruct c; [| eauto].
      exists (List.filter (passes p) l). split; [| now apply Forall_List_filter].
      apply filter_list_returns. eapply Forall_impl; [exact Hl | exact Hp]. }
    destruct (Hstep (negb (String.eqb term "")) (App.matches_search term) ts Hall)
      as (l1 & -> & H1); [intros t; apply matches_search_returns |].
    cbn [obind].
    destruct (Hstep (negb (String.eqb (categoryFilter page) "all"))
                (App.in_category (categoryFilter page)) l1 H1)
      as (l2 & -> & H2); [intros t Ht; apply (object_tests_return _ _ Ht) |].
    cbn [obind].
    assert (exists l3,
               (if String.eqb (statusFilter page) "pending"
                then filter_list App.is_pending l2
                else if String.eqb (statusFilter page) "completed"
                     then filter_list UIManager.is_completed l2
                     else Ret l2) = Ret l3
               /\ Forall (form_task (sortSelect page)) l3) as (l3 & -> & H3).
    { destruct (String.eqb (statusFilter page) "pending").
      - apply (Hstep true); [exact H2 |].
        intros t Ht. apply (object_tests_return _ _ Ht).
      - apply (Hstep (String.eqb (statusFilter page) "completed")); [exact H2 |].
        intros t Ht. apply (object_tests_return _ _ Ht). }
    cbn [obind]. unfold AppController.sortTasks.
    rewrite Array_sort_typed
      by (eapply Forall_impl; [exact H3 | now intros t [Ht _]]).
    apply renderTasks_builds. apply sort_by_Forall.
    eapply Forall_impl; [exact H3 |]. intros t Ht.
    now apply (card_of_form_task _ (sortSelect page)).
  - intros Hterm Hex. unfold selection.
    destruct (String.eqb_spec (trim (toLowerCase (searchInput page))) "")
      as [| _]; [contradiction |].
    cbn [negb]. rewrite (filter_list_throws _ _ TypeError); [reflexivity | |].
    + eapply Exists_impl; [exact Hex |]. intros t Ht. cbn beta in Ht.
      unfold App.matches_search.
      destruct (prop "title" t) as [[[| | | title | |] |] | e] eqn:E;
        cbn [obind lowered]; try reflexivity.
      * now destruct (Ht title).
      * destruct t; cbn in E; congruence.
    + apply Forall_forall. intros t _ e'. apply matches_search_throws.
Qed.

(** ** What a form submission stores *)

Definition keeps_world {A} (m : UI A) : Prop :=
  forall s, world (snd (m s)) = world s.

Lemma calls_only_keeps_world {A} (m : UI A) : calls_only m -> keeps_world m.
Proof. intros Hm s. apply Hm. Qed.

Lemma keeps_world_bind {A B} (m : UI A) (k : A -> UI B) :
  keeps_world m -> (forall a, keeps_world (k a)) -> keeps_world (ui_bind m k).
Proof.
  intros Hm Hk s. unfold ui_bind. specialize (Hm s).
  destruct (m s) as [[a | e] s']; [| exact Hm].
  cbn [snd] in Hm. now rewrite Hk.
Qed.

Lemma keeps_world_loadData : keeps_world App.loadData.
Proof. intros s. now rewrite loadData_eq. Qed.

Lemma world_after {A B} (m : UI A) (k : A -> UI B) s :
  (forall a, keeps_world (k a)) ->
  world (snd (ui_bind m k s)) = world (snd (m s)).
Proof.
  intros Hk. unfold ui_bind. destruct (m s) as [[a | e] s']; [apply Hk | reflexivity].
Qed.

Lemma world_run {A} (m : JS A) s : world (snd (run m s)) = snd (m (world s)).
Proof. unfold run. now destruct (m (world s)). Qed.

#[local] Hint Resolve calls_only_keeps_world keeps_world_bind keeps_world_loadData
  : page.

(** The form passes the check of [handleTaskSubmit]. *)
Definition valid (page : Controls) : bool :=
  negb (String.eqb (trim (taskTitle page)) "")
  && negb (String.eqb (taskCategory page) "")
  && negb (String.eqb (taskDueDate page) "").

(** The store operation of a valid submission. *)
Definition submission (now : Z) (suffix : string) (stamp : Z) (page : Controls)
  : JS bool :=
  if text_truthy (taskForm_dataset_taskId page)
  then updateTask (default "" (taskForm_dataset_taskId page)) (App.taskData page)
  else addTask now suffix stamp (App.taskData page).

Lemma handleTaskSubmit_world now suffix stamp page s :
  world (snd (App.handleTaskSubmit now suffix stamp page s))
  = if valid page then snd (submission now suffix stamp page (world s))
    else world s.
Proof.
  unfold App.handleTaskSubmit, valid, submission.
  cbn [App.taskData obj_get String.eqb Ascii.eqb Bool.eqb truthy].
  destruct (String.eqb (trim (taskTitle page)) ""); cbn [negb orb andb];
    [reflexivity |].
  destruct (String.eqb (taskCategory page) ""); cbn [negb orb andb];
    [reflexivity |].
  destruct (String.eqb (taskDueDate page) ""); cbn [negb orb andb];
    [reflexivity |].
  rewrite world_after.
  2:{ intros []; [| auto with page].
      apply keeps_world_bind; [apply keeps_world_loadData |]. intros _.
      apply calls_only_keeps_world. auto 10 with page. }
  destruct (text_truthy (taskForm_dataset_taskId page));
    (rewrite world_after; [apply world_run |]);
    intros []; auto 10 with page.
Qed.

(** The five fields that the form supplies. *)
Definition form_field (k : string) : Prop :=
  k = "title" \/ k = "description" \/ k = "category" \/ k = "priority"
  \/ k = "dueDate".

Definition from_form (page : Controls) (t : JSObject) : Prop :=
  obj_get "title" t = Some (JStr (trim (taskTitle page)))
  /\ obj_get "description" t = Some (JStr (trim (taskDescription page)))
  /\ obj_get "category" t = Some (JStr (taskCategory page))
  /\ obj_get "priority" t = Some (JStr (taskPriority page))
  /\ obj_get "dueDate" t = Some (JStr (taskDueDate page)).

Lemma taskData_wf page : wf_obj (App.taskData page) = true.
Proof. reflexivity. Qed.

Lemma taskData_other page k :
  ~ form_field k -> obj_get k (App.taskData page) = None.
Proof.
  intros Hk. unfold form_field in Hk. cbn [App.taskData obj_get].
  destruct (String.eqb_spec k "title"); [tauto |].
  destruct (String.eqb_spec k "description"); [tauto |].
  destruct (String.eqb_spec k "category"); [tauto |].
  destruct (String.eqb_spec k "priority"); [tauto |].
  destruct (String.eqb_spec k "dueDate"); [tauto | reflexivity].
Qed.

(** A submission of the task form leaves the store as it is, or it has
    passed the check (a title that is not blank, a category and a due date)
    and then, without a task identifier on the form, one task is appended
    that holds the five fields of the form, is pending and has the
    identifier and creation time [addTask] builds; with a task identifier,
    the first task that bears it holds the five fields of the form and has
    every other field, [id], [createdAt], [completed] and [completedAt]
    among them, as before. *)
Theorem handleTaskSubmit_stores_the_form (now : Z) (suffix : string) (stamp : Z)
    (page : Controls) (s : Session) (ts : list JSValue) :
  fst (listTasks (world s)) = Ret (JArr ts) ->
  exists w',
    world (snd (App.handleTaskSubmit now suffix stamp page s)) = w'
    /\ (w' = world s
        \/ (trim (taskTitle page) <> "" /\ taskCategory page <> ""
            /\ taskDueDate page <> ""
            /\ ((text_truthy (taskForm_dataset_taskId page) = false
                 /\ exists t,
                     fst (listTasks w') = Ret (JArr (ts ++ [JObj t]))
                     /\ from_form page t
                     /\ obj_get "id" t = Some (JStr (task_id now suffix))
                     /\ obj_get "createdAt" t = Some (JStr (toISOString stamp))
                     /\ obj_get "completed" t = Some (JBool false)
                     /\ obj_get "completedAt" t = Some JNull)
                \/ (exists taskId i o o',
                       taskForm_dataset_taskId page = Some taskId
                       /\ ts !! i = Some (JObj o)
                       /\ obj_get "id" o = Some (JStr taskId)
                       /\ fst (listTasks w') = Ret (JArr (<[i := JObj o']> ts))
                       /\ from_form page o'
                       /\ forall k, ~ form_field k ->
                                    obj_get k o' = obj_get k o)))).
Proof.
  intros Hts. apply listTasks_value in Hts.
  eexists. split; [reflexivity |]. rewrite handleTaskSubmit_world.
  unfold valid, submission.
  destruct (String.eqb_spec (trim (taskTitle page)) "") as [| Ht];
    cbn [negb andb]; [now left |].
  destruct (String.eqb_spec (taskCategory page) "") as [| Hc];
    cbn [negb andb]; [now left |].
  destruct (String.eqb_spec (taskDueDate page) "") as [| Hd];
    cbn [negb andb]; [now left |].
  destruct (text_truthy (taskForm_dataset_taskId page)) eqn:Eid.
  - destruct (taskForm_dataset_taskId page) as [taskId |] eqn:Etid;
      [| discriminate]. change (default "" (Some taskId)) with taskId.
    destruct (reports_updateTask taskId (App.taskData page) (world s))
      as ([] & w' & E & Hfalse); rewrite E; cbn [snd];
      [| left; now apply Hfalse].
    right. split; [exact Ht |]. split; [exact Hc |]. split; [exact Hd |]. right.
    apply (updateTask_success _ _ _ _ ts Hts (taskData_wf page)) in E
      as (i & o & Hi & Hid & E & _).
    exists taskId, i, o, (obj_assign o (App.taskData page)).
    split; [reflexivity |]. split; [exact Hi |]. split; [exact Hid |].
    split; [now apply listTasks_value |]. split.
    + pose proof (taskData_wf page) as Hwf. apply wf_obj_spec in Hwf as [Hnd _].
      repeat split; now apply obj_get_assign_Some.
    + intros k Hk. apply obj_get_assign_None. now apply taskData_other.
  - destruct (reports_addTask now suffix stamp (App.taskData page) (world s))
      as ([] & w' & E & Hfalse); rewrite E; cbn [snd];
      [| left; now apply Hfalse].
    right. split; [exact Ht |]. split; [exact Hc |]. split; [exact Hd |]. left.
    split; [reflexivity |].
    apply (addTask_success _ _ _ _ _ _ ts Hts (taskData_wf page)) in E as (E & _).
    exists (new_task now suffix stamp (App.taskData page)).
    split; [now apply listTasks_value |]. unfold new_task, from_form.
    split; [repeat split; now rewrite !obj_get_set_ne by discriminate |].
    split; [rewrite !obj_get_set_ne by discriminate; apply obj_get_set_eq |].
    split; [rewrite !obj_get_set_ne by discriminate; apply obj_get_set_eq |].
    split; [rewrite obj_get_set_ne by discriminate |]; apply obj_get_set_eq.
Qed.

(** ** Clearing the completed tasks *)

(** With the state's tasks those of the store and none of them [null],
    [clearCompletedTasks] reports that there is nothing to clear when no task
    is completed, and otherwise asks for confirmation with the number of
    completed tasks in the question, in the plural from two on.  Confirming
    then leaves the store as it is (the write failed) or leaves exactly the
    tasks that are not completed, which are that number fewer. *)
Theorem clearCompleted_asks_then_deletes
    (page : Controls) (s : Session) (ts : list JSValue) :
  currentTasks (state s) = JArr ts ->
  fst (listTasks (world s)) = Ret (JArr ts) ->
  Forall (fun t => t <> JNull) ts ->
  let n := Z.of_nat (length (List.filter completed_of ts)) in
  let asked := snd (App.clearCompletedTasks s) in
  let confirmed :=
    world (snd (App.confirmAction page ConfirmClearCompleted asked)) in
  App.clearCompletedTasks s
  = (Ret tt,
     said [if n =? 0
           then showNotification "No completed tasks to clear" "info"
           else showConfirmModal
                  "Clear Completed Tasks"
                  ("Are you sure you want to delete " +:+ Z_toString n
                   +:+ " completed task" +:+ (if 1 <? n then "s" else "")
                   +:+ "?")
                  ConfirmClearCompleted] s)
  /\ (confirmed = world s
      \/ (fst (listTasks confirmed) = Ret (JArr (List.filter active ts))
          /\ Z.of_nat (length (List.filter active ts)) + n
             = Z.of_nat (length ts))).
Proof.
  intros Hcur Hts Hall n asked confirmed.
  destruct (completed_and_active ts Hall) as (Hc & _ & Hlen).
  assert (App.clearCompletedTasks s
          = (Ret tt,
             said [if n =? 0
                   then showNotification "No completed tasks to clear" "info"
                   else showConfirmModal
                          "Clear Completed Tasks"
                          ("Are you sure you want to delete " +:+ Z_toString n
                           +:+ " completed task"
                           +:+ (if 1 <? n then "s" else "") +:+ "?")
                          ConfirmClearCompleted] s)) as E.
  { unfold App.clearCompletedTasks, ui_bind, get_state, outcome.
    rewrite Hcur. cbn [Array_filter]. rewrite Hc. cbn [obind Array_length].
    fold n. now destruct (n =? 0). }
  split; [exact E |].
  assert (world asked = world s) as Hw by (subst asked; now rewrite E).
  subst confirmed. unfold App.confirmAction. rewrite world_after by auto with page.
  rewrite world_after.
  2:{ intros []; [| auto with page].
      apply keeps_world_bind; [auto with page |]. intros _.
      apply keeps_world_bind; [apply keeps_world_loadData |]. intros _.
      apply calls_only_keeps_world. auto 10 with page. }
  rewrite world_run, Hw.
  destruct (reports_clearCompletedTasks (world s)) as ([] & w' & Ew & Hfalse);
    rewrite Ew; cbn [snd]; [| left; now apply Hfalse].
  right. apply listTasks_value in Hts.
  apply (clearCompletedTasks_success _ _ ts Hts) in Ew as (Ew & _).
  split; [now apply listTasks_value | subst n; lia].
Qed.

(** ** The theme *)

Lemma updateSetting_deref r key value w o :
  fst (deref r w) = Ret (JObj o) ->
  exists b w',
    updateSetting key value w = (Ret b, w')
    /\ (fst (deref r w') = Ret (JObj o)
        \/ fst (deref r w') = Ret (JObj (obj_put key value o))).
Proof.
  intros Hr. rewrite updateSetting_eq.
  destruct (assign_key key value (settings_of w)) as [st | e] eqn:Ea; [| eauto].
  destruct (saved_frame STORAGE_KEYS_SETTINGS st (settings_mutated st w))
    as (_ & _ & Hc & Hs).
  assert (exists b, fst (saved STORAGE_KEYS_SETTINGS st (settings_mutated st w))
                    = Ret b) as [b Hb].
  { unfold saved. destruct (written _ _ _); eauto. }
  exists b, (snd (saved STORAGE_KEYS_SETTINGS st (settings_mutated st w))).
  split; [rewrite <- Hb; now destruct (saved _ _ _) |].
  destruct r as [v | |]; cbn [deref fst] in *.
  - now left.
  - left. rewrite Hc. rewrite <- Hr. f_equal. unfold settings_mutated.
    now destruct (stored _ w).
  - rewrite Hs. unfold settings_mutated, settings_of in *.
    destruct (stored _ w); [now left |]. cbn [default] in Ea.
    injection Hr as Hr. rewrite Hr in Ea. cbn [assign_key] in Ea.
    injection Ea as <-. now right.
Qed.

(** When the state's settings are an object, [toggleTheme] turns the theme
    ['light'] into ['dark'] and any other theme, or none, into ['light']:
    whether or not the setting could be saved, the state's settings then
    carry the new theme and are otherwise unchanged, the page is told to apply
    it, and the notification names it. *)
Theorem toggleTheme_flips_the_theme (s : Session) (o : JSObject) :
  fst (deref (settings (state s)) (world s)) = Ret (JObj o) ->
  let newTheme :=
    if strict_eq (obj_get "theme" o) (Some (JStr "light"))
    then "dark" else "light" in
  exists s',
    App.toggleTheme s = (Ret tt, s')
    /\ fst (deref (settings (state s')) (world s'))
       = Ret (JObj (obj_set "theme" (JStr newTheme) o))
    /\ calls s'
       = calls s
         ++ [applyTheme (Some (JStr newTheme));
             showNotification
               ((if String.eqb newTheme "dark" then "Dark" else "Light")
                +:+ " theme activated")
               "success"].
Proof.
  intros Hr newTheme.
  unfold App.toggleTheme, ui_bind at 1 2 3, get_state, run at 1, outcome at 1.
  assert (deref (settings (state s)) (world s) = (Ret (JObj o), world s)) as Hd.
  { unfold deref in *. cbn [fst] in Hr. now rewrite Hr. }
  rewrite Hd. cbn [prop world state calls]. fold newTheme.
  destruct (updateSetting_deref (settings (state s)) "theme" (JStr newTheme)
              (world s) o Hr) as (b & w' & Eu & Hw').
  assert (exists o', deref (settings (state s)) w' = (Ret (JObj o'), w')
                     /\ obj_set "theme" (JStr newTheme) o'
                        = obj_set "theme" (JStr newTheme) o) as (o' & Hd' & Ho').
  { rewrite obj_put_plain in Hw' by (discriminate || reflexivity).
    destruct Hw' as [Hw' | Hw'].
    - exists o. split; [| reflexivity]. unfold deref in *. cbn [fst] in Hw'.
      now rewrite Hw'.
    - exists (obj_set "theme" (JStr newTheme) o). split; [| apply obj_set_twice].
      unfold deref in *. cbn [fst] in Hw'. now rewrite Hw'. }
  unfold ui_bind at 1, run at 1. cbn [world state calls]. rewrite Eu.
  unfold ui_bind at 1, run at 1. cbn [world state calls]. rewrite Hd'.
  unfold ui_bind at 1, outcome at 1. cbn [assign]. rewrite Ho'.
  destruct (settings (state s)) as [v | |] eqn:Er;
    unfold App.store_settings, ui_bind, get_state, set_state, run, mutate, call;
    cbn; eexists; (split; [reflexivity |]); cbn; rewrite ?Er;
    (split; [reflexivity | now rewrite <- app_assoc]).
Qed.

(** ** Export *)

(** With well-formed defaults, [exportData] always offers the download: the
    file is named after the day of the export, and its text is the document
    [StorageManager.exportData] produced, which is not empty; the store is
    not changed. *)
Theorem exportData_offers_the_document (stamp today : Z) (s : Session) :
  wf_world (world s) ->
  exists text,
    StorageManager.exportData stamp (world s) = (Ret (Some text), world s)
    /\ text <> ""
    /\ App.exportData stamp today s
       = (Ret tt,
          said [download ("taskflow-backup-"
                          +:+ App.before "T" (toISOString today) +:+ ".json")
                         text;
                showNotification "Data exported successfully" "success"] s).
Proof.
  intros Hw. exists (JSON_stringify_indent (export_document stamp (world s))).
  split; [apply exportData_eq |].
  assert (JSON_stringify_indent (export_document stamp (world s)) <> "") as Hne.
  { intros E.
    assert (wf_value (export_document stamp (world s)) = true) as Hwf.
    { unfold export_document. simpl.
      rewrite (tasks_of_wf (world s)), (categories_of_wf _ Hw),
        (settings_of_wf _ Hw). reflexivity. }
    apply JSON_parse_stringify_indent in Hwf.
    rewrite E, JSON_parse_empty in Hwf. discriminate. }
  split; [exact Hne |].
  unfold App.exportData, ui_bind, run. rewrite exportData_eq.
  cbn [text_truthy]. apply String.eqb_neq in Hne. rewrite Hne. cbn [negb].
  unfold call, said. cbn. now rewrite <- app_assoc.
Qed.

End PageLogic.

(** * Concrete sessions on the reference host *)

#[local] Existing Instance Reference.json.
#[local] Existing Instance Reference.strings.
#[local] Existing Instance Reference.dates.

(** A writable, empty store, and the world once the script has run
    [initialize] on it. *)
Definition empty_store : LocalStorage :=
  {| items := ∅; access := Quota 5000000 |}.

Definition denied_store : LocalStorage :=
  {| items := ∅; access := Denied |}.

Definition initial_world : World := snd (initialize (script_loaded empty_store)).

Example initial_world_collections :
  fst (listTasks initial_world) = Ret (JArr [])
  /\ fst (listCategories initial_world) = Ret DEFAULT_CATEGORIES_literal
  /\ fst (listSettings initial_world) = Ret DEFAULT_SETTINGS_literal.
Proof. vm_compute. auto. Qed.

Lemma initial_world_wf : wf_world initial_world.
Proof. split; reflexivity. Qed.

(** The scenario of the specification: one task created in the empty
    repository. *)
Definition task_A : JSObject :=
  [ ("title", JStr "A"); ("category", JStr "cat_1");
    ("priority", JStr "low"); ("dueDate", JStr "2026-02-01") ].

Definition world_A : World :=
  snd (addTask 1769904000000 "k3j9x2m1q" 1769904000000 task_A initial_world).

Definition stored_A : JSValue :=
  JObj [ ("title", JStr "A"); ("category", JStr "cat_1");
         ("priority", JStr "low"); ("dueDate", JStr "2026-02-01");
         ("id", JStr "task_1769904000000_k3j9x2m1q");
         ("createdAt", JStr "2026-02-01T00:00:00.000Z");
         ("completed", JBool false); ("completedAt", JNull) ].

Example world_A_tasks : fst (listTasks world_A) = Ret (JArr [stored_A]).
Proof. vm_compute. reflexivity. Qed.

(** ** A store that fails the probe and still serves

    The store is full: the probe's [setItem] exceeds the quota.  Nothing
    records that; the stored tasks are still read, and a write that fits
    goes through. *)

Definition full_store : LocalStorage :=
  let m : gmap string string :=
    {[ STORAGE_KEYS_TASKS := JSON_stringify (JArr [stored_A]) ]} in
  {| items := m; access := Quota (usage m) |}.

Definition full_world : World := script_loaded full_store.

(** C1, as stated, fails on [full_world]: the probe fails, yet a read
    returns the stored tasks and a write succeeds and changes the store. *)
Lemma probe_failure_counterexample :
  fst (isLocalStorageAvailable full_world) = Ret false
  /\ initialize full_world = (Ret tt, full_world)
  /\ fst (listTasks full_world) = Ret (JArr [stored_A])
  /\ fst (saveTasks (JArr []) full_world) = Ret true
  /\ slot STORAGE_KEYS_TASKS (snd (saveTasks (JArr []) full_world)) = Some "[]".
Proof.
  assert (fst (isLocalStorageAvailable full_world) = Ret false) as Hprobe
      by (vm_compute; reflexivity).
  split; [exact Hprobe |]. split; [now apply initialize_unavailable |].
  vm_compute. auto.
Qed.

(** ** A caller that supplies [completed], [id] or [createdAt] *)

Definition id_A : string := "task_1769904000000_k3j9x2m1q".

Definition world_A_completed : World :=
  snd (updateTask id_A [("completed", JBool true)] world_A).

Definition stored_A_completed : JSValue :=
  JObj [ ("title", JStr "A"); ("category", JStr "cat_1");
         ("priority", JStr "low"); ("dueDate", JStr "2026-02-01");
         ("id", JStr "task_1769904000000_k3j9x2m1q");
         ("createdAt", JStr "2026-02-01T00:00:00.000Z");
         ("completed", JBool true); ("completedAt", JNull) ].

(** C2, as stated, fails: [updateTask] with [{completed: true}] succeeds
    and leaves a completed task without [completedAt]. *)
Lemma completion_invariant_counterexample :
  fst (updateTask id_A [("completed", JBool true)] world_A) = Ret true
  /\ fst (listTasks world_A_completed) = Ret (JArr [stored_A_completed])
  /\ ~ completion_invariant stored_A_completed.
Proof.
  split; [vm_compute; reflexivity |]. split; [vm_compute; reflexivity |].
  intros [_ Hdone]. destruct Hdone as (c & d & _ & Hd & _); [reflexivity |].
  discriminate Hd.
Qed.

Definition forged : JSObject :=
  [ ("id", JStr "task_0_forged"); ("createdAt", JStr "1999-12-31T23:59:59.000Z") ].

Definition world_A_forged : World := snd (updateTask id_A forged world_A).

Definition stored_A_forged : JSValue :=
  JObj [ ("title", JStr "A"); ("category", JStr "cat_1");
         ("priority", JStr "low"); ("dueDate", JStr "2026-02-01");
         ("id", JStr "task_0_forged");
         ("createdAt", JStr "1999-12-31T23:59:59.000Z");
         ("completed", JBool false); ("completedAt", JNull) ].

(** Why the creation time enters: a task without [createdAt] satisfies the
    invariant while it is pending, and it no longer does once it has been
    toggled. *)
Definition undated : JSValue :=
  JObj [ ("id", JStr "x"); ("completed", JBool false); ("completedAt", JNull) ].

Definition world_undated : World :=
  snd (importData
         (JSON_stringify (JObj [("tasks", JArr [undated]); ("categories", JArr [])]))
         initial_world).

Example undated_task_breaks_on_toggle :
  completion_invariant undated
  /\ fst (listTasks world_undated) = Ret (JArr [undated])
  /\ exists t,
      fst (listTasks (snd (toggleTaskComplete 1769904060000 "x" world_undated)))
      = Ret (JArr [t])
      /\ ~ completion_invariant t.
Proof.
  split; [split; cbn; [auto | discriminate] |].
  split; [vm_compute; reflexivity |].
  eexists. split; [vm_compute; reflexivity |].
  intros [_ H]. destruct (H eq_refl) as (c & d & Hc & _). discriminate Hc.
Qed.

(** C3, as stated, fails: [updateTask] with an [id] and a [createdAt] among
    the fields succeeds and replaces both. *)
Lemma identity_fields_counterexample :
  fst (listTasks world_A) = Ret (JArr [stored_A])
  /\ fst (updateTask id_A forged world_A) = Ret true
  /\ fst (listTasks world_A_forged) = Ret (JArr [stored_A_forged])
  /\ prop "id" stored_A_forged <> prop "id" stored_A
  /\ prop "createdAt" stored_A_forged <> prop "createdAt" stored_A.
Proof.
  split; [vm_compute; reflexivity |]. split; [vm_compute; reflexivity |].
  split; [vm_compute; reflexivity |]. split; discriminate.
Qed.

(** ** A setting under [__proto__] *)

(** C9, as stated, fails: under the key [__proto__] [updateSetting] reports
    success, and the settings read afterwards are the ones read before, with
    nothing under that key. *)
Lemma updateSetting_proto_counterexample :
  fst (listSettings initial_world) = Ret DEFAULT_SETTINGS_literal
  /\ fst (updateSetting "__proto__" (JStr "x") initial_world) = Ret true
  /\ fst (listSettings (snd (updateSetting "__proto__" (JStr "x") initial_world)))
     = Ret DEFAULT_SETTINGS_literal
  /\ ~ (exists o',
          fst (listSettings
                 (snd (updateSetting "__proto__" (JStr "x") initial_world)))
          = Ret (JObj o')
          /\ obj_get "__proto__" o' = Some (JStr "x")).
Proof.
  split; [vm_compute; reflexivity |]. split; [vm_compute; reflexivity |].
  split; [vm_compute; reflexivity |].
  intros (o' & Ho' & Hx). vm_compute in Ho'. injection Ho' as <-.
  discriminate Hx.
Qed.

(** ** Two creations within one millisecond *)

Definition errands : JSObject := [("name", JStr "Errands"); ("color", JStr "#0ea5e9")].
Definition garden : JSObject := [("name", JStr "Garden"); ("color", JStr "#84cc16")].

Definition world_two_categories : World :=
  snd (addCategory 1769904000000 garden
         (snd (addCategory 1769904000000 errands initial_world))).

Definition task_B : JSObject :=
  [ ("title", JStr "B"); ("category", JStr "cat_2");
    ("priority", JStr "high"); ("dueDate", JStr "2026-01-01") ].

Definition world_AB : World :=
  snd (addTask 1769904000000 "k3j9x2m1q" 1769904000000 task_B world_A).

(** C8, as stated, fails: two categories created at the same clock reading
    receive the same [id], and so do two tasks created at the same clock
    reading with the same random suffix. *)
Lemma fresh_id_counterexample :
  fst (addCategory 1769904000000 errands initial_world) = Ret true
  /\ fst (addCategory 1769904000000 garden
            (snd (addCategory 1769904000000 errands initial_world))) = Ret true
  /\ (exists cs c1 c2,
         fst (listCategories world_two_categories) = Ret (JArr (cs ++ [c1; c2]))
         /\ prop "name" c1 = Ret (Some (JStr "Errands"))
         /\ prop "name" c2 = Ret (Some (JStr "Garden"))
         /\ prop "id" c1 = Ret (Some (JStr "cat_1769904000000"))
         /\ prop "id" c2 = Ret (Some (JStr "cat_1769904000000")))
  /\ fst (addTask 1769904000000 "k3j9x2m1q" 1769904000000 task_B world_A) = Ret true
  /\ (exists t1 t2,
         fst (listTasks world_AB) = Ret (JArr [t1; t2])
         /\ prop "title" t1 = Ret (Some (JStr "A"))
         /\ prop "title" t2 = Ret (Some (JStr "B"))
         /\ prop "id" t1 = Ret (Some (JStr id_A))
         /\ prop "id" t2 = Ret (Some (JStr id_A))).
Proof.
  split; [vm_compute; reflexivity |]. split; [vm_compute; reflexivity |].
  split.
  - eexists (match DEFAULT_CATEGORIES_literal with JArr l => l | _ => [] end), _, _.
    split; [vm_compute; reflexivity |]. repeat split; reflexivity.
  - split; [vm_compute; reflexivity |]. do 2 eexists.
    split; [vm_compute; reflexivity |]. repeat split; reflexivity.
Qed.

(** ** The properties on concrete sessions *)

Lemma run_pair {A} (p : Outcome A * World) (a : Outcome A) :
  fst p = a -> p = (a, snd p).
Proof. destruct p. simpl. now intros ->. Qed.

Lemma probe_failure_keeps_no_flag_witness :
  fst (isLocalStorageAvailable (script_loaded denied_store)) = Ret false
  /\ initialize (script_loaded denied_store) = (Ret tt, script_loaded denied_store)
  /\ listTasks (script_loaded denied_store)
     = (Ret (JArr []), script_loaded denied_store)
  /\ forall v, saveTasks v (script_loaded denied_store)
               = (Ret false, script_loaded denied_store).
Proof.
  assert (fst (isLocalStorageAvailable (script_loaded denied_store)) = Ret false)
    as Hprobe by reflexivity.
  destruct (probe_failure_keeps_no_flag (script_loaded denied_store) Hprobe)
    as (Hinit & _ & _ & _ & _ & Hdenied).
  destruct (Hdenied eq_refl) as (Hsave & Htasks & _).
  split; [exact Hprobe |]. split; [exact Hinit |]. split; [exact Htasks |].
  intros v. apply Hsave.
Defined.

Definition world_A_toggled : World :=
  snd (toggleTaskComplete 1769904060000 id_A world_A).

Lemma reachable_tasks_satisfy_invariant_witness :
  sound (0, initial_world)
  /\ rtc step (0, initial_world) (1769904060000, world_A_toggled)
  /\ exists ts,
      fst (listTasks world_A_toggled) = Ret (JArr ts)
      /\ Forall completion_invariant ts.
Proof.
  assert (sound (0, initial_world)) as Hs.
  { exists []. split; [vm_compute; reflexivity | constructor]. }
  assert (rtc step (0, initial_world) (1769904060000, world_A_toggled)) as Hr.
  { eapply rtc_l;
      [apply (step_addTask 0 initial_world 1769904000000 "k3j9x2m1q"
                           1769904000000 task_A); [reflexivity | lia] |].
    eapply rtc_l; [| apply rtc_refl].
    apply (step_toggleTaskComplete 1769904000000 _ 1769904060000 id_A). lia. }
  split; [exact Hs |]. split; [exact Hr |].
  exact (reachable_tasks_satisfy_invariant _ _ Hs Hr).
Defined.

Example world_A_toggled_task :
  fst (listTasks world_A_toggled)
  = Ret (JArr [JObj [ ("title", JStr "A"); ("category", JStr "cat_1");
                      ("priority", JStr "low"); ("dueDate", JStr "2026-02-01");
                      ("id", JStr id_A);
                      ("createdAt", JStr "2026-02-01T00:00:00.000Z");
                      ("completed", JBool true);
                      ("completedAt", JStr "2026-02-01T00:01:00.000Z") ]]).
Proof. vm_compute. reflexivity. Qed.

Definition retitled : JSObject := [("title", JStr "A, revised")].

Lemma identity_fields_kept_unless_supplied_witness :
  fst (listTasks world_A) = Ret (JArr [stored_A])
  /\ wf_obj retitled = true
  /\ updateTask id_A retitled world_A
     = (Ret true, snd (updateTask id_A retitled world_A))
  /\ exists i o o',
      [stored_A] !! i = Some (JObj o)
      /\ obj_get "id" o = Some (JStr id_A)
      /\ fst (listTasks (snd (updateTask id_A retitled world_A)))
         = Ret (JArr (<[i := JObj o']> [stored_A]))
      /\ obj_get "id" o' = obj_get "id" o
      /\ obj_get "createdAt" o' = obj_get "createdAt" o.
Proof.
  assert (fst (listTasks world_A) = Ret (JArr [stored_A])) as Hts
      by (vm_compute; reflexivity).
  assert (updateTask id_A retitled world_A
          = (Ret true, snd (updateTask id_A retitled world_A))) as Hop
      by (apply run_pair; vm_compute; reflexivity).
  split; [exact Hts |]. split; [reflexivity |]. split; [exact Hop |].
  destruct (proj1 (identity_fields_kept_unless_supplied world_A [stored_A] Hts)
              id_A retitled _ eq_refl Hop)
    as (i & o & o' & Hi & Hid & Hl & Hkeep_id & Hkeep_created & _).
  exists i, o, o'. repeat split; auto.
Defined.

(** The scenario of the specification: of two tasks, the one due later is
    pending and the one due earlier is completed. *)
Definition due_later_pending : JSValue :=
  JObj [ ("id", JStr "task_1_a"); ("title", JStr "Later");
         ("priority", JStr "low"); ("dueDate", JStr "2026-02-01");
         ("completed", JBool false); ("completedAt", JNull) ].

Definition due_earlier_completed : JSValue :=
  JObj [ ("id", JStr "task_2_b"); ("title", JStr "Earlier");
         ("priority", JStr "high"); ("dueDate", JStr "2026-01-01");
         ("completed", JBool true);
         ("completedAt", JStr "2026-01-02T00:00:00.000Z") ].

Example sortTasks_scenario :
  AppController.sortTasks [due_earlier_completed; due_later_pending] "date"
  = Ret [due_later_pending; due_earlier_completed].
Proof. vm_compute. reflexivity. Qed.

Lemma typed_scenario :
  Forall (typed_task "date") [due_earlier_completed; due_later_pending].
Proof.
  repeat constructor.
  - eexists. split; [reflexivity |]. split; [eexists; reflexivity |].
    split; [intros _; do 2 eexists; split; reflexivity |].
    split; discriminate.
  - eexists. split; [reflexivity |]. split; [eexists; reflexivity |].
    split; [intros _; do 2 eexists; split; reflexivity |].
    split; discriminate.
Qed.


Lemma world_A_wf : wf_world world_A.
Proof. split; vm_compute; reflexivity. Qed.


Lemma importData_rejects_malformed_witness :
  JSON_parse "{not valid}" = None
  /\ importData "{not valid}" world_A = (Ret false, world_A)
  /\ fst (listTasks (snd (importData "{not valid}" world_A)))
     = fst (listTasks world_A).
Proof.
  assert (JSON_parse "{not valid}" = None) as Hp by (vm_compute; reflexivity).
  destruct (proj1 (importData_rejects_malformed "{not valid}" world_A)
              (or_introl Hp)) as (Hr & _).
  split; [exact Hp |]. split; [exact Hr |]. rewrite Hr. reflexivity.
Defined.

(** C6, as stated, fails: a document whose [tasks] is a string and whose
    [categories] is a number is not of the shape an export has, and
    [importData] returns [true] and overwrites both slots with them. *)
Definition misshapen : JSValue :=
  JObj [ ("tasks", JStr "x"); ("categories", JNum 5) ].

Lemma importData_shape_counterexample :
  JSON_parse (JSON_stringify misshapen) = Some misshapen
  /\ fst (importData (JSON_stringify misshapen) world_A) = Ret true
  /\ fst (listTasks world_A) = Ret (JArr [stored_A])
  /\ fst (listTasks (snd (importData (JSON_stringify misshapen) world_A)))
     = Ret (JStr "x")
  /\ fst (listCategories (snd (importData (JSON_stringify misshapen) world_A)))
     = Ret (JNum 5)
  /\ slot STORAGE_KEYS_TASKS (snd (importData (JSON_stringify misshapen) world_A))
     <> slot STORAGE_KEYS_TASKS world_A.
Proof.
  repeat split; try (vm_compute; reflexivity).
  vm_compute. discriminate.
Qed.

(** A document whose [categories] is [null] is rejected. *)
Example importData_null_categories :
  importData (JSON_stringify (JObj [("tasks", JArr []); ("categories", JNull)]))
    world_A
  = (Ret false, world_A).
Proof.
  rewrite importData_eq.
  assert (JSON_parse (JSON_stringify
                        (JObj [("tasks", JArr []); ("categories", JNull)]))
          = Some (JObj [("tasks", JArr []); ("categories", JNull)])) as ->
      by (vm_compute; reflexivity).
  reflexivity.
Qed.

(** A document without [categories] is rejected as well. *)
Example importData_missing_categories :
  importData (JSON_stringify (JObj [("tasks", JArr [])])) world_A
  = (Ret false, world_A).
Proof.
  rewrite importData_eq.
  assert (JSON_parse (JSON_stringify (JObj [("tasks", JArr [])]))
          = Some (JObj [("tasks", JArr [])])) as -> by (vm_compute; reflexivity).
  reflexivity.
Qed.

(** The scenario of the specification on the initial world, whose default
    categories include [Work]: both calls are rejected and one category is
    named [work]. *)
Example Work_then_WORK_scenario :
  fst (addCategory 1769904000000 [("name", JStr "Work"); ("color", JStr "#000000")]
         initial_world) = Ret false
  /\ fst (addCategory 1769904000001 [("name", JStr "WORK"); ("color", JStr "#000000")]
            initial_world) = Ret false
  /\ exists cs c,
      fst (listCategories initial_world) = Ret (JArr cs)
      /\ List.filter (named "work") cs = [c].
Proof.
  split; [vm_compute; reflexivity |]. split; [vm_compute; reflexivity |].
  do 2 eexists. split; vm_compute; reflexivity.
Qed.

(** A world whose category collection is empty. *)
Definition world_no_categories : World :=
  snd (saveCategories (JArr []) initial_world).

Definition Work : JSObject := [("name", JStr "Work"); ("color", JStr "#3b82f6")].
Definition WORK : JSObject := [("name", JStr "WORK"); ("color", JStr "#ef4444")].

Lemma addCategory_rejects_duplicate_name_witness :
  (fst (listCategories initial_world) = Ret DEFAULT_CATEGORIES_literal
   /\ toLowerCase "Work" = toLowerCase "WORK"
   /\ addCategory 1769904000001 WORK initial_world = (Ret false, initial_world))
  /\ (fst (listCategories world_no_categories) = Ret (JArr [])
      /\ addCategory 1769904000000 Work world_no_categories
         = (Ret true, snd (addCategory 1769904000000 Work world_no_categories))
      /\ addCategory 1769904000001 WORK
           (snd (addCategory 1769904000000 Work world_no_categories))
         = (Ret false, snd (addCategory 1769904000000 Work world_no_categories))
      /\ exists cs1 c,
          fst (listCategories
                 (snd (addCategory 1769904000000 Work world_no_categories)))
          = Ret (JArr cs1)
          /\ List.filter (named "Work") cs1 = [c]).
Proof.
  assert (toLowerCase "Work" = toLowerCase "WORK") as Hlow by reflexivity.
  split.
  - assert (fst (listCategories initial_world) = Ret DEFAULT_CATEGORIES_literal)
      as Hcs by (vm_compute; reflexivity).
    split; [exact Hcs |]. split; [exact Hlow |].
    apply (proj1 addCategory_rejects_duplicate_name 1769904000001 WORK "WORK"
             initial_world _ (category "cat_1" "Work" "#3b82f6") "Work" Hcs);
      [reflexivity | apply list_elem_of_here | reflexivity | exact Hlow].
  - assert (fst (listCategories world_no_categories) = Ret (JArr [])) as Hcs
        by (vm_compute; reflexivity).
    assert (wf_world world_no_categories) as Hw by (split; vm_compute; reflexivity).
    assert (addCategory 1769904000000 Work world_no_categories
            = (Ret true, snd (addCategory 1769904000000 Work world_no_categories)))
      as Hadd by (apply run_pair; vm_compute; reflexivity).
    split; [exact Hcs |]. split; [exact Hadd |].
    exact (proj2 addCategory_rejects_duplicate_name 1769904000000 1769904000001
             Work WORK "Work" "WORK" world_no_categories _ [] Hw eq_refl Hcs
             eq_refl eq_refl Hlow eq_refl Hadd).
Defined.

Lemma assigned_ids_witness :
  (fst (listTasks initial_world) = Ret (JArr [])
   /\ exists t,
       fst (listTasks world_A) = Ret (JArr ([] ++ [JObj t]))
       /\ obj_get "id" t = Some (JStr (task_id 1769904000000 "k3j9x2m1q")))
  /\ (fst (listCategories world_no_categories) = Ret (JArr [])
      /\ exists c,
          fst (listCategories
                 (snd (addCategory 1769904000000 Work world_no_categories)))
          = Ret (JArr ([] ++ [JObj c]))
          /\ obj_get "id" c = Some (JStr (category_id 1769904000000))).
Proof.
  split.
  - assert (fst (listTasks initial_world) = Ret (JArr [])) as Hts
        by (vm_compute; reflexivity).
    split; [exact Hts |].
    apply (proj1 assigned_ids 1769904000000 "k3j9x2m1q" 1769904000000 task_A
             initial_world world_A [] Hts eq_refl).
    apply run_pair. vm_compute. reflexivity.
  - assert (fst (listCategories world_no_categories) = Ret (JArr [])) as Hcs
        by (vm_compute; reflexivity).
    assert (wf_world world_no_categories) as Hw by (split; vm_compute; reflexivity).
    split; [exact Hcs |].
    apply (proj1 (proj2 (proj2 assigned_ids)) 1769904000000 Work
             world_no_categories _ [] Hw eq_refl Hcs).
    apply run_pair. vm_compute. reflexivity.
Defined.

Lemma updateSetting_stores_key_witness :
  wf_world initial_world
  /\ fst (listSettings initial_world) = Ret DEFAULT_SETTINGS_literal
  /\ updateSetting "theme" (JStr "dark") initial_world
     = (Ret true, snd (updateSetting "theme" (JStr "dark") initial_world))
  /\ exists o',
      fst (listSettings (snd (updateSetting "theme" (JStr "dark") initial_world)))
      = Ret (JObj o')
      /\ obj_get "theme" o' = Some (JStr "dark")
      /\ obj_get "sortBy" o' = Some (JStr "date").
Proof.
  assert (fst (listSettings initial_world) = Ret DEFAULT_SETTINGS_literal) as Hs
      by (vm_compute; reflexivity).
  assert (updateSetting "theme" (JStr "dark") initial_world
          = (Ret true, snd (updateSetting "theme" (JStr "dark") initial_world)))
    as Hup by (apply run_pair; vm_compute; reflexivity).
  split; [exact initial_world_wf |]. split; [exact Hs |]. split; [exact Hup |].
  assert ("theme" <> "__proto__") as Hne by discriminate.
  destruct (updateSetting_stores_key "theme" (JStr "dark") initial_world _ _
              initial_world_wf eq_refl Hs Hne Hup) as (o' & Ho' & Hkey & Hother).
  exists o'. split; [exact Ho' |]. split; [exact Hkey |].
  rewrite Hother by discriminate. reflexivity.
Defined.

(** An unknown key is stored as well. *)
Example updateSetting_unknown_key :
  fst (listSettings (snd (updateSetting "density" (JStr "compact") initial_world)))
  = Ret (JObj [ ("theme", JStr "light"); ("sortBy", JStr "date");
                ("filterCategory", JStr "all"); ("filterStatus", JStr "all");
                ("density", JStr "compact") ]).
Proof. vm_compute. reflexivity. Qed.

Lemma task_operations_preserve_order_witness :
  fst (listTasks world_A) = Ret (JArr [stored_A])
  /\ wf_obj task_B = true
  /\ addTask 1769904000001 "p0o9i8u7y" 1769904000001 task_B world_A
     = (Ret true,
        snd (addTask 1769904000001 "p0o9i8u7y" 1769904000001 task_B world_A))
  /\ exists t,
      fst (listTasks
             (snd (addTask 1769904000001 "p0o9i8u7y" 1769904000001 task_B world_A)))
      = Ret (JArr ([stored_A] ++ [t])).
Proof.
  assert (fst (listTasks world_A) = Ret (JArr [stored_A])) as Hts
      by (vm_compute; reflexivity).
  assert (addTask 1769904000001 "p0o9i8u7y" 1769904000001 task_B world_A
          = (Ret true,
             snd (addTask 1769904000001 "p0o9i8u7y" 1769904000001 task_B world_A)))
    as Hop by (apply run_pair; vm_compute; reflexivity).
  split; [exact Hts |]. split; [reflexivity |]. split; [exact Hop |].
  exact (proj1 (task_operations_preserve_order world_A [stored_A] Hts)
           1769904000001 "p0o9i8u7y" 1769904000001 task_B _ eq_refl Hop).
Defined.

(** ** The shared defaults

    With access denied the category slot is never there, so
    [getCategories] hands out [DEFAULT_CATEGORIES] itself: [addCategory]
    reports failure, and yet its [push] shows in every later read. *)
Example denied_addCategory_changes_default :
  fst (addCategory 1769904000000 errands (script_loaded denied_store)) = Ret false
  /\ fst (listCategories
            (snd (addCategory 1769904000000 errands (script_loaded denied_store))))
     = Ret (JArr [ category "cat_1" "Work" "#3b82f6";
                   category "cat_2" "Personal" "#8b5cf6";
                   category "cat_3" "Shopping" "#ec4899";
                   category "cat_4" "Health" "#10b981";
                   JObj [ ("name", JStr "Errands"); ("color", JStr "#0ea5e9");
                          ("id", JStr "cat_1769904000000") ] ]).
Proof. vm_compute. auto. Qed.

(** ** Further sessions: the life of the store *)

#[local] Existing Instance Reference.texts.

(** A store whose tasks slot holds a text that is not JSON, and one whose
    tasks slot holds a number. *)
Definition world_garbled : World :=
  script_loaded {| items := {[ STORAGE_KEYS_TASKS := "{oops" ]};
                   access := Quota 5000000 |}.

Definition world_scalar : World :=
  script_loaded {| items := {[ STORAGE_KEYS_TASKS := "5" ]};
                   access := Quota 5000000 |}.

Lemma initialize_keeps_collections_witness :
  wf_world world_A
  /\ fst (initialize world_A) = Ret tt
  /\ fst (listTasks (snd (initialize world_A))) = Ret (JArr [stored_A]).
Proof.
  split; [exact world_A_wf |].
  destruct (initialize_keeps_collections world_A world_A_wf) as (Hi & Ht & _).
  split; [exact Hi |]. rewrite Ht. vm_compute. reflexivity.
Defined.

Lemma initialize_never_overwrites_witness :
  slot STORAGE_KEYS_TASKS world_garbled = Some "{oops"
  /\ slot STORAGE_KEYS_TASKS (snd (initialize world_garbled)) = Some "{oops".
Proof.
  assert (slot STORAGE_KEYS_TASKS world_garbled = Some "{oops") as Hs
      by (vm_compute; reflexivity).
  split; [exact Hs |].
  apply initialize_never_overwrites; [discriminate | exact Hs |].
  left. discriminate.
Defined.

Lemma clearAllData_resets_to_defaults_witness :
  wf_world world_A
  /\ fst (listTasks world_A) = Ret (JArr [stored_A])
  /\ fst (clearAllData world_A) = Ret true
  /\ fst (listTasks (snd (clearAllData world_A))) = Ret (JArr []).
Proof.
  split; [exact world_A_wf |]. split; [vm_compute; reflexivity |].
  destruct (clearAllData_resets_to_defaults world_A world_A_wf) as [_ Hq].
  assert (access (storage world_A) = Quota 5000000) as Ha
      by (vm_compute; reflexivity).
  destruct (Hq _ Ha) as (Hr & Ht & _). split; assumption.
Defined.

Lemma absent_id_is_reported_witness :
  fst (listTasks world_A) = Ret (JArr [stored_A])
  /\ getTaskById "task_0_missing" world_A = (Ret JNull, world_A)
  /\ deleteTask "task_0_missing" world_A = (Ret false, world_A)
  /\ updateTask "task_0_missing" [("title", JStr "B")] world_A
     = (Ret false, world_A).
Proof.
  assert (fst (listTasks world_A) = Ret (JArr [stored_A])) as Hts
      by (vm_compute; reflexivity).
  split; [exact Hts |].
  destruct (absent_id_is_reported "task_0_missing" world_A [stored_A] Hts)
    as (Hg & Hu & _ & Hd).
  - repeat constructor.
  - split; [exact Hg |]. split; [exact Hd | apply Hu].
Defined.

Lemma added_task_is_found_witness :
  fst (listTasks initial_world) = Ret (JArr [])
  /\ exists t,
      getTaskById (task_id 1769904000000 "k3j9x2m1q") world_A
      = (Ret (JObj t), world_A)
      /\ obj_get "createdAt" t = Some (JStr (toISOString 1769904000000))
      /\ obj_get "title" t = Some (JStr "A").
Proof.
  assert (fst (listTasks initial_world) = Ret (JArr [])) as Hts
      by (vm_compute; reflexivity).
  split; [exact Hts |].
  destruct (added_task_is_found 1769904000000 "k3j9x2m1q" 1769904000000 task_A
              initial_world world_A [] Hts eq_refl)
    as (t & Hg & _ & Hc & _ & _ & Hk).
  - constructor.
  - apply run_pair. vm_compute. reflexivity.
  - exists t. split; [exact Hg |]. split; [exact Hc |].
    rewrite Hk by discriminate. reflexivity.
Defined.

Lemma deleted_task_is_gone_witness :
  deleteTask id_A world_A = (Ret true, snd (deleteTask id_A world_A))
  /\ getTaskById id_A (snd (deleteTask id_A world_A))
     = (Ret JNull, snd (deleteTask id_A world_A))
  /\ fst (deleteTask id_A (snd (deleteTask id_A world_A))) = Ret false.
Proof.
  assert (deleteTask id_A world_A = (Ret true, snd (deleteTask id_A world_A)))
    as Hd by (apply run_pair; vm_compute; reflexivity).
  split; [exact Hd |].
  assert (fst (listTasks world_A) = Ret (JArr [stored_A])) as Hts
      by (vm_compute; reflexivity).
  destruct (deleted_task_is_gone id_A world_A _ [stored_A] Hts Hd)
    as (Hg & Hd2 & _).
  split; [exact Hg |]. now rewrite Hd2.
Defined.

Lemma updated_task_is_found_witness :
  updateTask id_A retitled world_A = (Ret true, snd (updateTask id_A retitled world_A))
  /\ exists o',
      getTaskById id_A (snd (updateTask id_A retitled world_A))
      = (Ret (JObj o'), snd (updateTask id_A retitled world_A))
      /\ obj_get "title" o' = Some (JStr "A, revised")
      /\ obj_get "dueDate" o' = Some (JStr "2026-02-01").
Proof.
  assert (updateTask id_A retitled world_A
          = (Ret true, snd (updateTask id_A retitled world_A)))
    as Hu by (apply run_pair; vm_compute; reflexivity).
  split; [exact Hu |].
  assert (fst (listTasks world_A) = Ret (JArr [stored_A])) as Hts
      by (vm_compute; reflexivity).
  destruct (updated_task_is_found id_A retitled world_A _ [stored_A] Hts
              eq_refl eq_refl Hu) as (o & o' & Hg & Hg' & Hnew & Hold).
  exists o'. split; [exact Hg' |]. split; [now apply Hnew |].
  rewrite (Hold "dueDate" eq_refl).
  assert (fst (getTaskById id_A world_A) = Ret stored_A) as E
      by (vm_compute; reflexivity).
  rewrite Hg in E. cbn [fst] in E. injection E as ->. reflexivity.
Defined.

Lemma category_lookup_witness :
  fst (listCategories initial_world) = Ret DEFAULT_CATEGORIES_literal
  /\ getCategoryById "cat_9" initial_world = (Ret JNull, initial_world)
  /\ exists c,
      fst (getCategoryById (category_id 1769904000000)
             (snd (addCategory 1769904000000 errands initial_world)))
      = Ret (JObj c)
      /\ obj_get "name" c = Some (JStr "Errands").
Proof.
  assert (fst (listCategories initial_world) = Ret DEFAULT_CATEGORIES_literal)
    as Hcs by (vm_compute; reflexivity).
  split; [exact Hcs |].
  destruct (category_lookup initial_world _ Hcs) as [Habsent Hadded].
  split; [apply Habsent; repeat constructor |].
  destruct (Hadded 1769904000000 errands
              (snd (addCategory 1769904000000 errands initial_world))
              initial_world_wf eq_refl) as (c & Hg & _ & Hk).
  - repeat constructor.
  - apply run_pair. vm_compute. reflexivity.
  - exists c. split; [now rewrite Hg |]. now rewrite Hk by discriminate.
Defined.

Lemma toggle_twice_witness :
  fst (listTasks world_A) = Ret (JArr [stored_A])
  /\ fst (toggleTaskComplete 1769904060000 id_A world_A) = Ret true
  /\ fst (toggleTaskComplete 1769904120000 id_A world_A_toggled) = Ret true
  /\ fst (listTasks (snd (toggleTaskComplete 1769904120000 id_A world_A_toggled)))
     = Ret (JArr [stored_A]).
Proof.
  assert (fst (listTasks world_A) = Ret (JArr [stored_A])) as Hts
      by (vm_compute; reflexivity).
  assert (fst (toggleTaskComplete 1769904060000 id_A world_A) = Ret true)
    as H1 by (vm_compute; reflexivity).
  assert (fst (toggleTaskComplete 1769904120000 id_A world_A_toggled) = Ret true)
    as H2 by (vm_compute; reflexivity).
  split; [exact Hts |]. split; [exact H1 |]. split; [exact H2 |].
  destruct (toggle_twice 1769904060000 1769904120000 id_A world_A
              world_A_toggled _ [stored_A] Hts (run_pair _ _ H1)
              (run_pair _ _ H2))
    as (i & o & o2 & Hi & _ & _ & _ & _ & _ & Hback).
  destruct i as [| i]; [| destruct i; discriminate Hi].
  injection Hi as <-. now apply Hback.
Defined.

Lemma clearCompletedTasks_idempotent_witness :
  fst (listTasks world_A_completed) = Ret (JArr [stored_A_completed])
  /\ fst (clearCompletedTasks world_A_completed) = Ret true
  /\ fst (listTasks (snd (clearCompletedTasks world_A_completed)))
     = Ret (JArr [])
  /\ fst (listTasks (snd (clearCompletedTasks
                            (snd (clearCompletedTasks world_A_completed)))))
     = Ret (JArr []).
Proof.
  assert (fst (listTasks world_A_completed) = Ret (JArr [stored_A_completed]))
    as Hts by (vm_compute; reflexivity).
  assert (fst (clearCompletedTasks world_A_completed) = Ret true)
    as Hc by (vm_compute; reflexivity).
  split; [exact Hts |]. split; [exact Hc |].
  destruct (clearCompletedTasks_idempotent world_A_completed _
              [stored_A_completed] Hts (run_pair _ _ Hc)) as (H1 & _ & H2).
  split; [exact H1 |]. rewrite H2. exact H1.
Defined.




Lemma unreadable_tasks_read_as_empty_witness :
  slot STORAGE_KEYS_TASKS world_garbled = Some "{oops"
  /\ JSON_parse "{oops" = None
  /\ fst (listTasks world_garbled) = Ret (JArr [])
  /\ fst (listTasks (snd (addTask 1769904000000 "k3j9x2m1q" 1769904000000
                            task_A world_garbled)))
     = Ret (JArr [stored_A]).
Proof.
  assert (slot STORAGE_KEYS_TASKS world_garbled = Some "{oops") as Hs
      by (vm_compute; reflexivity).
  assert (JSON_parse "{oops" = None) as Hp by (vm_compute; reflexivity).
  split; [exact Hs |]. split; [exact Hp |].
  destruct (unreadable_tasks_read_as_empty world_garbled _ Hs Hp) as [He Ha].
  split; [exact He |].
  destruct (Ha 1769904000000 "k3j9x2m1q" 1769904000000 task_A
              (snd (addTask 1769904000000 "k3j9x2m1q" 1769904000000 task_A
                      world_garbled)) eq_refl) as [Hl _].
  - apply run_pair. vm_compute. reflexivity.
  - rewrite Hl. vm_compute. reflexivity.
Defined.

Lemma non_array_tasks_disable_operations_witness :
  fst (listTasks world_scalar) = Ret (JNum 5)
  /\ addTask 1769904000000 "k3j9x2m1q" 1769904000000 task_A world_scalar
     = (Ret false, world_scalar)
  /\ clearCompletedTasks world_scalar = (Ret false, world_scalar)
  /\ getTaskById id_A world_scalar = (Ret JNull, world_scalar).
Proof.
  assert (fst (listTasks world_scalar) = Ret (JNum 5)) as Hts
      by (vm_compute; reflexivity).
  split; [exact Hts |].
  destruct (non_array_tasks_disable_operations world_scalar _ Hts)
    as (Ha & _ & _ & _ & Hc & Hg).
  - discriminate.
  - split; [apply Ha |]. split; [exact Hc | apply Hg].
Defined.

(** ** Further sessions: sorting *)

Lemma sortTasks_idempotent_witness :
  Forall (typed_task "date") [due_earlier_completed; due_later_pending]
  /\ AppController.sortTasks [due_earlier_completed; due_later_pending] "date"
     = Ret [due_later_pending; due_earlier_completed]
  /\ AppController.sortTasks [due_later_pending; due_earlier_completed] "date"
     = Ret [due_later_pending; due_earlier_completed].
Proof.
  split; [exact typed_scenario |]. split; [exact sortTasks_scenario |].
  exact (sortTasks_idempotent _ _ _ typed_scenario sortTasks_scenario).
Defined.

Lemma sortTasks_unknown_criterion_witness :
  AppController.sortTasks
    [due_earlier_completed; due_later_pending; due_earlier_completed] "status"
  = Ret [due_later_pending; due_earlier_completed; due_earlier_completed].
Proof.
  apply (sortTasks_unknown_criterion
           [due_earlier_completed; due_later_pending; due_earlier_completed]
           "status"); try discriminate.
  repeat constructor; do 2 eexists; split; reflexivity.
Defined.

(** ** Further sessions: the page *)

Import Page.

(** The page with no filter set, and a filled task form. *)
Definition page_all : Controls :=
  {| searchInput := ""; categoryFilter := "all"; statusFilter := "all";
     sortSelect := "date"; taskForm_dataset_taskId := None;
     taskTitle := "  Buy milk "; taskDescription := "";
     taskCategory := "cat_3"; taskPriority := "high";
     taskDueDate := "2026-03-01";
     categoryName := ""; categoryColor := "#3b82f6" |}.

(** The same page with a search term. *)
Definition page_milk : Controls :=
  {| searchInput := "Milk"; categoryFilter := "all"; statusFilter := "all";
     sortSelect := "date"; taskForm_dataset_taskId := None;
     taskTitle := ""; taskDescription := ""; taskCategory := "";
     taskPriority := "medium"; taskDueDate := "";
     categoryName := ""; categoryColor := "#3b82f6" |}.

(** The page once [init] has run on a store. *)
Definition opened (w : World) : Session :=
  snd (App.init page_all {| world := w; state := initial_state; calls := [] |}).

Definition session_A : Session := opened world_A.
Definition session_done : Session := opened world_A_completed.

(** A state whose only task has a number for a title. *)
Definition session_untitled : Session :=
  {| world := initial_world;
     state := {| currentTasks := JArr [JObj [("title", JNum 5)]];
                 currentCategories := DefaultCategoriesRef;
                 settings := DefaultSettingsRef;
                 editingTaskId := JNull |};
     calls := [] |}.

(** The stored task of the scenario is as the form makes it, and the
    categories of its store are the defaults. *)
Lemma stored_A_form : form_task "date" stored_A.
Proof.
  split.
  - eexists. split; [reflexivity |]. split; [eexists; reflexivity |].
    split; [intros _; do 2 eexists; split; [reflexivity |];
            vm_compute; reflexivity |].
    split; discriminate.
  - do 2 eexists. split; [reflexivity |]. split; [reflexivity |].
    split; [now left |]. repeat split.
Qed.

Lemma session_A_categories : plain_categories (world session_A).
Proof.
  intros cs Hcs. vm_compute in Hcs. injection Hcs as <-.
  repeat (apply Forall_cons_2; [intros o [= <-]; split; reflexivity |]).
  apply Forall_nil_2.
Qed.

Lemma applyFiltersAndSort_shows_the_matching_tasks_witness :
  currentTasks (state session_A) = JArr [stored_A]
  /\ fst (App.applyFiltersAndSort page_all session_A) = Ret tt
  /\ calls (snd (App.applyFiltersAndSort page_all session_A))
     = calls session_A ++ [clearTasksContainer; appendChild (TaskCard stored_A)].
Proof.
  assert (currentTasks (state session_A) = JArr [stored_A]) as Hc
      by (vm_compute; reflexivity).
  assert (fst (App.applyFiltersAndSort page_all session_A) = Ret tt) as Hr
      by (vm_compute; reflexivity).
  assert (Forall (typed_task (sortSelect page_all))
            (List.filter (shown page_all) [stored_A])) as Ht.
  { replace (List.filter (shown page_all) [stored_A]) with [stored_A]
      by (vm_compute; reflexivity).
    constructor; [exact (proj1 stored_A_form) | constructor]. }
  split; [exact Hc |]. split; [exact Hr |].
  destruct (applyFiltersAndSort_shows_the_matching_tasks page_all session_A
              [stored_A] Hc Ht Hr) as (view & pending & done & Hs & _ & _ & _ & _ & Hsnd).
  rewrite Hsnd. vm_compute in Hs. injection Hs as <-. reflexivity.
Defined.

Lemma applyFiltersAndSort_returns_or_throws_witness :
  currentTasks (state session_A) = JArr [stored_A]
  /\ fst (App.applyFiltersAndSort page_all session_A) = Ret tt
  /\ App.applyFiltersAndSort page_milk session_untitled
     = (Throw TypeError, session_untitled).
Proof.
  assert (currentTasks (state session_A) = JArr [stored_A]) as Hc
      by (vm_compute; reflexivity).
  split; [exact Hc |]. split.
  - apply (applyFiltersAndSort_returns_or_throws page_all session_A [stored_A] Hc).
    + constructor; [exact stored_A_form | constructor].
    + exact session_A_categories.
  - apply (applyFiltersAndSort_returns_or_throws page_milk session_untitled
             [JObj [("title", JNum 5)]] eq_refl).
    + vm_compute. discriminate.
    + apply Exists_cons_hd. intros title. discriminate.
Defined.

(** ** A confirmed deletion

    The task of the scenario is deleted from its card: the click asks, the
    confirmation deletes, and the state follows the store. *)
Definition deletion : list (Controls * App.Event) :=
  [ (page_all, App.DeleteClick id_A);
    (page_all, App.ConfirmClick (ConfirmDeleteTask id_A)) ].

Lemma currentTasks_follow_the_store_witness :
  Forall (fun e => selectable (snd e)) deletion
  /\ currentTasks (state (after deletion session_A)) = JArr []
  /\ fst (listTasks (world (after deletion session_A))) = Ret (JArr []).
Proof.
  assert (Forall (fun e => selectable (snd e)) deletion) as Hsel.
  { repeat apply Forall_cons_2; try apply Forall_nil_2; try exact I.
    vm_compute. reflexivity. }
  pose proof (currentTasks_follow_the_store page_all deletion
                {| world := world_A; state := initial_state; calls := [] |}
                Hsel) as H.
  fold (opened world_A) in H. fold session_A in H.
  assert (currentTasks (state (after deletion session_A)) = JArr []) as Hc
      by (vm_compute; reflexivity).
  split; [exact Hsel |]. split; [exact Hc |]. rewrite <- H. now rewrite Hc.
Defined.

(** An identifier with a quotation mark in it, as an imported document can
    carry one: the selector built from it is rejected, so the confirmed
    deletion removes the task from the store, throws, and leaves it in the
    state. *)
Definition quoted_id : string := "a" +:+ String "034"%char "b".

Definition task_quoted : JSValue :=
  JObj [ ("title", JStr "Q"); ("category", JStr "cat_1");
         ("priority", JStr "low"); ("dueDate", JStr "2026-02-01");
         ("id", JStr quoted_id);
         ("createdAt", JStr "2026-02-01T00:00:00.000Z");
         ("completed", JBool false); ("completedAt", JNull) ].

Definition world_quoted : World :=
  snd (importData
         (JSON_stringify (JObj [("tasks", JArr [task_quoted]);
                                ("categories", JArr [])]))
         initial_world).

Definition session_quoted : Session := opened world_quoted.

Example quoted_identifier_leaves_the_state :
  currentTasks (state session_quoted) = JArr [task_quoted]
  /\ fst (App.dispatch page_all (App.ConfirmClick (ConfirmDeleteTask quoted_id))
            session_quoted) = Throw SyntaxError
  /\ currentTasks
       (state (snd (App.dispatch page_all
                      (App.ConfirmClick (ConfirmDeleteTask quoted_id))
                      session_quoted))) = JArr [task_quoted]
  /\ fst (listTasks
            (world (snd (App.dispatch page_all
                           (App.ConfirmClick (ConfirmDeleteTask quoted_id))
                           session_quoted)))) = Ret (JArr []).
Proof. vm_compute. repeat split. Qed.

(** An identifier that cannot be converted to a string, as an imported
    document can carry one: its card is not built, and the rendering
    stops there. *)
Definition unprintable : JSValue :=
  JObj [ ("id", JObj [("toString", JNum 1)]); ("completed", JBool false) ].

Example unprintable_identifier :
  fst (UIManager.createTaskCard unprintable session_A) = Throw TypeError
  /\ fst (UIManager.renderTasks [unprintable] session_A) = Throw TypeError.
Proof. vm_compute. repeat split. Qed.

Lemma handleTaskSubmit_stores_the_form_witness :
  fst (listTasks (world session_A)) = Ret (JArr [stored_A])
  /\ exists t,
      fst (listTasks
             (world (snd (App.handleTaskSubmit 1769990400000 "p0o9i8u7y"
                            1769990400000 page_all session_A))))
      = Ret (JArr [stored_A; JObj t])
      /\ obj_get "title" t = Some (JStr "Buy milk")
      /\ obj_get "dueDate" t = Some (JStr "2026-03-01")
      /\ obj_get "completed" t = Some (JBool false).
Proof.
  assert (fst (listTasks (world session_A)) = Ret (JArr [stored_A])) as Hts
      by (vm_compute; reflexivity).
  split; [exact Hts |].
  destruct (handleTaskSubmit_stores_the_form 1769990400000 "p0o9i8u7y"
              1769990400000 page_all session_A [stored_A] Hts)
    as (w' & Hw & [Hsame | (_ & _ & _ & [Hadd | Hedit])]).
  - exfalso. rewrite Hsame in Hw.
    apply (f_equal (fun w => fst (listTasks w))) in Hw.
    vm_compute in Hw. discriminate Hw.
  - destruct Hadd as (_ & t & Hl & (Ht & _ & _ & _ & Hd) & _ & _ & Hc & _).
    exists t. rewrite Hw. split; [exact Hl |].
    split; [rewrite Ht; vm_compute; reflexivity |].
    split; [exact Hd | exact Hc].
  - destruct Hedit as (taskId & _ & _ & _ & Hid & _). discriminate Hid.
Defined.

Lemma clearCompleted_asks_then_deletes_witness :
  currentTasks (state session_done) = JArr [stored_A_completed]
  /\ calls (snd (App.clearCompletedTasks session_done))
     = calls session_done
       ++ [showConfirmModal "Clear Completed Tasks"
             "Are you sure you want to delete 1 completed task?"
             ConfirmClearCompleted].
Proof.
  assert (currentTasks (state session_done) = JArr [stored_A_completed]) as Hc
      by (vm_compute; reflexivity).
  assert (fst (listTasks (world session_done)) = Ret (JArr [stored_A_completed]))
    as Hts by (vm_compute; reflexivity).
  split; [exact Hc |].
  pose proof (clearCompleted_asks_then_deletes page_all session_done
                [stored_A_completed] Hc Hts) as H.
  cbv zeta in H. destruct H as [Hq _].
  - repeat constructor. discriminate.
  - rewrite Hq. vm_compute. reflexivity.
Defined.

Lemma toggleTheme_flips_the_theme_witness :
  fst (deref (settings (state session_A)) (world session_A))
  = Ret DEFAULT_SETTINGS_literal
  /\ exists s',
      App.toggleTheme session_A = (Ret tt, s')
      /\ calls s'
         = calls session_A
           ++ [applyTheme (Some (JStr "dark"));
               showNotification "Dark theme activated" "success"].
Proof.
  assert (fst (deref (settings (state session_A)) (world session_A))
          = Ret DEFAULT_SETTINGS_literal) as Hs by (vm_compute; reflexivity).
  split; [exact Hs |].
  pose proof (toggleTheme_flips_the_theme session_A _ Hs) as H.
  cbv zeta in H. destruct H as (s' & He & _ & Hc).
  exists s'. split; [exact He |]. rewrite Hc. reflexivity.
Defined.

Lemma exportData_offers_the_document_witness :
  wf_world (world session_A)
  /\ exists text,
      text <> ""
      /\ App.exportData 1769904120000 1769904120000 session_A
         = (Ret tt,
            said [download "taskflow-backup-2026-02-01.json" text;
                  showNotification "Data exported successfully" "success"]
                 session_A).
Proof.
  assert (wf_world (world session_A)) as Hw by (split; vm_compute; reflexivity).
  split; [exact Hw |].
  destruct (exportData_offers_the_document 1769904120000 1769904120000
              session_A Hw) as (text & _ & Hne & He).
  exists text. split; [exact Hne |]. rewrite He. reflexivity.
Defined.
